(** * nomadly: the file-intake pipeline

    A shallow embedding of the TypeScript sources
    [src/utils/MetadataExtractor.ts], [src/utils/FieldMatcher.ts],
    [src/parser/FileParser.ts] and [src/parser/EnhancedFileParser.ts],
    followed by the properties proved about them.

    Strings are sequences of UTF-16 code units, as in JavaScript; numbers
    that the code treats as IEEE doubles are binary64 floats; the libraries
    the code calls (Papa Parse, SheetJS, PDF.js, Tesseract, Fuse, the
    FileReader) are records of functions that a caller supplies. *)

From Stdlib Require Import Strings.String Strings.Ascii Numbers.DecimalString.
From Stdlib Require Import ZArith NArith Bool Lia Arith List.
From Stdlib Require Import Floats.
From Stdlib Require Import Sorting.Permutation.
Import ListNotations.

Set Implicit Arguments.
Set Warnings "-inexact-float,-register-all,-abstract-large-number".

(* ================================================================== *)
(** ** JavaScript strings and the built-ins the sources use *)
(* ================================================================== *)

Module JS.

(** A UTF-16 code unit and a string of them. *)
Definition codeunit := N.
Definition jsstring := list codeunit.

(** A Basic Latin literal. *)
Definition lit (s : String.string) : jsstring :=
  map Ascii.N_of_ascii (String.list_ascii_of_string s).

Fixpoint eqb (a b : jsstring) : bool :=
  match a, b with
  | [], [] => true
  | x :: a', y :: b' => N.eqb x y && eqb a' b'
  | _, _ => false
  end.

(** Truthiness of a string: [Boolean(s)], [!s], [s && ...]. *)
Definition truthy (s : jsstring) : bool :=
  match s with [] => false | _ => true end.

Definition inRange (lo hi c : codeunit) : bool := (N.leb lo c && N.leb c hi)%bool.

Local Open Scope N_scope.

(** ECMAScript LineTerminator: LF, CR, LS, PS. *)
Definition isLineTerminator (c : codeunit) : bool :=
  (N.eqb c 10 || N.eqb c 13 || N.eqb c 8232 || N.eqb c 8233)%bool.

(** ECMAScript WhiteSpace plus LineTerminator: what [trim] strips and
    what the class [\s] matches. *)
Definition isWhiteSpace (c : codeunit) : bool :=
  (inRange 9 13 c || N.eqb c 32 || N.eqb c 160 || N.eqb c 5760
   || inRange 8192 8202 c || N.eqb c 8232 || N.eqb c 8233 || N.eqb c 8239
   || N.eqb c 8287 || N.eqb c 12288 || N.eqb c 65279)%bool.

Definition isDigit (c : codeunit) : bool := inRange 48 57 c.
Definition isUpper (c : codeunit) : bool := inRange 65 90 c.
Definition isLower (c : codeunit) : bool := inRange 97 122 c.

(** The class [\w]. *)
Definition isWordChar (c : codeunit) : bool :=
  (isLower c || isUpper c || isDigit c || N.eqb c 95)%bool.

Local Close Scope N_scope.

Fixpoint dropWhile (p : codeunit -> bool) (s : jsstring) : jsstring :=
  match s with
  | [] => []
  | c :: t => if p c then dropWhile p t else s
  end.

Fixpoint dropWhileEnd (p : codeunit -> bool) (s : jsstring) : jsstring :=
  match s with
  | [] => []
  | c :: t =>
      match dropWhileEnd p t with
      | [] => if p c then [] else [c]
      | t' => c :: t'
      end
  end.

(** [String.prototype.trim]. *)
Definition trim (s : jsstring) : jsstring :=
  dropWhileEnd isWhiteSpace (dropWhile isWhiteSpace s).

Fixpoint startsWith (needle hay : jsstring) : bool :=
  match needle, hay with
  | [], _ => true
  | x :: n', y :: h' => N.eqb x y && startsWith n' h'
  | _ :: _, [] => false
  end.

(** [hay.includes(needle)]. *)
Fixpoint includes (needle hay : jsstring) : bool :=
  startsWith needle hay ||
  match hay with
  | [] => false
  | _ :: t => includes needle t
  end.

(** [parts.join(sep)]. *)
Fixpoint join (sep : jsstring) (parts : list jsstring) : jsstring :=
  match parts with
  | [] => []
  | [p] => p
  | p :: rest => p ++ sep ++ join sep rest
  end.

(** The string of one line feed. *)
Definition newline : jsstring := [10%N].

(** Decimal digits of a natural number, as [String(n)] prints an index. *)
Definition decimal (n : N) : jsstring :=
  lit (NilZero.string_of_uint (N.to_uint n)).

(** A small non-negative integer as a double. *)
Definition ofNat (n : nat) : float :=
  PrimFloat.of_uint63 (Uint63.of_Z (Z.of_nat n)).

(** A value as a parser library hands it over: what [JSON.parse], Papa
    Parse and SheetJS produce.  An object is its own enumerable properties
    in order; properties inherited from a prototype are not modelled. *)
Inductive value : Type :=
| VUndefined
| VNull
| VBoolean (b : bool)
| VNumber (x : float)
| VString (s : jsstring)
| VArray (elements : list value)
| VObject (properties : list (jsstring * value)).

(** The ways the engine itself faults in the sources: [Object.keys] of
    null or undefined, reading a property of null or undefined, and
    naming a global that is not there. *)
Inductive engineFault : Type :=
| KeysOfNullish
| ReadOfNullish (key : jsstring)
| NotDefined (global : jsstring).

(** What the host must supply: case mapping outside Basic Latin needs the
    Unicode tables, [Number::toString] the shortest round-trip digits, and
    the texts of objects and of the engine's own errors are the engine's. *)
Class Host := {
  toLowerCase : jsstring -> jsstring;
  numberToString : float -> jsstring;
  JSON_stringify : value -> jsstring;
  objectToString : value -> jsstring;
  engineErrorMessage : engineFault -> jsstring
}.

(** Case mapping restricted to Basic Latin: exact on every string whose
    code units have no lowercase mapping outside A-Z. *)
Definition lowerUnit (c : codeunit) : codeunit :=
  if isUpper c then (c + 32)%N else c.

(** A host for examples written in Basic Latin whose tables hold no
    numbers or objects: there its case mapping is the real one, and its
    renderings of numbers and objects are never asked for. *)
#[export] Instance latinHost : Host := {|
  toLowerCase := map lowerUnit;
  numberToString := fun _ => lit "NaN";
  JSON_stringify := fun _ => lit "{}";
  objectToString := fun _ => lit "[object Object]";
  engineErrorMessage := fun _ => lit "Cannot convert undefined or null to object"
|}.

(* ------------------------------------------------------------------ *)
(** *** Regular expressions

    A backtracking matcher after the ECMAScript semantics, for the
    constructs the sources' patterns use.  A pattern is matched against a
    position of the subject: the code units before it (nearest first) and
    those after it. *)

Inductive regex : Type :=
| Empty
| Char (p : codeunit -> bool)          (* one code unit of a class *)
| Seq (a b : regex)
| Alt (a b : regex)                    (* a|b, a tried first *)
| Star (greedy : bool) (a : regex)     (* a* and a*? *)
| Group (n : nat) (a : regex)          (* the n-th capturing group *)
| AssertStart                          (* ^ without the m flag *)
| AssertEnd                            (* $ without the m flag *)
| WordBoundary.                        (* \b *)

Definition Plus (greedy : bool) (a : regex) : regex := Seq a (Star greedy a).
Definition Opt (a : regex) : regex := Alt a Empty.

Record mstate := MState {
  before : jsstring;
  after : jsstring;
  captures : list (nat * jsstring)
}.

Definition cont := mstate -> option mstate.

Definition orElse (x y : option mstate) : option mstate :=
  match x with Some _ => x | None => y end.

Definition headIs (p : codeunit -> bool) (s : jsstring) : bool :=
  match s with [] => false | c :: _ => p c end.

(** Iterations of a quantified atom; an iteration that consumes nothing is
    rejected, so the number of code units left bounds the iterations. *)
Fixpoint starLoop (greedy : bool) (ma : cont -> cont) (k : cont)
  (fuel : nat) (s : mstate) : option mstate :=
  match fuel with
  | O => k s
  | S fuel' =>
      let again :=
        ma (fun s' =>
              if Nat.ltb (length (after s')) (length (after s))
              then starLoop greedy ma k fuel' s'
              else None) s in
      if greedy then orElse again (k s) else orElse (k s) again
  end.

Fixpoint matcher (r : regex) (k : cont) (s : mstate) : option mstate :=
  match r with
  | Empty => k s
  | Char p =>
      match after s with
      | c :: t => if p c then k (MState (c :: before s) t (captures s)) else None
      | [] => None
      end
  | Seq a b => matcher a (matcher b k) s
  | Alt a b => orElse (matcher a k s) (matcher b k s)
  | Star greedy a => starLoop greedy (matcher a) k (length (after s)) s
  | Group n a =>
      matcher a
        (fun s' =>
           let taken := length (before s') - length (before s) in
           k (MState (before s') (after s')
                ((n, rev (firstn taken (before s'))) :: captures s')))
        s
  | AssertStart => match before s with [] => k s | _ => None end
  | AssertEnd => match after s with [] => k s | _ => None end
  | WordBoundary =>
      if xorb (headIs isWordChar (before s)) (headIs isWordChar (after s))
      then k s else None
  end.

(** A match of [r] that starts exactly at the position. *)
Definition matchAt (r : regex) (pre suf : jsstring) : option mstate :=
  matcher r Some (MState pre suf []).

(** [RegExpBuiltinExec] from a position on: the leftmost start that matches. *)
Fixpoint execFrom (r : regex) (pre suf : jsstring) : option mstate :=
  match matchAt r pre suf with
  | Some m => Some m
  | None =>
      match suf with
      | [] => None
      | c :: t => execFrom r (c :: pre) t
      end
  end.

(** [str.match(r)] for a pattern without the g flag. *)
Definition exec (r : regex) (s : jsstring) : option mstate := execFrom r [] s.

(** [m[n]] of a match result; [None] is [undefined]. *)
Fixpoint lookupGroup (n : nat) (cs : list (nat * jsstring)) : option jsstring :=
  match cs with
  | [] => None
  | (i, v) :: rest => if Nat.eqb i n then Some v else lookupGroup n rest
  end.

Definition group (n : nat) (m : option mstate) : option jsstring :=
  match m with
  | Some st => lookupGroup n (captures st)
  | None => None
  end.

(** [m?.[n]] used as a condition: defined and not empty. *)
Definition groupTruthy (n : nat) (m : option mstate) : bool :=
  match group n m with Some v => truthy v | None => false end.

Definition groupOr (n : nat) (m : option mstate) : jsstring :=
  match group n m with Some v => v | None => [] end.

(** [r.test(s)]. *)
Definition test (r : regex) (s : jsstring) : bool :=
  match exec r s with Some _ => true | None => false end.

(** [s.replace(r, rep)] for a pattern with the g flag and a replacement
    without dollar patterns.  After an empty match the scan resumes one
    code unit further. *)
Fixpoint replaceLoop (r : regex) (rep : jsstring) (fuel : nat)
  (pre suf : jsstring) : jsstring :=
  match fuel with
  | O => suf
  | S fuel' =>
      let step :=
        match suf with
        | [] => []
        | c :: t => c :: replaceLoop r rep fuel' (c :: pre) t
        end in
      match matchAt r pre suf with
      | Some m =>
          if Nat.ltb (length (after m)) (length suf)
          then rep ++ replaceLoop r rep fuel' (before m) (after m)
          else rep ++ step
      | None => step
      end
  end.

Definition replaceAll (r : regex) (rep : jsstring) (s : jsstring) : jsstring :=
  replaceLoop r rep (S (length s)) [] s.

(** [s.split(r)] for a pattern without groups: [piece] holds, reversed,
    the code units since the end of the last separator. *)
Fixpoint splitLoop (r : regex) (fuel : nat) (pre piece suf : jsstring)
  : list jsstring :=
  match fuel with
  | O => [rev piece ++ suf]
  | S fuel' =>
      match suf with
      | [] => [rev piece]
      | c :: t =>
          let skip := splitLoop r fuel' (c :: pre) (c :: piece) t in
          match matchAt r pre suf with
          | Some m =>
              if Nat.ltb (length (after m)) (length suf)
              then rev piece :: splitLoop r fuel' (before m) [] (after m)
              else match piece with
                   | [] => skip
                   | _ => rev piece :: splitLoop r fuel' (c :: pre) [c] t
                   end
          | None => skip
          end
      end
  end.

Definition split (r : regex) (s : jsstring) : list jsstring :=
  match s with
  | [] => match matchAt r [] [] with Some _ => [] | None => [[]] end
  | _ => splitLoop r (length s) [] [] s
  end.

(** Classes and literals. *)
Definition only (c : codeunit) : codeunit -> bool := N.eqb c.
Definition otherThan (c : codeunit) : codeunit -> bool := fun d => negb (N.eqb c d).
Arguments only c%_N _.
Arguments otherThan c%_N _.

(** A Basic Latin letter under the i flag: without the u flag no code unit
    outside Basic Latin canonicalizes to one inside. *)
Definition isNoCase (c : codeunit) : codeunit -> bool :=
  fun d => N.eqb (lowerUnit c) (lowerUnit d).

(** The dot: anything but a line terminator. *)
Definition dot : codeunit -> bool := fun c => negb (isLineTerminator c).

Definition Lit (s : String.string) : regex :=
  fold_right (fun c r => Seq (Char (only c)) r) Empty (lit s).

Definition LitNoCase (s : String.string) : regex :=
  fold_right (fun c r => Seq (Char (isNoCase c)) r) Empty (lit s).

Fixpoint AltOf (rs : list regex) : regex :=
  match rs with
  | [] => Empty
  | [r] => r
  | r :: rest => Alt r (AltOf rest)
  end.

End JS.

(* ================================================================== *)
(** ** Arrays *)
(* ================================================================== *)

Module JSArray.

(** [arr.findIndex(p)]: the first index whose element passes, or -1. *)
Fixpoint findIndexFrom {A} (p : A -> bool) (l : list A) (i : Z) : Z :=
  match l with
  | [] => (-1)%Z
  | x :: t => if p x then i else findIndexFrom p t (i + 1)%Z
  end.

Definition findIndex {A} (p : A -> bool) (l : list A) : Z := findIndexFrom p l 0%Z.

(** [arr.sort(cmp)].  ECMAScript requires the sort to be stable, so for a
    consistent comparator its result is the one of a stable insertion
    sort; [neg a b] stands for [cmp(a, b) < 0]. *)
Fixpoint insertSorted {A} (neg : A -> A -> bool) (x : A) (l : list A) : list A :=
  match l with
  | [] => [x]
  | y :: ys => if neg y x then y :: insertSorted neg x ys else x :: l
  end.

Definition sort {A} (neg : A -> A -> bool) (l : list A) : list A :=
  fold_right (insertSorted neg) [] l.

(** [Math.min] of two numbers. *)
Definition mathMin (a b : float) : float :=
  if PrimFloat.is_nan a then a
  else if PrimFloat.is_nan b then b
  else if PrimFloat.ltb b a then b else a.

End JSArray.

(* ================================================================== *)
(** ** src/utils/FieldMatcher.ts *)
(* ================================================================== *)

Module FieldMatcher.
Import JS JSArray.

Record FieldMatch := {
  sourceField : jsstring;
  targetField : jsstring;
  confidence : float;
  score : float
}.

Record TargetField := {
  name : jsstring;
  label : jsstring
}.

(** One entry of what [fuse.search] returns. *)
Record FuseResult := {
  item : TargetField;
  fuseScore : option float
}.

(** Fuse.js, built over the target fields with the options of the
    constructor (keys name and label, threshold 0.4, includeScore,
    ignoreLocation): what a search for a pattern returns, best first. *)
Class Fuse := {
  search : list TargetField -> jsstring -> list FuseResult
}.

(** [bestMatch.score || 0]. *)
Definition scoreOrZero (s : option float) : float :=
  match s with
  | None => 0%float
  | Some x => if (PrimFloat.is_nan x || PrimFloat.eqb x 0)%bool then 0%float else x
  end.

Section Matcher.
Context {fuse : Fuse}.

Fixpoint collectMatches (targetFields : list TargetField)
  (sourceFields : list jsstring) : list FieldMatch :=
  match sourceFields with
  | [] => []
  | sourceField :: rest =>
      match search targetFields sourceField with
      | bestMatch :: _ =>
          {| sourceField := sourceField;
             targetField := name (item bestMatch);
             confidence := (1 - scoreOrZero (fuseScore bestMatch))%float;
             score := scoreOrZero (fuseScore bestMatch) |}
          :: collectMatches targetFields rest
      | [] => collectMatches targetFields rest
      end
  end.

Definition matchFields (targetFields : list TargetField)
  (sourceFields : list jsstring) : list FieldMatch :=
  sort (fun a b => PrimFloat.ltb (confidence b - confidence a)%float 0%float)
       (collectMatches targetFields sourceFields).

End Matcher.

(** [/[_\s-]+/g] *)
Definition separators : regex :=
  Plus true (Char (fun c => (N.eqb c 95 || isWhiteSpace c || N.eqb c 45)%bool)).

(** [/[^a-z0-9_]/g] *)
Definition specialChar : regex :=
  Char (fun c => negb (isLower c || isDigit c || N.eqb c 95)%bool).

Definition normalizeFieldName {host : Host} (fieldName : jsstring) : jsstring :=
  trim (replaceAll specialChar []
          (replaceAll separators (lit "_") (toLowerCase fieldName))).

(** The other methods of the class, over the target fields it was built
    with. *)
Section Methods.
Context {fuse : Fuse}.
Variable targetFields : list TargetField.

(** An entry of a search result as the match of [sourceField]. *)
Definition toMatch (sourceField : jsstring) (result : FuseResult) : FieldMatch :=
  {| sourceField := sourceField;
     targetField := name (item result);
     confidence := (1 - scoreOrZero (fuseScore result))%float;
     score := scoreOrZero (fuseScore result) |}.

(** [null] is [None]. *)
Definition findBestMatch (sourceField : jsstring) : option FieldMatch :=
  match search targetFields sourceField with
  | [] => None
  | bestMatch :: _ => Some (toMatch sourceField bestMatch)
  end.

(** [results.slice(0, limit)] for an integer [limit]; a negative one
    counts from the end of the array. *)
Definition sliceTo {A} (limit : Z) (results : list A) : list A :=
  if (limit <? 0)%Z
  then firstn (Z.to_nat (Z.of_nat (length results) + limit)) results
  else firstn (Z.to_nat limit) results.

(** [limit] is an integer here; without it the default 5 applies. *)
Definition findAllMatches (sourceField : jsstring) (limit : option Z)
  : list FieldMatch :=
  let results :=
    sliceTo (match limit with Some n => n | None => 5%Z end)
            (search targetFields sourceField) in
  map (toMatch sourceField) results.

(** [Map<string, string>]: its entries in insertion order, no key twice. *)
Definition StringMap := list (jsstring * jsstring).

(** [mapping.set(key, value)]: a key that is there keeps its place. *)
Fixpoint mapSet (key value : jsstring) (mapping : StringMap) : StringMap :=
  match mapping with
  | [] => [(key, value)]
  | (k, v) :: later =>
      if eqb k key then (k, value) :: later
      else (k, v) :: mapSet key value later
  end.

Definition mapHas (key : jsstring) (mapping : StringMap) : bool :=
  existsb (fun entry => eqb (fst entry) key) mapping.

Definition mapGet (key : jsstring) (mapping : StringMap) : option jsstring :=
  match find (fun entry => eqb (fst entry) key) mapping with
  | Some entry => Some (snd entry)
  | None => None
  end.

Definition mapValues (mapping : StringMap) : list jsstring := map snd mapping.

(** [minConfidence] defaults to 0.6. *)
Definition autoMap (sourceFields : list jsstring) (minConfidence : option float)
  : StringMap :=
  let minimum := match minConfidence with Some x => x | None => 0.6%float end in
  fold_left
    (fun mapping m =>
       if PrimFloat.leb minimum (confidence m)
       then mapSet (sourceField m) (targetField m) mapping
       else mapping)
    (matchFields targetFields sourceFields) [].

Definition validateMapping (sourceField target : jsstring) : float :=
  match findBestMatch sourceField with
  | None => 0%float
  | Some m => if eqb (targetField m) target then confidence m else 0%float
  end.

Definition getUnmappedFields (sourceFields : list jsstring) (mapping : StringMap)
  : list jsstring :=
  filter (fun field => negb (mapHas field mapping)) sourceFields.

(** [usedTargets] is the set of the values of the mapping. *)
Definition getUnusedTargetFields (mapping : StringMap) : list TargetField :=
  let usedTargets := mapValues mapping in
  filter (fun field => negb (existsb (eqb (name field)) usedTargets)) targetFields.

End Methods.

End FieldMatcher.

(* ================================================================== *)
(** ** src/types/index.ts: the table every extractor produces *)
(* ================================================================== *)

Module Types.
Import JS.

(** [string | number | boolean | null] *)
Inductive cell : Type :=
| CString (s : jsstring)
| CNumber (x : float)
| CBoolean (b : bool)
| CNull.

Inductive SourceType : Type := csv | excel | json | txt | pdf | image_ocr.

Record ParsedTableData := {
  headers : list jsstring;
  rows : list (list cell);
  rowCount : nat;
  columnCount : nat;
  sourceType : option SourceType;
  ocrText : option jsstring
}.

(** [String(value ?? '')] *)
Definition cellText {host : Host} (value : cell) : jsstring :=
  match value with
  | CString s => s
  | CNumber x => numberToString x
  | CBoolean true => lit "true"
  | CBoolean false => lit "false"
  | CNull => []
  end.

End Types.

(* ================================================================== *)
(** ** src/utils/MetadataExtractor.ts *)
(* ================================================================== *)

Module MetadataExtractor.
Import JS JSArray Types.

Record MetadataExtractionResult := {
  placeName : jsstring;
  location : jsstring;
  placeConfidence : float;
  locationConfidence : float
}.

Definition PLACE_ALIASES : list jsstring :=
  map lit ["place"; "place_name"; "name"; "landmark"; "monument";
           "attraction"; "site"; "title"]%string.

Definition LOCATION_ALIASES : list jsstring :=
  map lit ["location"; "city"; "state"; "country"; "region"; "address";
           "loc"; "area"]%string.

Definition seqs (rs : list regex) : regex := fold_right Seq Empty rs.

Definition ws : regex := Char isWhiteSpace.

(** The capture [(.+)] as group [n]. *)
Definition rest (n : nat) : regex := Group n (Plus true (Char dot)).

(** [/^(?:place\s*name|place|landmark|monument|site|name)\s*[:\-]\s*(.+)$/i] *)
Definition LINE_PREFIX_place : regex :=
  seqs [AssertStart;
        AltOf [seqs [LitNoCase "place"; Star true ws; LitNoCase "name"];
               LitNoCase "place"; LitNoCase "landmark"; LitNoCase "monument";
               LitNoCase "site"; LitNoCase "name"];
        Star true ws;
        Char (fun c => (N.eqb c 58 || N.eqb c 45)%bool);
        Star true ws; rest 1; AssertEnd].

(** [/^(?:location|city|state|country|region|address)\s*[:\-]\s*(.+)$/i] *)
Definition LINE_PREFIX_location : regex :=
  seqs [AssertStart;
        AltOf [LitNoCase "location"; LitNoCase "city"; LitNoCase "state";
               LitNoCase "country"; LitNoCase "region"; LitNoCase "address"];
        Star true ws;
        Char (fun c => (N.eqb c 58 || N.eqb c 45)%bool);
        Star true ws; rest 1; AssertEnd].

(** The pattern, written here with spaces between its parts and ARROW for
    U+2192:  ^ (?: \d+ \. \s* )? (.+?) \s* (?: -> | ARROW ) \s* (.+) $  with
    the i flag. *)
Definition PLACE_LOCATION_INLINE_PATTERN : regex :=
  seqs [AssertStart;
        Opt (seqs [Plus true (Char isDigit); Char (only 46); Star true ws]);
        Group 1 (Plus false (Char dot));
        Star true ws;
        Alt (Lit "->") (Char (only 8594));
        Star true ws; rest 2; AssertEnd].

Definition PLACE_PRIORITY : list jsstring :=
  map lit ["place_name"; "place"; "landmark"; "monument"; "site"; "name";
           "title"; "attraction"]%string.

Definition LOCATION_PRIORITY : list jsstring :=
  map lit ["city"; "location"; "loc"; "region"; "state"; "address";
           "country"; "area"]%string.

Definition emptyResult : MetadataExtractionResult :=
  {| placeName := []; location := [];
     placeConfidence := 0; locationConfidence := 0 |}.

(** [/\s+/g] *)
Definition whitespaceRun : regex := Plus true ws.

(** The class [[:\-\s]]. *)
Definition isEdgeChar (c : codeunit) : bool :=
  (N.eqb c 58 || N.eqb c 45 || isWhiteSpace c)%bool.

(** [/^[:\-\s]+|[:\-\s]+$/g] *)
Definition edgeRuns : regex :=
  Alt (Seq AssertStart (Plus true (Char isEdgeChar)))
      (Seq (Plus true (Char isEdgeChar)) AssertEnd).

Definition cleanValue (value : jsstring) : jsstring :=
  trim (replaceAll edgeRuns [] (replaceAll whitespaceRun (lit " ") value)).

(** The class [[^\w\s,./()'-]]. *)
Definition isTrailingSymbol (c : codeunit) : bool :=
  negb (isWordChar c || isWhiteSpace c || N.eqb c 44 || N.eqb c 46
        || N.eqb c 47 || N.eqb c 40 || N.eqb c 41 || N.eqb c 39
        || N.eqb c 45)%bool.

(** [/\s*[^\w\s,./()'-]+$/g] *)
Definition trailingSymbols : regex :=
  seqs [Star true ws; Plus true (Char isTrailingSymbol); AssertEnd].

(** [/\b[a-z]{2}\b/i] *)
Definition twoLetterToken : regex :=
  let letter := Char (fun c => (isLower c || isUpper c)%bool) in
  seqs [WordBoundary; letter; letter; WordBoundary].

Section WithHost.
Context {host : Host}.

Definition nonEmptyValueCount (row : list cell) : nat :=
  length (filter (fun value => negb (eqb (trim (cellText value)) [])) row).

(** [undefined], here [None], is what an empty [rows] would give; the only
    caller returns before that. *)
Definition getBestDataRow (rows : list (list cell)) : option (list cell) :=
  match rows with
  | [row] => Some row
  | _ =>
      hd_error
        (sort (fun left right =>
                 (Z.of_nat (nonEmptyValueCount right)
                  - Z.of_nat (nonEmptyValueCount left) <? 0)%Z)
              rows)
  end.

Definition readValueFromRow (row : list cell) (index : Z) : jsstring :=
  if ((index <? 0) || (index >=? Z.of_nat (length row)))%Z%bool then []
  else cleanValue (cellText (nth (Z.to_nat index) row CNull)).

Definition isLikelyPlaceName (line : jsstring) : bool :=
  if (negb (truthy line) || (length line <? 3) || (120 <? length line))%bool
  then false
  else
    let lower := toLowerCase line in
    if (includes (lit "location") lower || includes (lit "address") lower
        || includes (lit "city") lower)%bool
    then false
    else
      let digitRatio :=
        (ofNat (length (filter isDigit line)) / ofNat (length line))%float in
      PrimFloat.ltb digitRatio 0.2%float.

Definition isLikelyLocation (line : jsstring) : bool :=
  let lower := toLowerCase line in
  (includes (lit ",") lower || includes (lit "city") lower
   || includes (lit "state") lower || includes (lit "country") lower
   || includes (lit "region") lower || test twoLetterToken line)%bool.

Record HeaderMatch := { index : Z; confidence : float }.

(** The loop over [priorities], from [priorityIndex] on. *)
Fixpoint findPriorityMatchFrom (normalizedHeaders priorities : list jsstring)
  (priorityIndex : nat) : HeaderMatch :=
  match priorities with
  | [] => {| index := -1; confidence := 0 |}
  | priority :: later =>
      let exact := findIndex (fun h => eqb h priority) normalizedHeaders in
      if (exact =? -1)%Z then
        let partial := findIndex (includes priority) normalizedHeaders in
        if (partial =? -1)%Z then
          findPriorityMatchFrom normalizedHeaders later (S priorityIndex)
        else
          {| index := partial;
             confidence := (0.88 - mathMin (ofNat priorityIndex * 0.01) 0.1)%float |}
      else
        {| index := exact;
           confidence := (0.96 - mathMin (ofNat priorityIndex * 0.01) 0.1)%float |}
  end.

Definition findPriorityMatch (normalizedHeaders priorities : list jsstring)
  : HeaderMatch :=
  findPriorityMatchFrom normalizedHeaders priorities 0.

Inductive Target := placeNameField | locationField.

Definition targetName (t : Target) : jsstring :=
  match t with
  | placeNameField => lit "placeName"
  | locationField => lit "location"
  end.

Context {fuse : FieldMatcher.Fuse}.

Definition findHeaderMatch (headers aliases : list jsstring)
  (targetField : Target) : HeaderMatch :=
  let normalizedHeaders := map FieldMatcher.normalizeFieldName headers in
  let priorityPatterns :=
    match targetField with
    | locationField => LOCATION_PRIORITY
    | placeNameField => PLACE_PRIORITY
    end in
  let preferredMatch := findPriorityMatch normalizedHeaders priorityPatterns in
  if negb (index preferredMatch =? -1)%Z then preferredMatch
  else
    let exact :=
      findIndex (fun h => existsb (fun alias => eqb h alias) aliases)
                normalizedHeaders in
    if negb (exact =? -1)%Z then {| index := exact; confidence := 0.95 |}
    else
      let partial :=
        findIndex (fun h => existsb (fun alias => includes alias h) aliases)
                  normalizedHeaders in
      if negb (partial =? -1)%Z then {| index := partial; confidence := 0.82 |}
      else
        let matches :=
          FieldMatcher.matchFields
            [ {| FieldMatcher.name := lit "placeName";
                 FieldMatcher.label := lit "Place Name" |};
              {| FieldMatcher.name := lit "location";
                 FieldMatcher.label := lit "Location" |} ]
            headers in
        match find (fun m => eqb (FieldMatcher.targetField m)
                                 (targetName targetField)) matches with
        | None => {| index := -1; confidence := 0 |}
        | Some bestTargetMatch =>
            if PrimFloat.ltb (FieldMatcher.confidence bestTargetMatch) 0.55
            then {| index := -1; confidence := 0 |}
            else
              {| index :=
                   findIndex
                     (fun header =>
                        eqb header (FieldMatcher.sourceField bestTargetMatch))
                     headers;
                 confidence := FieldMatcher.confidence bestTargetMatch |}
        end.

Definition extractFromTableData (data : ParsedTableData)
  : MetadataExtractionResult :=
  if ((length (headers data) =? 0) || (length (rows data) =? 0))%nat%bool
  then emptyResult
  else
    match getBestDataRow (rows data) with
    | None => emptyResult   (* not reached: [rows] is not empty here *)
    | Some row =>
        let hs := headers data in
        let placeMatch := findHeaderMatch hs PLACE_ALIASES placeNameField in
        let locationMatch := findHeaderMatch hs LOCATION_ALIASES locationField in
        let placeName := readValueFromRow row (index placeMatch) in
        let location := readValueFromRow row (index locationMatch) in
        {| placeName := placeName;
           location := location;
           placeConfidence :=
             if truthy placeName then confidence placeMatch else 0%float;
           locationConfidence :=
             if truthy location then confidence locationMatch else 0%float |}
    end.

(** The lines of a text: [text.split(/\r?\n/).map(trim).filter(Boolean)]. *)
Definition lineBreak : regex := Seq (Opt (Char (only 13))) (Char (only 10)).

Definition linesOf (text : jsstring) : list jsstring :=
  filter truthy (map trim (split lineBreak text)).

(** How the [for] loop of [extractFromText] is left. *)
Inductive LoopExit : Type :=
| Returned (r : MetadataExtractionResult)   (* the [return] inside the loop *)
| Fell (r : MetadataExtractionResult).      (* [break], or no line left *)

Definition labelled (pattern : regex) (line current : jsstring)
  (currentConfidence : float) : jsstring * float :=
  if negb (truthy current) then
    let m := exec pattern line in
    if groupTruthy 1 m then
      let value := cleanValue (groupOr 1 m) in
      (value, if truthy value then 0.9%float else 0%float)
    else (current, currentConfidence)
  else (current, currentConfidence).

Fixpoint scanLines (lines : list jsstring) (acc : MetadataExtractionResult)
  : LoopExit :=
  match lines with
  | [] => Fell acc
  | line :: later =>
      let inlineMatch := exec PLACE_LOCATION_INLINE_PATTERN line in
      let inlinePlace := cleanValue (groupOr 1 inlineMatch) in
      let inlineLocation :=
        trim (replaceAll trailingSymbols [] (cleanValue (groupOr 2 inlineMatch))) in
      if (groupTruthy 1 inlineMatch && groupTruthy 2 inlineMatch
          && truthy inlinePlace && truthy inlineLocation)%bool
      then Returned {| placeName := inlinePlace; location := inlineLocation;
                       placeConfidence := 0.88; locationConfidence := 0.88 |}
      else
        let (place, placeC) :=
          labelled LINE_PREFIX_place line (placeName acc) (placeConfidence acc) in
        let (loc, locC) :=
          labelled LINE_PREFIX_location line (location acc)
                   (locationConfidence acc) in
        let acc' := {| placeName := place; location := loc;
                       placeConfidence := placeC; locationConfidence := locC |} in
        if (truthy place && truthy loc)%bool then Fell acc'
        else scanLines later acc'
  end.

Definition extractFromText (text : jsstring) : MetadataExtractionResult :=
  let lines := linesOf text in
  match scanLines lines emptyResult with
  | Returned r => r
  | Fell acc =>
      let (place, placeC) :=
        if negb (truthy (placeName acc)) then
          match find isLikelyPlaceName lines with
          | Some likelyPlace =>
              if truthy likelyPlace
              then (cleanValue likelyPlace, 0.55%float)
              else (placeName acc, placeConfidence acc)
          | None => (placeName acc, placeConfidence acc)
          end
        else (placeName acc, placeConfidence acc) in
      let (loc, locC) :=
        if negb (truthy (location acc)) then
          match find isLikelyLocation lines with
          | Some likelyLocation =>
              if truthy likelyLocation
              then (cleanValue likelyLocation, 0.55%float)
              else (location acc, locationConfidence acc)
          | None => (location acc, locationConfidence acc)
          end
        else (location acc, locationConfidence acc) in
      {| placeName := place; location := loc;
         placeConfidence := placeC; locationConfidence := locC |}
  end.

(** [Record<string, unknown>] at the type the source casts its values to. *)
Definition record := list (jsstring * cell).

Definition extractFromObject (r : record) : MetadataExtractionResult :=
  let hs := map fst r in
  let row := map snd r in
  extractFromTableData
    {| headers := hs; rows := [row]; rowCount := 1;
       columnCount := length hs; sourceType := Some json; ocrText := None |}.

(** The shapes of [content: unknown] that the dispatch tells apart, as
    far as the source returns for them.  Two shapes on which it throws a
    TypeError instead are not among them: an array with [null] in front
    (of type object, so handed to [Object.keys]), and a table whose
    headers have a hole (read as undefined by [findIndex], then asked for
    [includes]). *)
Inductive content : Type :=
| Table (data : ParsedTableData)      (* an object with array headers and rows *)
| Text (s : jsstring)                 (* a string *)
| Records (first : record)            (* a non-empty array, first element an object *)
| Object (r : record)                 (* another object *)
| Other.                              (* anything else *)

Definition extractMetadataFromContent (c : content) : MetadataExtractionResult :=
  match c with
  | Table data =>
      let tableResult := extractFromTableData data in
      if (truthy (placeName tableResult) || truthy (location tableResult))%bool
      then tableResult
      else
        match ocrText data with
        | Some (t :: ts) => extractFromText (t :: ts)
        | _ =>
            let flattenedText :=
              join newline
                   (filter truthy
                      (map (fun value => trim (cellText value))
                           (concat (rows data)))) in
            extractFromText flattenedText
        end
  | Text s => extractFromText s
  | Records first => extractFromObject first
  | Object r => extractFromObject r
  | Other => emptyResult
  end.

End WithHost.

End MetadataExtractor.

(* ================================================================== *)
(** ** Files, formats and results shared by the two parsers *)
(* ================================================================== *)

Module Parser.
Import JS Types.

(** A browser [File]: its size is a count of bytes; its bytes are reached
    only through the reading functions of the libraries. *)
Record File := {
  name : jsstring;
  type : jsstring;
  size : N;
  lastModified : Z
}.

(** [FileFormat]; the sources guard every call of [validator] with a test
    that it is there. *)
Record FileFormat := {
  extension : jsstring;
  mimeType : jsstring;
  validator : option (File -> bool)
}.

Record ValidationResult := {
  isValid : bool;
  errors : list jsstring
}.

Record FileMetadata := {
  metaName : jsstring;
  metaSize : N;
  metaType : jsstring;
  metaLastModified : Z
}.

Record FileContent := {
  raw : ParsedTableData;
  metadata : FileMetadata
}.

(** What a [throw] or a rejected promise carries: an [Error] with its
    message, or a value that is not an [Error]. *)
Inductive thrown : Type :=
| JsError (message : jsstring)
| NonError.

Inductive errorDetails : Type :=
| ValidationErrors (errors : list jsstring)
| Caught (e : thrown).

Record ParseError := {
  code : jsstring;
  message : jsstring;
  details : errorDetails
}.

Record ParseResult := {
  success : bool;
  content : option FileContent;
  error : option ParseError
}.

(** [(bytes / (1024 * 1024)).toFixed(2)] for an integer count of bytes:
    the quotient is exact in binary64 (below 2^53), and [toFixed] rounds
    it to the nearest hundredth, the larger one on a tie. *)
Definition megabytesFixed2 (bytes : Z) : jsstring :=
  let hundredths := ((200 * Z.abs bytes + 1048576) / 2097152)%Z in
  let cents := (hundredths mod 100)%Z in
  (if (bytes <? 0)%Z then lit "-" else [])
  ++ decimal (Z.to_N (hundredths / 100))
  ++ lit "."
  ++ decimal (Z.to_N (cents / 10)) ++ decimal (Z.to_N (cents mod 10)).

Definition sizeError (fileSize maxFileSize : Z) : jsstring :=
  lit "File size (" ++ megabytesFixed2 fileSize
  ++ lit "MB) exceeds maximum allowed size of "
  ++ megabytesFixed2 maxFileSize ++ lit "MB".

Definition formatError (supportedFormats : list FileFormat) : jsstring :=
  lit "File format not supported. Supported formats: "
  ++ join (lit ", ") (map extension supportedFormats).

(** The pattern: a dot, then one or more code units that are not a dot,
    captured, then the end of the name. *)
Definition extensionPattern : regex :=
  Seq (Char (only 46))
      (Seq (Group 1 (Plus true (Char (otherThan 46)))) AssertEnd).

(** [config.maxFileSize ?? 10 * 1024 * 1024] *)
Definition maxFileSizeOr (configured : option Z) : Z :=
  match configured with
  | Some n => n
  | None => (10 * 1024 * 1024)%Z
  end.

End Parser.

(* ================================================================== *)
(** ** src/parser/FileParser.ts *)
(* ================================================================== *)

Module FileParser.
Import JS Types Parser.

Record FileParserConfig := {
  supportedFormats : list FileFormat;
  maxFileSize : option Z
}.

Section WithHost.
Context {host : Host}.
Variable config : FileParserConfig.

Definition formatMatches (file : File) (fileExtension : jsstring)
  (format : FileFormat) : bool :=
  let extensionMatches := eqb (toLowerCase (extension format)) fileExtension in
  let mimeTypeMatches := eqb (mimeType format) (type file) in
  ((extensionMatches && mimeTypeMatches)
   || match validator format with
      | Some accepts => accepts file
      | None => false
      end)%bool.

(** [extensionMatch ? extensionMatch[1].toLowerCase() : ''] *)
Definition fileExtensionOf (fileName : jsstring) : jsstring :=
  let extensionMatch := exec extensionPattern fileName in
  match group 1 extensionMatch with
  | Some ext => toLowerCase ext
  | None => []
  end.

Definition validate (file : File) : ValidationResult :=
  let limit := maxFileSizeOr (maxFileSize config) in
  let errors1 :=
    if (Z.of_N (size file) >? limit)%Z
    then [sizeError (Z.of_N (size file)) limit] else [] in
  let errors2 :=
    if (size file =? 0)%N then errors1 ++ [lit "File is empty"] else errors1 in
  let fileExtension := fileExtensionOf (name file) in
  let formatMatch :=
    find (formatMatches file fileExtension) (supportedFormats config) in
  let errors3 :=
    match formatMatch with
    | Some _ => errors2
    | None => errors2 ++ [formatError (supportedFormats config)]
    end in
  {| isValid := (length errors3 =? 0)%nat; errors := errors3 |}.

End WithHost.

(** What [reader.result] holds after a load: a string or an
    [ArrayBuffer]. *)
Inductive RawContent : Type :=
| RawText (text : jsstring)
| RawBuffer (bytes : list N).

Record FileContent := {
  raw : RawContent;
  metadata : FileMetadata
}.

Record ParseResult := {
  success : bool;
  content : option FileContent;
  error : option ParseError
}.

(** How a read by a [FileReader] ends, by the handler that is called:
    [onload] with [reader.result] ([None] is [null]), [onerror] with
    [reader.error?.message] ([None] is [undefined]), or [onabort]. *)
Inductive ReadEnd : Type :=
| OnLoad (result : option RawContent)
| OnError (message : option jsstring)
| OnAbort.

Class FileReader := {
  readAsText : File -> ReadEnd;
  readAsArrayBuffer : File -> ReadEnd
}.

(** A settled promise. *)
Inductive settled (A : Type) : Type :=
| Fulfilled (a : A)
| Failed (e : thrown).
Arguments Fulfilled {A} a.
Arguments Failed {A} e.

Section Reading.
Context {host : Host} {reader : FileReader}.
Variable config : FileParserConfig.

Definition isTextFormat (file : File) : bool :=
  let textMimeTypes :=
    ["text/"; "application/json"; "application/xml";
     "application/javascript"; "application/csv"]%string in
  existsb (fun type0 => startsWith (lit type0) (type file)) textMimeTypes.

Definition readFileContent (file : File) : settled RawContent :=
  match (if isTextFormat file then readAsText file else readAsArrayBuffer file) with
  | OnLoad None => Failed (JsError (lit "FileReader returned null result"))
  | OnLoad (Some result) => Fulfilled result
  | OnError message =>
      Failed (JsError (lit "Failed to read file: "
                       ++ match message with
                          | Some (c :: t) => c :: t
                          | _ => lit "Unknown error"
                          end))
  | OnAbort => Failed (JsError (lit "File reading was aborted"))
  end.

Definition extractContent (file : File) : settled FileContent :=
  let metadata :=
    {| metaName := name file; metaSize := size file;
       metaType := type file; metaLastModified := lastModified file |} in
  match readFileContent file with
  | Failed e => Failed e
  | Fulfilled raw => Fulfilled {| raw := raw; metadata := metadata |}
  end.

(** The [try] block, whose [return]s fulfil, and the [catch] block for
    what the awaited [extractContent] rejects with. *)
Definition parse (file : File) : settled ParseResult :=
  let validationResult := validate config file in
  if negb (isValid validationResult)
  then
    Fulfilled
      {| success := false; content := None;
         error := Some {| code := lit "VALIDATION_ERROR";
                          message := join (lit "; ") (errors validationResult);
                          details := ValidationErrors (errors validationResult) |} |}
  else
    match extractContent file with
    | Fulfilled content =>
        Fulfilled {| success := true; content := Some content; error := None |}
    | Failed error =>
        Fulfilled
          {| success := false; content := None;
             error := Some {| code := lit "PARSE_ERROR";
                              message := match error with
                                         | JsError message => message
                                         | NonError => lit "Unknown parsing error"
                                         end;
                              details := Caught error |} |}
    end.

End Reading.

End FileParser.

(* ================================================================== *)
(** ** src/parser/EnhancedFileParser.ts *)
(* ================================================================== *)

Module EnhancedFileParser.
Import JS Types Parser.

Record EnhancedFileParserConfig := {
  supportedFormats : list FileFormat;
  maxFileSize : option Z
}.

(** *** Promises and the observable world

    An awaited promise either resolves or rejects; a [throw] is a
    rejection of the enclosing async function.  Promises that never settle
    are outside the model. *)

Inductive outcome (A : Type) : Type :=
| Resolved (a : A)
| Rejected (e : thrown).
Arguments Resolved {A} a.
Arguments Rejected {A} e.

(** What a test can spy on. *)
Inductive Event : Type :=
| CreateOcrWorkerCalled
| ScriptAppended
| WorkerRecognize
| WorkerTerminate
| PdfCleanup
| PdfDestroy.

(** The events so far, newest first, the static [tesseractLoaderPromise]
    and whether [window.Tesseract.createWorker] is there. *)
Record World := {
  events : list Event;
  windowTesseract : bool;
  tesseractLoaderPromise : option (outcome unit)
}.

Definition M (A : Type) : Type := World -> outcome A * World.

(** How often [createOcrWorker] has been called. *)
Definition isCreateOcrWorkerCalled (e : Event) : bool :=
  match e with CreateOcrWorkerCalled => true | _ => false end.

Definition ocrWorkerCalls (w : World) : nat :=
  length (filter isCreateOcrWorkerCalled (events w)).

Definition ret {A} (a : A) : M A := fun w => (Resolved a, w).

Definition throw {A} (e : thrown) : M A := fun w => (Rejected e, w).

Definition bind {A B} (m : M A) (k : A -> M B) : M B :=
  fun w =>
    match m w with
    | (Resolved a, w') => k a w'
    | (Rejected e, w') => (Rejected e, w')
    end.

(** [await] of what a library returns. *)
Definition await {A} (o : outcome A) : M A := fun w => (o, w).

Definition emit (e : Event) : M unit :=
  fun w => (Resolved tt,
            {| events := e :: events w;
               windowTesseract := windowTesseract w;
               tesseractLoaderPromise := tesseractLoaderPromise w |}).

(** [try { body } finally { cleanup }]: a cleanup that throws wins. *)
Definition tryFinally {A} (body : M A) (cleanup : M unit) : M A :=
  fun w =>
    match body w with
    | (r, w') =>
        match cleanup w' with
        | (Resolved _, w'') => (r, w'')
        | (Rejected e, w'') => (Rejected e, w'')
        end
    end.

(** [try { body } catch (error) { handler }] *)
Definition tryCatch {A} (body : M A) (handler : thrown -> M A) : M A :=
  fun w =>
    match body w with
    | (Resolved a, w') => (Resolved a, w')
    | (Rejected e, w') => handler e w'
    end.

Declare Scope parser_scope.
Delimit Scope parser_scope with parser.
Notation "x <- m ;; k" := (bind m (fun x => k))
  (at level 61, m at next level, right associativity) : parser_scope.
Notation "m ;;; k" := (bind m (fun _ => k))
  (at level 61, right associativity) : parser_scope.
Local Open Scope parser_scope.

(** *** The libraries *)

Record PapaResults := {
  fields : option (list jsstring);                 (* results.meta.fields *)
  data : list (list (jsstring * value))            (* results.data *)
}.

(** Which callback Papa Parse calls. *)
Inductive PapaCallback : Type :=
| Complete (results : PapaResults)
| Error (message : jsstring).

(** An item of a page's text content: its [str] when that is a string. *)
Definition PdfItem := option jsstring.

Record PdfPage := {
  getTextContent : outcome (option (list PdfItem))  (* [None]: no items *)
}.

Record PdfDocument := {
  numPages : nat;
  getPage : nat -> outcome PdfPage;
  cleanup : outcome unit;
  destroy : outcome unit
}.

Record OcrWorker := {
  recognize : File -> outcome (option jsstring);    (* data?.text *)
  terminate : outcome unit
}.

(** How the script element of Tesseract.js ends. *)
Inductive ScriptLoad : Type :=
| Loaded (createWorkerAvailable : bool)
| LoadFailed.

Class Libraries := {
  hasWindow : bool;                 (* typeof window !== 'undefined' *)
  hasDocument : bool;               (* typeof document !== 'undefined' *)
  readerReadAsText : File -> outcome jsstring;
  fileArrayBuffer : File -> outcome (list N);
  JSON_parse : jsstring -> outcome value;
  papaParse : File -> outcome PapaCallback;
  (** [XLSX.read], the first sheet, [sheet_to_json] with header 1.  A hole
      of a data row is [VUndefined]: the source leaves the hole, and what
      reads it later gets undefined and treats it as it treats null.  The
      first row, the headers, is taken to have no hole: there the source
      would leave a hole among the headers, which the table here cannot
      hold, and the metadata extractor would throw on it. *)
  xlsxFirstSheet : list N -> outcome (list (list value));
  pdfGetDocument : list N -> outcome PdfDocument;
  tesseractScript : ScriptLoad;
  tesseractCreateWorker : outcome OcrWorker
}.

Section WithLibraries.
Context {host : Host} {libs : Libraries}.
Variable config : EnhancedFileParserConfig.

Definition getFileExtension (filename : jsstring) : jsstring :=
  groupOr 1 (exec extensionPattern filename).

Definition formatMatches (file : File) (ext : jsstring) (format : FileFormat)
  : bool :=
  (eqb (toLowerCase (extension format)) (toLowerCase ext)
   && (eqb (mimeType format) (type file)
       || match validator format with
          | Some accepts => accepts file
          | None => false
          end))%bool.

Definition validate (file : File) : ValidationResult :=
  let limit := maxFileSizeOr (maxFileSize config) in
  let errors1 :=
    if (Z.of_N (size file) >? limit)%Z
    then [sizeError (Z.of_N (size file)) limit] else [] in
  let errors2 :=
    if (size file =? 0)%N then errors1 ++ [lit "File is empty"] else errors1 in
  let ext := getFileExtension (name file) in
  let formatMatch := find (formatMatches file ext) (supportedFormats config) in
  let errors3 :=
    match formatMatch with
    | Some _ => errors2
    | None => errors2 ++ [formatError (supportedFormats config)]
    end in
  {| isValid := (length errors3 =? 0)%nat; errors := errors3 |}.

Definition toCellValue (v : value) : cell :=
  match v with
  | VNull | VUndefined => CNull
  | VString s => CString s
  | VNumber x => CNumber x
  | VBoolean b => CBoolean b
  | _ => CString (JSON_stringify v)
  end.

(** [String(v)] *)
Definition valueToString (v : value) : jsstring :=
  match v with
  | VUndefined => lit "undefined"
  | VNull => lit "null"
  | VBoolean true => lit "true"
  | VBoolean false => lit "false"
  | VNumber x => numberToString x
  | VString s => s
  | _ => objectToString v
  end.

Fixpoint lookup (key : jsstring) (properties : list (jsstring * value)) : value :=
  match properties with
  | [] => VUndefined
  | (k, v) :: later => if eqb k key then v else lookup key later
  end.

Definition indices (n : nat) : list jsstring :=
  map (fun i => decimal (N.of_nat i)) (seq 0 n).

Fixpoint lookupIndex (key : jsstring) (i : nat) (elements : list value) : value :=
  match elements with
  | [] => VUndefined
  | v :: later =>
      if eqb (decimal (N.of_nat i)) key then v else lookupIndex key (S i) later
  end.

(** [Object.keys(v)] *)
Definition keys (v : value) : outcome (list jsstring) :=
  match v with
  | VUndefined | VNull => Rejected (JsError (engineErrorMessage KeysOfNullish))
  | VObject properties => Resolved (map fst properties)
  | VArray elements => Resolved (indices (length elements))
  | VString s => Resolved (indices (length s))
  | _ => Resolved []
  end.

(** [v[key]] *)
Definition getProperty (v : value) (key : jsstring) : outcome value :=
  match v with
  | VUndefined | VNull => Rejected (JsError (engineErrorMessage (ReadOfNullish key)))
  | VObject properties => Resolved (lookup key properties)
  | VArray elements =>
      if eqb key (lit "length")
      then Resolved (VNumber (ofNat (length elements)))
      else Resolved (lookupIndex key 0 elements)
  | VString s =>
      if eqb key (lit "length")
      then Resolved (VNumber (ofNat (length s)))
      else Resolved (lookupIndex key 0 (map (fun c => VString [c]) s))
  | _ => Resolved VUndefined
  end.

(** [typeof v === 'object'] *)
Definition isObjectType (v : value) : bool :=
  match v with
  | VNull | VArray _ | VObject _ => true
  | _ => false
  end.

(** [xs.map(f)] for an [f] that may throw. *)
Fixpoint mapM {A B} (f : A -> outcome B) (xs : list A) : outcome (list B) :=
  match xs with
  | [] => Resolved []
  | x :: later =>
      match f x with
      | Rejected e => Rejected e
      | Resolved y =>
          match mapM f later with
          | Rejected e => Rejected e
          | Resolved ys => Resolved (y :: ys)
          end
      end
  end.

Definition createTextData (text : jsstring) (source : SourceType)
  : ParsedTableData :=
  let lines := filter truthy (map trim (split MetadataExtractor.lineBreak text)) in
  {| headers := [lit "Content"];
     rows := map (fun line => [CString line]) lines;
     rowCount := length lines;
     columnCount := 1;
     sourceType := Some source;
     ocrText := match source with image_ocr => Some text | _ => None end |}.

Definition parseCSV (file : File) : M ParsedTableData :=
  callback <- await (papaParse file) ;;
  match callback with
  | Complete results =>
      let headers := match fields results with Some fs => fs | None => [] end in
      let rows :=
        map (fun row => map (fun header => toCellValue (lookup header row)) headers)
            (data results) in
      ret {| headers := headers; rows := rows; rowCount := length rows;
             columnCount := length headers; sourceType := Some csv;
             ocrText := None |}
  | Error message => throw (JsError (lit "CSV parsing failed: " ++ message))
  end.

Definition parseExcel (file : File) : M ParsedTableData :=
  arrayBuffer <- await (fileArrayBuffer file) ;;
  jsonData <- await (xlsxFirstSheet arrayBuffer) ;;
  match jsonData with
  | [] => throw (JsError (lit "Excel file is empty"))
  | first :: others =>
      let headers := map valueToString first in
      let rows := map (fun row => map toCellValue row) others in
      ret {| headers := headers; rows := rows; rowCount := length rows;
             columnCount := length headers; sourceType := Some excel;
             ocrText := None |}
  end.

(** The text of a page from its items: their strings joined by a space,
    runs of whitespace collapsed, trimmed. *)
Definition nativeTextOf (textItems : list PdfItem) : jsstring :=
  trim (replaceAll MetadataExtractor.whitespaceRun (lit " ")
          (join (lit " ")
             (map (fun item => match item with Some str => str | None => [] end)
                  textItems))).

Definition extractNativePdfText (page : PdfPage) : M jsstring :=
  textContent <- await (getTextContent page) ;;
  let textItems := match textContent with Some items => items | None => [] end in
  ret (nativeTextOf textItems).

(** The [for] loop over the pages, [remaining] pages from [pageNumber] on. *)
Fixpoint readPages (pdfDocument : PdfDocument) (remaining pageNumber : nat)
  (pageTexts : list jsstring) : M (list jsstring) :=
  match remaining with
  | O => ret pageTexts
  | S remaining' =>
      page <- await (getPage pdfDocument pageNumber) ;;
      nativeText <- extractNativePdfText page ;;
      readPages pdfDocument remaining' (S pageNumber)
        (if truthy nativeText then pageTexts ++ [nativeText] else pageTexts)
  end.

Definition parsePDF (file : File) : M ParsedTableData :=
  if negb hasDocument
  then throw (JsError (lit "PDF parsing requires a browser environment"))
  else
    arrayBuffer <- await (fileArrayBuffer file) ;;
    pdfDocument <- await (pdfGetDocument arrayBuffer) ;;
    pageTexts <-
      tryFinally (readPages pdfDocument (numPages pdfDocument) 1 [])
                 (emit PdfCleanup ;;; await (cleanup pdfDocument) ;;;
                  emit PdfDestroy ;;; await (destroy pdfDocument)) ;;
    let text := trim (join newline pageTexts) in
    if negb (truthy text)
    then throw (JsError (lit "No readable native text found in PDF"))
    else ret (createTextData text pdf).

Definition loadTesseract : M unit :=
  fun w =>
    if windowTesseract w then (Resolved tt, w)
    else
      match tesseractLoaderPromise w with
      | Some promise => (promise, w)
      | None =>
          if negb hasDocument
          then
            (* the executor throws at [document.createElement] *)
            let promise :=
              Rejected (JsError (engineErrorMessage (NotDefined (lit "document")))) in
            (promise,
             {| events := events w;
                windowTesseract := false;
                tesseractLoaderPromise := Some promise |})
          else
            let promise :=
              match tesseractScript with
              | Loaded true => Resolved tt
              | Loaded false =>
                  Rejected (JsError (lit "Tesseract.js loaded but createWorker is unavailable"))
              | LoadFailed =>
                  Rejected (JsError (lit "Failed to load Tesseract.js from CDN"))
              end in
            (promise,
             {| events := ScriptAppended :: events w;
                windowTesseract :=
                  match tesseractScript with Loaded true => true | _ => false end;
                tesseractLoaderPromise := Some promise |})
      end.

Definition createOcrWorker : M OcrWorker :=
  emit CreateOcrWorkerCalled ;;;
  if negb hasWindow
  then throw (JsError (lit "OCR requires a browser environment"))
  else loadTesseract ;;; await tesseractCreateWorker.

Definition parseImage (file : File) : M ParsedTableData :=
  worker <- createOcrWorker ;;
  tryFinally
    (emit WorkerRecognize ;;;
     recognized <- await (recognize worker file) ;;
     let text := match recognized with Some t => trim t | None => [] end in
     if negb (truthy text)
     then throw (JsError (lit "No readable text found in image"))
     else ret (createTextData text image_ocr))
    (emit WorkerTerminate ;;; await (terminate worker)).

(** A non-empty array whose first element has type object. *)
Definition arrayOfObjects (v : value) : option (value * list value) :=
  match v with
  | VArray (first :: later) =>
      if isObjectType first then Some (first, first :: later) else None
  | _ => None
  end.

(** The rows of an array of objects under the keys of its first one. *)
Definition tableOf (first : value) (items : list value) : outcome ParsedTableData :=
  match keys first with
  | Rejected e => Rejected e
  | Resolved headers =>
      match mapM (fun obj =>
                    mapM (fun h =>
                            match getProperty obj h with
                            | Resolved v => Resolved (toCellValue v)
                            | Rejected e => Rejected e
                            end) headers) items with
      | Rejected e => Rejected e
      | Resolved rows =>
          Resolved {| headers := headers; rows := rows; rowCount := length rows;
                      columnCount := length headers; sourceType := Some json;
                      ocrText := None |}
      end
  end.

(** [Object.keys(data).find(key => ...)]: the first key whose value is a
    non-empty array with a first element of type object. *)
Fixpoint findArrayKey (data : value) (ks : list jsstring)
  : outcome (option (jsstring * (value * list value))) :=
  match ks with
  | [] => Resolved None
  | key :: later =>
      match getProperty data key with
      | Rejected e => Rejected e
      | Resolved v =>
          match arrayOfObjects v with
          | Some found => Resolved (Some (key, found))
          | None => findArrayKey data later
          end
      end
  end.

Definition parseJSON (file : File) : M ParsedTableData :=
  text <- await (readerReadAsText file) ;;
  data <- await (JSON_parse text) ;;
  match arrayOfObjects data with
  | Some (first, items) => await (tableOf first items)
  | None =>
      ks <- await (keys data) ;;
      topLevelArrayKey <- await (findArrayKey data ks) ;;
      match topLevelArrayKey with
      | Some (_ :: _, (first, nestedRows)) => await (tableOf first nestedRows)
      | _ =>
          match data with
          | VObject properties =>
              let headers := map fst properties in
              let rows := [map (fun p => toCellValue (snd p)) properties] in
              ret {| headers := headers; rows := rows; rowCount := 1;
                     columnCount := length headers; sourceType := Some json;
                     ocrText := None |}
          | _ =>
              throw (JsError (lit
                "JSON format not supported. Expected array of objects or single object."))
          end
      end
  end.

Definition parseText (file : File) : M ParsedTableData :=
  text <- await (readerReadAsText file) ;;
  ret (createTextData text txt).

Definition extractMetadata (file : File) : FileMetadata :=
  {| metaName := name file; metaSize := size file;
     metaType := type file; metaLastModified := lastModified file |}.

Definition isOneOf (s : jsstring) (options : list string) : bool :=
  existsb (fun o => eqb s (lit o)) options.

(** The [switch] on the lowercased extension. *)
Definition route (file : File) (ext : jsstring) : M ParsedTableData :=
  let lowered := toLowerCase ext in
  if isOneOf lowered ["csv"%string] then parseCSV file
  else if isOneOf lowered ["xlsx"; "xls"]%string then parseExcel file
  else if isOneOf lowered ["pdf"%string] then parsePDF file
  else if isOneOf lowered ["json"%string] then parseJSON file
  else if isOneOf lowered ["txt"%string] then parseText file
  else if isOneOf lowered ["png"; "jpg"; "jpeg"; "webp"; "gif"]%string
       then parseImage file
  else throw (JsError (lit "Unsupported file type: " ++ ext)).

Definition parse (file : File) : M ParseResult :=
  tryCatch
    (let validationResult := validate file in
     if negb (isValid validationResult)
     then ret {| success := false; content := None;
                 error := Some {| code := lit "VALIDATION_ERROR";
                                  message := join (lit "; ") (errors validationResult);
                                  details := ValidationErrors (errors validationResult) |} |}
     else
       parsedData <- route file (getFileExtension (name file)) ;;
       ret {| success := true;
              content := Some {| raw := parsedData; metadata := extractMetadata file |};
              error := None |})
    (fun error =>
       ret {| success := false; content := None;
              error := Some {| code := lit "PARSE_ERROR";
                               message := match error with
                                          | JsError message => message
                                          | NonError => lit "Unknown parsing error"
                                          end;
                               details := Caught error |} |}).

End WithLibraries.

End EnhancedFileParser.

(* ================================================================== *)
(** ** Sample inputs *)
(* ================================================================== *)

Module Samples.
Import JS Types Parser.

(** A CSV-only configuration with a limit of 5 MiB and a custom predicate
    that accepts every file. *)
Definition csvFormat : FileFormat :=
  {| extension := lit "csv"; mimeType := lit "text/csv";
     validator := Some (fun _ => true) |}.

Definition csvOnly : EnhancedFileParser.EnhancedFileParserConfig :=
  {| EnhancedFileParser.supportedFormats := [csvFormat];
     EnhancedFileParser.maxFileSize := Some (5 * 1024 * 1024)%Z |}.

Definition csvOnlyPlain : FileParser.FileParserConfig :=
  {| FileParser.supportedFormats := [csvFormat];
     FileParser.maxFileSize := Some (5 * 1024 * 1024)%Z |}.

(** A CSV-only configuration without a custom predicate. *)
Definition strictCsv : EnhancedFileParser.EnhancedFileParserConfig :=
  {| EnhancedFileParser.supportedFormats :=
       [ {| extension := lit "csv"; mimeType := lit "text/csv";
            validator := None |} ];
     EnhancedFileParser.maxFileSize := Some (5 * 1024 * 1024)%Z |}.

(** Six mebibytes under a name that is no CSV. *)
Definition bigBinary : File :=
  {| name := lit "photo.exe"; type := lit "application/octet-stream";
     size := 6291456; lastModified := 0 |}.

(** Ten bytes under a name that is no CSV. *)
Definition smallBinary : File :=
  {| name := lit "notes.bin"; type := lit "application/octet-stream";
     size := 10; lastModified := 0 |}.

(** A Fuse that finds nothing: the samples are settled before the fuzzy
    tier. *)
#[export] Instance silentFuse : FieldMatcher.Fuse :=
  {| FieldMatcher.search := fun _ _ => [] |}.

(** Normalized headers: the first contains the first place token, the
    second is the second place token. *)
Definition idThenPlace : list jsstring := [lit "place_name_id"; lit "place"].

Definition codeThenPlace : list jsstring := [lit "code"; lit "place"].

(** Rows with one, two and two filled cells. *)
Definition threeRows : list (list cell) :=
  [ [CString (lit "Louvre"); CNull];
    [CString (lit "Eiffel Tower"); CString (lit "Paris")];
    [CString (lit "Colosseum"); CString (lit "Rome")] ].

Definition smallCsv : File :=
  {| name := lit "places.CSV"; type := lit "text/csv";
     size := 10; lastModified := 0 |}.

(** A Fuse that finds the target fields whose name is the pattern itself,
    each with the score 0.25. *)
Definition nameFuse : FieldMatcher.Fuse :=
  {| FieldMatcher.search := fun targets pattern =>
       map (fun t => {| FieldMatcher.item := t;
                        FieldMatcher.fuseScore := Some 0.25%float |})
           (filter (fun t => eqb (FieldMatcher.name t) pattern) targets) |}.

Definition placeTargets : list FieldMatcher.TargetField :=
  [ {| FieldMatcher.name := lit "placeName"; FieldMatcher.label := lit "Place Name" |};
    {| FieldMatcher.name := lit "location"; FieldMatcher.label := lit "Location" |} ].

(** A CSV-only configuration whose limit is below zero, and a file of no
    bytes under a name that is no CSV. *)
Definition belowZero : EnhancedFileParser.EnhancedFileParserConfig :=
  {| EnhancedFileParser.supportedFormats :=
       [ {| extension := lit "csv"; mimeType := lit "text/csv";
            validator := None |} ];
     EnhancedFileParser.maxFileSize := Some (-1)%Z |}.

Definition emptyBinary : File :=
  {| name := lit "nothing.bin"; type := lit "application/octet-stream";
     size := 0; lastModified := 0 |}.

(** The three rows under the headers Name and City. *)
Definition placesTable : ParsedTableData :=
  {| headers := [lit "Name"; lit "City"];
     rows := threeRows;
     rowCount := 3; columnCount := 2;
     sourceType := Some csv; ocrText := None |}.

End Samples.

(** Libraries for the samples: a workbook whose first sheet has a header
    row of two cells and a data row of one, and a PDF of one page whose
    only text item is blank.  Nothing else is there to be read. *)
Module SampleLibraries.
Import JS Types Parser EnhancedFileParser.

Definition blankPage : PdfPage :=
  {| getTextContent := Resolved (Some [Some (lit "   ")]) |}.

Definition blankPdf : PdfDocument :=
  {| numPages := 1;
     getPage := fun _ => Resolved blankPage;
     cleanup := Resolved tt;
     destroy := Resolved tt |}.

#[export] Instance libraries : Libraries := {|
  hasWindow := true;
  hasDocument := true;
  readerReadAsText := fun _ => Rejected (JsError (lit "Failed to read file"));
  fileArrayBuffer := fun _ => Resolved [];
  JSON_parse := fun _ => Rejected NonError;
  papaParse := fun _ => Rejected NonError;
  xlsxFirstSheet := fun _ =>
    Resolved [ [VString (lit "Place"); VString (lit "City")];
               [VString (lit "Eiffel Tower")] ];
  pdfGetDocument := fun _ => Resolved blankPdf;
  tesseractScript := LoadFailed;
  tesseractCreateWorker := Rejected NonError
|}.

Definition documents : EnhancedFileParserConfig :=
  {| supportedFormats :=
       [ {| extension := lit "xlsx";
            mimeType := lit "application/vnd.openxmlformats-officedocument.spreadsheetml.sheet";
            validator := None |};
         {| extension := lit "pdf"; mimeType := lit "application/pdf";
            validator := None |} ];
     maxFileSize := None |}.

Definition workbook : File :=
  {| name := lit "places.xlsx";
     type := lit "application/vnd.openxmlformats-officedocument.spreadsheetml.sheet";
     size := 4096; lastModified := 0 |}.

Definition scan : File :=
  {| name := lit "scan.pdf"; type := lit "application/pdf";
     size := 4096; lastModified := 0 |}.

Definition freshWorld : World :=
  {| events := []; windowTesseract := false; tesseractLoaderPromise := None |}.

(** Two JSON files: an array of two booleans and an object of two
    strings, with the reader and the JSON parser that go with them. *)
Definition quoted (s : string) : jsstring := [34%N] ++ lit s ++ [34%N].

Definition flagsText : jsstring := lit "[true, false]".

Definition louvreText : jsstring :=
  lit "{" ++ quoted "name" ++ lit ": " ++ quoted "Louvre" ++ lit ", "
  ++ quoted "city" ++ lit ": " ++ quoted "Paris" ++ lit "}".

Definition louvre : list (jsstring * value) :=
  [ (lit "name", VString (lit "Louvre")); (lit "city", VString (lit "Paris")) ].

Definition flagsFile : File :=
  {| name := lit "flags.json"; type := lit "application/json";
     size := 13; lastModified := 0 |}.

Definition louvreFile : File :=
  {| name := lit "louvre.json"; type := lit "application/json";
     size := 35; lastModified := 0 |}.

Definition jsonLibraries : Libraries := {|
  hasWindow := true;
  hasDocument := true;
  readerReadAsText := fun file =>
    if eqb (name file) (lit "flags.json") then Resolved flagsText
    else Resolved louvreText;
  fileArrayBuffer := fun _ => Resolved [];
  JSON_parse := fun text =>
    if eqb text flagsText then Resolved (VArray [VBoolean true; VBoolean false])
    else if eqb text louvreText then Resolved (VObject louvre)
    else Rejected (JsError (lit "Unexpected token"));
  papaParse := fun _ => Rejected NonError;
  xlsxFirstSheet := fun _ => Resolved [];
  pdfGetDocument := fun _ => Rejected NonError;
  tesseractScript := LoadFailed;
  tesseractCreateWorker := Rejected NonError
|}.

(** A file of no bytes. *)
Definition emptyFile : File :=
  {| name := lit "empty.pdf"; type := lit "application/pdf";
     size := 0; lastModified := 0 |}.

(** A PDF of two pages: the first says Eiffel Tower in two items, the
    second holds spaces only. *)
Definition guideItems (n : nat) : option (list PdfItem) :=
  if Nat.eqb n 1 then Some [Some (lit "Eiffel"); Some (lit " Tower ")]
  else Some [Some (lit "   ")].

Definition guidePdf : PdfDocument :=
  {| numPages := 2;
     getPage := fun n => Resolved {| getTextContent := Resolved (guideItems n) |};
     cleanup := Resolved tt;
     destroy := Resolved tt |}.

Definition pdfLibraries : Libraries := {|
  hasWindow := true;
  hasDocument := true;
  readerReadAsText := fun _ => Rejected NonError;
  fileArrayBuffer := fun _ => Resolved [];
  JSON_parse := fun _ => Rejected NonError;
  papaParse := fun _ => Rejected NonError;
  xlsxFirstSheet := fun _ => Resolved [];
  pdfGetDocument := fun _ => Resolved guidePdf;
  tesseractScript := LoadFailed;
  tesseractCreateWorker := Rejected NonError
|}.

End SampleLibraries.

(* ================================================================== *)
(** ** Vocabulary of the properties *)
(* ================================================================== *)

Module Vocabulary.
Import JS EnhancedFileParser.

(** A computation that leaves the count of [createOcrWorker] calls alone. *)
Definition quiet {A} (m : M A) : Prop :=
  forall w, ocrWorkerCalls (snd (m w)) = ocrWorkerCalls w.

(** Every result that a computation resolves to has the property. *)
Definition produces {A} (m : M A) (P : A -> Prop) : Prop :=
  forall w a w', m w = (Resolved a, w') -> P a.

(** The row count is the number of rows. *)
Definition counted (t : Types.ParsedTableData) : Prop :=
  Types.rowCount t = length (Types.rows t).

(** Every row has as many cells as there are columns. *)
Definition rectangular (t : Types.ParsedTableData) : Prop :=
  Forall (fun row => length row = Types.columnCount t) (Types.rows t).

Definition shaped (t : Types.ParsedTableData) : Prop :=
  counted t /\ rectangular t.

(** Every whitespace code unit is a space that no whitespace follows. *)
Fixpoint singleSpaced (s : jsstring) : bool :=
  match s with
  | [] => true
  | c :: t =>
      if isWhiteSpace c
      then N.eqb c 32 && negb (headIs isWhiteSpace t) && singleSpaced t
      else singleSpaced t
  end.

(** Neither end is a colon, a dash or whitespace, and the spaces inside
    are single. *)
Definition clean (s : jsstring) : Prop :=
  headIs MetadataExtractor.isEdgeChar s = false
  /\ headIs MetadataExtractor.isEdgeChar (rev s) = false
  /\ singleSpaced s = true.

(** What the arrow pattern leaves as a location: a cleaned value with its
    trailing symbols stripped. *)
Definition strippedClean (s : jsstring) : Prop :=
  exists x,
    s = trim (replaceAll MetadataExtractor.trailingSymbols []
                (MetadataExtractor.cleanValue x)).

(** What replacing every run of whitespace by one space comes to;
    [inRun] tells that the code unit before was whitespace. *)
Fixpoint collapseFrom (inRun : bool) (s : jsstring) : jsstring :=
  match s with
  | [] => []
  | c :: t =>
      if isWhiteSpace c
      then if inRun then collapseFrom true t else 32%N :: collapseFrom true t
      else c :: collapseFrom false t
  end.

(** [cmp(left, right) < 0] for the comparator of [getBestDataRow]. *)
Definition fewerFirst {host : Host} (left right : list Types.cell) : bool :=
  (Z.of_nat (MetadataExtractor.nonEmptyValueCount right)
   - Z.of_nat (MetadataExtractor.nonEmptyValueCount left) <? 0)%Z.

Fixpoint takeWhile (p : codeunit -> bool) (s : jsstring) : jsstring :=
  match s with
  | [] => []
  | c :: t => if p c then c :: takeWhile p t else []
  end.

(** How often an event has happened. *)
Definition sameEvent (a b : Event) : bool :=
  match a, b with
  | CreateOcrWorkerCalled, CreateOcrWorkerCalled
  | ScriptAppended, ScriptAppended
  | WorkerRecognize, WorkerRecognize
  | WorkerTerminate, WorkerTerminate
  | PdfCleanup, PdfCleanup
  | PdfDestroy, PdfDestroy => true
  | _, _ => false
  end.

Definition occurrences (e : Event) (w : World) : nat :=
  length (filter (sameEvent e) (events w)).

(** The extensions that [parse] routes to the OCR extractor. *)
Definition imageExtensions : list string :=
  ["png"; "jpg"; "jpeg"; "webp"; "gif"]%string.

(** [typeof v] is boolean, number or string. *)
Definition isScalar (v : value) : bool :=
  match v with
  | VBoolean _ | VNumber _ | VString _ => true
  | _ => false
  end.

(** The message of [parseJSON] for a shape it does not take. *)
Definition jsonNotSupported : jsstring :=
  lit "JSON format not supported. Expected array of objects or single object.".

(** The value and the confidence that a result reports for a field. *)
Definition fieldValue (t : MetadataExtractor.Target)
  (r : MetadataExtractor.MetadataExtractionResult) : jsstring :=
  match t with
  | MetadataExtractor.placeNameField => MetadataExtractor.placeName r
  | MetadataExtractor.locationField => MetadataExtractor.location r
  end.

Definition fieldConfidence (t : MetadataExtractor.Target)
  (r : MetadataExtractor.MetadataExtractionResult) : float :=
  match t with
  | MetadataExtractor.placeNameField => MetadataExtractor.placeConfidence r
  | MetadataExtractor.locationField => MetadataExtractor.locationConfidence r
  end.

(** [c === 0] *)
Definition isZero (c : float) : bool := PrimFloat.eqb c 0.

(** For each field of a result: either the value is empty and the
    confidence is 0 (or, unless [strict], 0.55), or the value is not empty
    and the confidence is not zero. *)
Definition together (strict : bool)
  (r : MetadataExtractor.MetadataExtractionResult) : Prop :=
  forall t,
    (fieldValue t r = []
     /\ (fieldConfidence t r = 0%float
         \/ (strict = false /\ fieldConfidence t r = 0.55%float)))
    \/ (truthy (fieldValue t r) = true /\ isZero (fieldConfidence t r) = false).

(** The continuation [k] hands over what is left of the subject only in a
    state that has the property [Q] whenever it was given one. *)
Definition keeps (Q : jsstring -> Prop) (k : cont) : Prop :=
  forall s m, Q (after s) -> k s = Some m -> Q (after m).

(** Every maximal run of code units of the class [p] replaced by [rep]. *)
Fixpoint squeeze (p : codeunit -> bool) (rep : jsstring) (inRun : bool)
  (s : jsstring) : jsstring :=
  match s with
  | [] => []
  | c :: t =>
      if p c
      then if inRun then squeeze p rep true t else rep ++ squeeze p rep true t
      else c :: squeeze p rep false t
  end.

(** The class of underscore, whitespace and dash. *)
Definition isSeparator (c : codeunit) : bool :=
  (N.eqb c 95 || isWhiteSpace c || N.eqb c 45)%bool.

(** The class of a to z, 0 to 9 and underscore. *)
Definition isFieldChar (c : codeunit) : bool :=
  (isLower c || isDigit c || N.eqb c 95)%bool.

(** The elements of [l] that [f] maps to something, mapped, in order. *)
Definition choose {A B} (f : A -> option B) (l : list A) : list B :=
  flat_map (fun x => match f x with Some y => [y] | None => [] end) l.

(** The table carries the tag of the source [k], and the recognized text
    beside it exactly when that source is OCR. *)
Definition tagged (k : Types.SourceType) (t : Types.ParsedTableData) : Prop :=
  Types.sourceType t = Some k
  /\ match k with
     | Types.image_ocr => Types.ocrText t <> None
     | _ => Types.ocrText t = None
     end.

(** The extensions, lowercased, that [parse] routes to the source [k]. *)
Definition routedTo (lowered : jsstring) (k : Types.SourceType) : bool :=
  isOneOf lowered
    match k with
    | Types.csv => ["csv"]
    | Types.excel => ["xlsx"; "xls"]
    | Types.pdf => ["pdf"]
    | Types.json => ["json"]
    | Types.txt => ["txt"]
    | Types.image_ocr => imageExtensions
    end%string.

(** The pieces of a text between its line breaks, a line break being a
    line feed together with the carriage return before it when there is
    one; [piece] holds, reversed, the code units since the last break. *)
Fixpoint breakLines (piece s : jsstring) : list jsstring :=
  match s with
  | [] => [rev piece]
  | c :: t =>
      if N.eqb c 10 then rev piece :: breakLines [] t
      else
        match t with
        | d :: t' =>
            if (N.eqb c 13 && N.eqb d 10)%bool
            then rev piece :: breakLines [] t'
            else breakLines (c :: piece) t
        | [] => breakLines (c :: piece) t
        end
  end.

(** Neither a line feed nor a carriage return. *)
Definition noBreak (c : codeunit) : bool := negb (N.eqb c 10 || N.eqb c 13).

(** A text that is not empty and has no whitespace at either end. *)
Definition trimmed (t : jsstring) : Prop :=
  t <> [] /\ headIs isWhiteSpace t = false /\ headIs isWhiteSpace (rev t) = false.

(** The texts of the pages 1 to [pages] that have one, in page order;
    [items n] are the text items of page [n]. *)
Definition pageTexts (items : nat -> option (list PdfItem)) (pages : nat)
  : list jsstring :=
  filter truthy
    (map (fun n => nativeTextOf (match items n with Some l => l | None => [] end))
         (seq 1 pages)).

(** A cell is blank when its text is empty or whitespace only; the text of
    a null cell is empty. *)
Definition isBlank {host : Host} (value : Types.cell) : bool :=
  forallb isWhiteSpace (Types.cellText value).

(** The count of the cells of a row that are not blank. *)
Definition nonBlankCells {host : Host} (row : list Types.cell) : nat :=
  length (filter (fun value => negb (isBlank value)) row).

(** The cell of a row in a column, as text and cleaned; nothing when the
    row has no such column. *)
Definition cleanedCell {host : Host} (row : list Types.cell) (column : Z)
  : jsstring :=
  if (column <? 0)%Z then []
  else match nth_error row (Z.to_nat column) with
       | Some value => MetadataExtractor.cleanValue (Types.cellText value)
       | None => []
       end.

(** The result [r] is the one taken from [line] as an arrow line: the
    arrow pattern matches the line with both sides there, the place name
    is the cleaned left side, the location the cleaned right side with its
    trailing symbols stripped, both at 0.88. *)
Definition arrowResult (line : jsstring)
  (r : MetadataExtractor.MetadataExtractionResult) : Prop :=
  let m := exec MetadataExtractor.PLACE_LOCATION_INLINE_PATTERN line in
  groupTruthy 1 m = true
  /\ groupTruthy 2 m = true
  /\ r = {| MetadataExtractor.placeName :=
              MetadataExtractor.cleanValue (groupOr 1 m);
            MetadataExtractor.location :=
              trim (replaceAll MetadataExtractor.trailingSymbols []
                      (MetadataExtractor.cleanValue (groupOr 2 m)));
            MetadataExtractor.placeConfidence := 0.88;
            MetadataExtractor.locationConfidence := 0.88 |}.

End Vocabulary.

(* ================================================================== *)
(** * Properties *)
(* ================================================================== *)

Unset Implicit Arguments.

(** Closed examples run on the Basic Latin host. *)
#[global] Existing Instance JS.latinHost.

(** ** Strings *)

Lemma eqb_eq (a b : JS.jsstring) : JS.eqb a b = true <-> a = b.
Proof.
  revert b; induction a as [|x a IH]; intros [|y b]; simpl; split;
    try congruence; try reflexivity.
  - intros H. apply andb_true_iff in H as [Hx Hab].
    apply N.eqb_eq in Hx. apply IH in Hab. congruence.
  - intros H. injection H as -> ->. rewrite N.eqb_refl. simpl.
    now apply IH.
Qed.

Lemma eqb_refl (a : JS.jsstring) : JS.eqb a a = true.
Proof. now apply eqb_eq. Qed.

Lemma eqb_neq (a b : JS.jsstring) : JS.eqb a b = false <-> a <> b.
Proof.
  split.
  - intros H E. apply eqb_eq in E. congruence.
  - intros H. destruct (JS.eqb a b) eqn:E; [|reflexivity].
    apply eqb_eq in E. contradiction.
Qed.

Lemma truthy_false (s : JS.jsstring) : JS.truthy s = false <-> s = [].
Proof. destruct s; simpl; split; congruence. Qed.

Lemma startsWith_app (n rest : JS.jsstring) : JS.startsWith n (n ++ rest) = true.
Proof.
  induction n as [|x n IH]; simpl; [reflexivity|].
  now rewrite N.eqb_refl, IH.
Qed.

Lemma startsWith_refl (n : JS.jsstring) : JS.startsWith n n = true.
Proof. rewrite <- (app_nil_r n) at 2. apply startsWith_app. Qed.

Lemma includes_refl (n : JS.jsstring) : JS.includes n n = true.
Proof. destruct n; simpl; [reflexivity|]. now rewrite N.eqb_refl, startsWith_refl. Qed.

Lemma includes_skip (n pre hay : JS.jsstring) :
  JS.includes n hay = true -> JS.includes n (pre ++ hay) = true.
Proof.
  intros H. induction pre as [|x pre IH]; simpl; [exact H|].
  rewrite IH. apply orb_true_r.
Qed.

Lemma includes_middle (n pre post : JS.jsstring) :
  JS.includes n (pre ++ n ++ post) = true.
Proof.
  apply includes_skip. destruct n as [|x n]; simpl.
  - now destruct post.
  - now rewrite N.eqb_refl, startsWith_app.
Qed.

Lemma find_none_iff {A} (p : A -> bool) (l : list A) :
  find p l = None <-> forall x, In x l -> p x = false.
Proof.
  split.
  - apply find_none.
  - intros H. induction l as [|x l IH]; simpl; [reflexivity|].
    rewrite (H x (or_introl eq_refl)). apply IH. intros y Hy. apply H. now right.
Qed.

Lemma find_some_iff {A} (p : A -> bool) (l : list A) :
  (exists x, find p l = Some x) <-> exists x, In x l /\ p x = true.
Proof.
  split.
  - intros [x H]. exists x. now apply find_some in H.
  - intros [x [Hin Hp]]. destruct (find p l) eqn:E; [eauto|].
    rewrite (find_none _ _ E x Hin) in Hp. discriminate.
Qed.

(** ** The two validators *)

Lemma sizeError_mentions_size (a b : Z) :
  JS.includes (JS.lit "size") (Parser.sizeError a b) = true.
Proof.
  unfold Parser.sizeError.
  change (JS.lit "File size (") with (JS.lit "File " ++ JS.lit "size" ++ JS.lit " (").
  rewrite <- !app_assoc. apply includes_middle.
Qed.

Lemma formatError_mentions_not_supported (fs : list Parser.FileFormat) :
  JS.includes (JS.lit "not supported") (Parser.formatError fs) = true.
Proof.
  unfold Parser.formatError.
  change (JS.lit "File format not supported. Supported formats: ")
    with (JS.lit "File format " ++ JS.lit "not supported"
          ++ JS.lit ". Supported formats: ").
  rewrite <- !app_assoc. apply includes_middle.
Qed.

Lemma length_zero_iff_nil {A} (l : list A) : (length l =? 0)%nat = true <-> l = [].
Proof. destruct l; simpl; split; congruence. Qed.

(** C9. Each of the two [validate] methods (FileParser and
    EnhancedFileParser) returns a result whose [isValid] flag is true
    exactly when its list of errors is empty. *)
Theorem validate_isValid_iff_no_errors :
  forall (host : JS.Host) (file : Parser.File),
    (forall config,
        Parser.isValid (FileParser.validate config file) = true
        <-> Parser.errors (FileParser.validate config file) = [])
    /\ (forall config,
        Parser.isValid (EnhancedFileParser.validate config file) = true
        <-> Parser.errors (EnhancedFileParser.validate config file) = []).
Proof.
  intros host file. split; intros config.
  - unfold FileParser.validate. cbv zeta. simpl Parser.isValid. simpl Parser.errors.
    apply length_zero_iff_nil.
  - unfold EnhancedFileParser.validate. cbv zeta. simpl Parser.isValid.
    simpl Parser.errors. apply length_zero_iff_nil.
Qed.

(** C7, amended. A file that is larger than the configured maximum and
    matches no configured format is given the error about its size first
    and the error about its format last by [EnhancedFileParser.validate]:
    the first mentions "size", the last "not supported", and the size
    check does not stop the format check.  For a file that is not empty
    these are the only two errors, and so for every such file when the
    maximum is a byte count; a file of no bytes, which is larger than the
    maximum only when that is below zero, has "File is empty" between
    them. *)
Theorem validate_oversized_and_unsupported :
  forall (host : JS.Host) (config : EnhancedFileParser.EnhancedFileParserConfig)
         (file : Parser.File),
    (Z.of_N (Parser.size file)
     > Parser.maxFileSizeOr (EnhancedFileParser.maxFileSize config))%Z ->
    (forall format,
        In format (EnhancedFileParser.supportedFormats config) ->
        EnhancedFileParser.formatMatches file
          (EnhancedFileParser.getFileExtension (Parser.name file)) format = false) ->
    exists sizeMessage formatMessage,
      Parser.errors (EnhancedFileParser.validate config file)
      = (if (Parser.size file =? 0)%N
         then [sizeMessage; JS.lit "File is empty"; formatMessage]
         else [sizeMessage; formatMessage])
      /\ Parser.isValid (EnhancedFileParser.validate config file) = false
      /\ JS.includes (JS.lit "size") sizeMessage = true
      /\ JS.includes (JS.lit "not supported") formatMessage = true
      /\ ((0 <= Parser.maxFileSizeOr (EnhancedFileParser.maxFileSize config))%Z ->
          (Parser.size file =? 0)%N = false).
Proof.
  intros host config file Hsize Hformat.
  apply find_none_iff in Hformat.
  unfold EnhancedFileParser.validate. cbv zeta.
  rewrite Hformat.
  assert (Hgt : (Z.of_N (Parser.size file)
                 >? Parser.maxFileSizeOr (EnhancedFileParser.maxFileSize config))%Z
                = true) by (apply Z.gtb_lt; lia).
  rewrite Hgt. cbn [Parser.errors Parser.isValid].
  eexists. eexists.
  split; [destruct (Parser.size file =? 0)%N; reflexivity|].
  split; [destruct (Parser.size file =? 0)%N; reflexivity|].
  split; [apply sizeError_mentions_size|].
  split; [apply formatError_mentions_not_supported|].
  intros Hmax. apply N.eqb_neq. lia.
Qed.

Lemma validate_oversized_and_unsupported_witness :
  exists sizeMessage formatMessage,
    Parser.errors (EnhancedFileParser.validate Samples.strictCsv Samples.bigBinary)
    = [sizeMessage; formatMessage]
    /\ Parser.isValid (EnhancedFileParser.validate Samples.strictCsv Samples.bigBinary)
       = false
    /\ JS.includes (JS.lit "size") sizeMessage = true
    /\ JS.includes (JS.lit "not supported") formatMessage = true
    /\ ((0 <= Parser.maxFileSizeOr
                (EnhancedFileParser.maxFileSize Samples.strictCsv))%Z ->
        (Parser.size Samples.bigBinary =? 0)%N = false).
Proof.
  apply (validate_oversized_and_unsupported JS.latinHost Samples.strictCsv
           Samples.bigBinary).
  - vm_compute. reflexivity.
  - intros format [<-|[]]. vm_compute. reflexivity.
Defined.

(** C7, as stated, fails where the configured maximum is below zero: a
    file of no bytes is then larger than the maximum, and when its format
    is not supported it is given three errors, not two. *)
Lemma validate_empty_file_below_negative_limit :
  (Z.of_N (Parser.size Samples.emptyBinary)
   > Parser.maxFileSizeOr (EnhancedFileParser.maxFileSize Samples.belowZero))%Z
  /\ (forall format,
        In format (EnhancedFileParser.supportedFormats Samples.belowZero) ->
        EnhancedFileParser.formatMatches Samples.emptyBinary
          (EnhancedFileParser.getFileExtension (Parser.name Samples.emptyBinary)) format
        = false)
  /\ Parser.errors (EnhancedFileParser.validate Samples.belowZero Samples.emptyBinary)
     = [Parser.sizeError 0 (-1); JS.lit "File is empty";
        Parser.formatError (EnhancedFileParser.supportedFormats Samples.belowZero)]
  /\ length (Parser.errors (EnhancedFileParser.validate Samples.belowZero Samples.emptyBinary))
     = 3.
Proof.
  split; [reflexivity|]. split.
  - intros format [<-|[]]. vm_compute. reflexivity.
  - split; vm_compute; reflexivity.
Qed.

Lemma isValid_iff_format_found
  (errors2 : list JS.jsstring) (found : option Parser.FileFormat) (msg : JS.jsstring) :
  errors2 = [] ->
  ((length (match found with Some _ => errors2 | None => errors2 ++ [msg] end)
    =? 0)%nat = true
   <-> exists f, found = Some f).
Proof.
  intros ->. destruct found; simpl; split; eauto; try congruence.
  intros [f H]. discriminate.
Qed.

(** C4, amended. For a file that is neither empty nor over the limit:
    [FileParser.validate] accepts it exactly when some configured format
    either matches it by extension and by MIME type, or has a custom
    predicate that accepts it; [EnhancedFileParser.validate] accepts it
    exactly when some configured format matches it by extension and, in
    addition, either matches its MIME type or has a custom predicate that
    accepts it. *)
Theorem validate_acceptance_routes :
  forall (host : JS.Host) (file : Parser.File),
    (0 < Parser.size file)%N ->
    (forall config : FileParser.FileParserConfig,
        (Z.of_N (Parser.size file)
         <= Parser.maxFileSizeOr (FileParser.maxFileSize config))%Z ->
        (Parser.isValid (FileParser.validate config file) = true
         <-> exists format,
              In format (FileParser.supportedFormats config)
              /\ ((JS.toLowerCase (Parser.extension format)
                   = FileParser.fileExtensionOf (Parser.name file)
                   /\ Parser.mimeType format = Parser.type file)
                  \/ exists accepts,
                       Parser.validator format = Some accepts
                       /\ accepts file = true)))
    /\ (forall config : EnhancedFileParser.EnhancedFileParserConfig,
        (Z.of_N (Parser.size file)
         <= Parser.maxFileSizeOr (EnhancedFileParser.maxFileSize config))%Z ->
        (Parser.isValid (EnhancedFileParser.validate config file) = true
         <-> exists format,
              In format (EnhancedFileParser.supportedFormats config)
              /\ JS.toLowerCase (Parser.extension format)
                 = JS.toLowerCase
                     (EnhancedFileParser.getFileExtension (Parser.name file))
              /\ (Parser.mimeType format = Parser.type file
                  \/ exists accepts,
                       Parser.validator format = Some accepts
                       /\ accepts file = true))).
Proof.
  intros host file Hpos. split; intros config Hmax.
  - unfold FileParser.validate. cbv zeta. simpl Parser.isValid.
    assert (Hgt : (Z.of_N (Parser.size file)
                   >? Parser.maxFileSizeOr (FileParser.maxFileSize config))%Z
                  = false) by (rewrite Z.gtb_ltb; apply Z.ltb_ge; lia).
    assert (Hnz : (Parser.size file =? 0)%N = false) by (apply N.eqb_neq; lia).
    rewrite Hgt, Hnz. rewrite isValid_iff_format_found by reflexivity.
    rewrite find_some_iff. split; intros [format [Hin H]]; exists format;
      (split; [exact Hin|]); unfold FileParser.formatMatches in *.
    + apply orb_true_iff in H as [H|H].
      * apply andb_true_iff in H as [He Hm]. left.
        now apply eqb_eq in He; apply eqb_eq in Hm.
      * right. destruct (Parser.validator format) as [accepts|]; [eauto|discriminate].
    + apply orb_true_iff. destruct H as [[He Hm]|[accepts [Hv Ha]]].
      * left. apply andb_true_iff. split; now apply eqb_eq.
      * right. now rewrite Hv.
  - unfold EnhancedFileParser.validate. cbv zeta. simpl Parser.isValid.
    assert (Hgt : (Z.of_N (Parser.size file)
                   >? Parser.maxFileSizeOr (EnhancedFileParser.maxFileSize config))%Z
                  = false) by (rewrite Z.gtb_ltb; apply Z.ltb_ge; lia).
    assert (Hnz : (Parser.size file =? 0)%N = false) by (apply N.eqb_neq; lia).
    rewrite Hgt, Hnz. rewrite isValid_iff_format_found by reflexivity.
    rewrite find_some_iff. split; intros [format [Hin H]]; exists format;
      (split; [exact Hin|]); unfold EnhancedFileParser.formatMatches in *.
    + apply andb_true_iff in H as [He H]. split; [now apply eqb_eq|].
      apply orb_true_iff in H as [H|H].
      * left. now apply eqb_eq.
      * right. destruct (Parser.validator format) as [accepts|]; [eauto|discriminate].
    + destruct H as [He H]. apply andb_true_iff. split; [now apply eqb_eq|].
      apply orb_true_iff. destruct H as [Hm|[accepts [Hv Ha]]].
      * left. now apply eqb_eq.
      * right. now rewrite Hv.
Qed.

Lemma validate_acceptance_routes_witness :
  Parser.isValid (FileParser.validate Samples.csvOnlyPlain Samples.smallBinary) = true
  /\ Parser.isValid (EnhancedFileParser.validate Samples.csvOnly Samples.smallCsv) = true.
Proof.
  assert (Hpos : (0 < Parser.size Samples.smallBinary)%N) by reflexivity.
  assert (Hpos' : (0 < Parser.size Samples.smallCsv)%N) by reflexivity.
  split.
  - apply (proj1 (validate_acceptance_routes JS.latinHost Samples.smallBinary Hpos)
             Samples.csvOnlyPlain).
    + vm_compute. discriminate.
    + exists Samples.csvFormat. split; [now left|].
      right. exists (fun _ => true). split; reflexivity.
  - apply (proj2 (validate_acceptance_routes JS.latinHost Samples.smallCsv Hpos')
             Samples.csvOnly).
    + vm_compute. discriminate.
    + exists Samples.csvFormat. split; [now left|].
      split; [vm_compute; reflexivity|]. left. reflexivity.
Defined.

(** C4, as stated, fails for [EnhancedFileParser.validate]: the custom
    predicate of the only configured format accepts a small file named
    notes.bin, and the file is rejected all the same, because its
    extension is not the format's. *)
Lemma enhanced_validate_rejects_predicate_alone :
  (exists format accepts,
      In format (EnhancedFileParser.supportedFormats Samples.csvOnly)
      /\ Parser.validator format = Some accepts
      /\ accepts Samples.smallBinary = true)
  /\ Parser.isValid (EnhancedFileParser.validate Samples.csvOnly Samples.smallBinary)
     = false
  /\ Parser.errors (EnhancedFileParser.validate Samples.csvOnly Samples.smallBinary)
     = [Parser.formatError [Samples.csvFormat]].
Proof.
  split.
  - exists Samples.csvFormat, (fun _ => true). split; [now left|]. split; reflexivity.
  - split; vm_compute; reflexivity.
Qed.

(** ** The parser *)

#[global] Existing Instance SampleLibraries.libraries.

Section ParserFacts.
Import EnhancedFileParser Vocabulary.
Context {host : JS.Host} {libs : Libraries}.

(** C1. For every configuration, file and state of the world,
    [EnhancedFileParser.parse] resolves: it never rejects.  What it
    resolves to is either a success that carries content and no error, or
    a failure that carries no content and an error whose code is
    VALIDATION_ERROR or PARSE_ERROR. *)
Theorem parse_always_resolves_tagged :
  forall (config : EnhancedFileParserConfig) (file : Parser.File) (w : World),
  exists (r : Parser.ParseResult) (w' : World),
    parse config file w = (Resolved r, w')
    /\ ((Parser.success r = true
         /\ (exists c, Parser.content r = Some c)
         /\ Parser.error r = None)
        \/ (Parser.success r = false
            /\ Parser.content r = None
            /\ exists e, Parser.error r = Some e
                 /\ (Parser.code e = JS.lit "VALIDATION_ERROR"
                     \/ Parser.code e = JS.lit "PARSE_ERROR"))).
Proof.
  intros config file w. unfold parse, tryCatch.
  destruct (Parser.isValid (validate config file)); simpl.
  - unfold bind.
    destruct (route file (getFileExtension (Parser.name file)) w) as [[parsed|e] w'].
    + eexists. eexists. split; [reflexivity|]. left. simpl. eauto.
    + eexists. eexists. split; [reflexivity|]. right. simpl. eauto 6.
  - eexists. eexists. split; [reflexivity|]. right. simpl. eauto 6.
Qed.

Lemma quiet_ret {A} (a : A) : quiet (ret a).
Proof. intros w. reflexivity. Qed.

Lemma quiet_throw {A} (e : Parser.thrown) : quiet (@throw A e).
Proof. intros w. reflexivity. Qed.

Lemma quiet_await {A} (o : outcome A) : quiet (await o).
Proof. intros w. reflexivity. Qed.

Lemma quiet_emit (e : Event) : isCreateOcrWorkerCalled e = false -> quiet (emit e).
Proof. intros H w. unfold emit, ocrWorkerCalls. simpl. now rewrite H. Qed.

Lemma quiet_bind {A B} (m : M A) (k : A -> M B) :
  quiet m -> (forall a, quiet (k a)) -> quiet (bind m k).
Proof.
  intros Hm Hk w. unfold bind. specialize (Hm w).
  destruct (m w) as [[a|e] w']; simpl in *.
  - now rewrite Hk.
  - exact Hm.
Qed.

Lemma quiet_tryFinally {A} (body : M A) (fin : M unit) :
  quiet body -> quiet fin -> quiet (tryFinally body fin).
Proof.
  intros Hb Hf w. unfold tryFinally. specialize (Hb w).
  destruct (body w) as [r w']. specialize (Hf w').
  destruct (fin w') as [[u|e] w'']; simpl in *; congruence.
Qed.

Lemma quiet_tryCatch {A} (body : M A) (handler : Parser.thrown -> M A) :
  quiet body -> (forall e, quiet (handler e)) -> quiet (tryCatch body handler).
Proof.
  intros Hb Hh w. unfold tryCatch. specialize (Hb w).
  destruct (body w) as [[a|e] w']; simpl in *.
  - exact Hb.
  - now rewrite Hh.
Qed.

Lemma quiet_readPages (doc : PdfDocument) (remaining pageNumber : nat)
  (pageTexts : list JS.jsstring) :
  quiet (readPages doc remaining pageNumber pageTexts).
Proof.
  revert pageNumber pageTexts.
  induction remaining as [|n IH]; intros pageNumber pageTexts; simpl.
  - apply quiet_ret.
  - apply quiet_bind; [apply quiet_await|]. intros page.
    apply quiet_bind.
    + unfold extractNativePdfText. apply quiet_bind; [apply quiet_await|].
      intros tc. apply quiet_ret.
    + intros t. apply IH.
Qed.

Lemma quiet_parsePDF (file : Parser.File) : quiet (parsePDF file).
Proof.
  unfold parsePDF. destruct hasDocument; simpl; [|apply quiet_throw].
  apply quiet_bind; [apply quiet_await|]. intros buffer.
  apply quiet_bind; [apply quiet_await|]. intros doc.
  apply quiet_bind.
  - apply quiet_tryFinally; [apply quiet_readPages|].
    apply quiet_bind; [now apply quiet_emit|]. intros _.
    apply quiet_bind; [apply quiet_await|]. intros _.
    apply quiet_bind; [now apply quiet_emit|]. intros _.
    apply quiet_await.
  - intros texts.
    destruct (negb (JS.truthy (JS.trim (JS.join JS.newline texts))));
      [apply quiet_throw|apply quiet_ret].
Qed.

Lemma route_pdf (file : Parser.File) (ext : JS.jsstring) :
  JS.toLowerCase ext = JS.lit "pdf" -> route file ext = parsePDF file.
Proof. intros H. unfold route. rewrite H. reflexivity. Qed.

(** When every page loads and has no text, the loop leaves the list of
    page texts as it was. *)
Lemma readPages_blank (doc : PdfDocument) (remaining pageNumber : nat)
  (pageTexts : list JS.jsstring) (w : World) :
  (forall n, pageNumber <= n < pageNumber + remaining ->
     exists page items,
       getPage doc n = Resolved page
       /\ getTextContent page = Resolved items
       /\ nativeTextOf (match items with Some l => l | None => [] end) = []) ->
  readPages doc remaining pageNumber pageTexts w = (Resolved pageTexts, w).
Proof.
  revert pageNumber pageTexts.
  induction remaining as [|n IH]; intros pageNumber pageTexts H; simpl.
  - reflexivity.
  - destruct (H pageNumber ltac:(lia)) as [page [items [Hp [Hi Ht]]]].
    unfold bind at 1. unfold await at 1. rewrite Hp.
    unfold bind at 1. unfold extractNativePdfText, bind, await, ret.
    rewrite Hi, Ht. simpl.
    apply IH. intros k Hk. apply H. lia.
Qed.

(** C6. While [parse] handles a file whose extension is pdf (in any
    letter case), [createOcrWorker] is not called, whatever the libraries
    do.  If moreover the file passes validation, a document is there, the
    PDF opens, every page loads and yields no text once whitespace is
    normalized, and the document is released without error, then the
    result is the failure PARSE_ERROR with the message "No readable native
    text found in PDF". *)
Theorem pdf_never_creates_ocr_worker :
  forall (config : EnhancedFileParserConfig) (file : Parser.File) (w : World),
    JS.toLowerCase (getFileExtension (Parser.name file)) = JS.lit "pdf" ->
    ocrWorkerCalls (snd (parse config file w)) = ocrWorkerCalls w
    /\ (forall (buffer : list N) (doc : PdfDocument),
           Parser.isValid (validate config file) = true ->
           hasDocument = true ->
           fileArrayBuffer file = Resolved buffer ->
           pdfGetDocument buffer = Resolved doc ->
           (forall n, 1 <= n <= numPages doc ->
              exists page items,
                getPage doc n = Resolved page
                /\ getTextContent page = Resolved items
                /\ nativeTextOf (match items with Some l => l | None => [] end) = []) ->
           cleanup doc = Resolved tt ->
           destroy doc = Resolved tt ->
           exists d,
             fst (parse config file w)
             = Resolved
                 {| Parser.success := false;
                    Parser.content := None;
                    Parser.error :=
                      Some {| Parser.code := JS.lit "PARSE_ERROR";
                              Parser.message :=
                                JS.lit "No readable native text found in PDF";
                              Parser.details := d |} |}).
Proof.
  intros config file w Hext. split.
  - revert w. change (quiet (parse config file)). unfold parse.
    apply quiet_tryCatch; [|intros e; apply quiet_ret].
    destruct (negb (Parser.isValid (validate config file))); [apply quiet_ret|].
    apply quiet_bind; [|intros p; apply quiet_ret].
    rewrite (route_pdf file _ Hext). apply quiet_parsePDF.
  - intros buffer doc Hvalid Hdoc Hbuf Hget Hpages Hclean Hdestroy.
    assert (Hread : readPages doc (numPages doc) 1 [] w = (Resolved [], w))
      by (apply readPages_blank; intros n Hn; apply Hpages; lia).
    unfold parse, tryCatch, bind. rewrite Hvalid, (route_pdf file _ Hext).
    unfold parsePDF, bind, tryFinally, await, emit.
    rewrite Hdoc, Hbuf, Hget. cbn beta iota delta [negb].
    rewrite Hread, Hclean, Hdestroy. cbn.
    eexists. reflexivity.
Qed.

End ParserFacts.

Lemma pdf_never_creates_ocr_worker_witness :
  EnhancedFileParser.ocrWorkerCalls
    (snd (EnhancedFileParser.parse SampleLibraries.documents SampleLibraries.scan
            SampleLibraries.freshWorld))
  = 0
  /\ exists d,
      fst (EnhancedFileParser.parse SampleLibraries.documents SampleLibraries.scan
             SampleLibraries.freshWorld)
      = EnhancedFileParser.Resolved
          {| Parser.success := false;
             Parser.content := None;
             Parser.error :=
               Some {| Parser.code := JS.lit "PARSE_ERROR";
                       Parser.message := JS.lit "No readable native text found in PDF";
                       Parser.details := d |} |}.
Proof.
  assert (Hext : JS.toLowerCase
                   (EnhancedFileParser.getFileExtension
                      (Parser.name SampleLibraries.scan)) = JS.lit "pdf")
    by (vm_compute; reflexivity).
  destruct (pdf_never_creates_ocr_worker SampleLibraries.documents SampleLibraries.scan
              SampleLibraries.freshWorld Hext) as [Hquiet Hfail].
  split; [exact Hquiet|].
  apply (Hfail [] SampleLibraries.blankPdf); try reflexivity.
  intros n Hn. exists SampleLibraries.blankPage, (Some [Some (JS.lit "   ")]).
  repeat split; reflexivity.
Defined.

(** C3, at the failing input: a workbook whose first sheet has the header
    row Place, City and the data row Eiffel Tower is parsed with success
    into a table of two columns whose only row has one cell, so not every
    row has as many cells as there are columns. *)
Theorem parse_ragged_workbook :
  exists (c : Parser.FileContent) (w' : EnhancedFileParser.World),
    EnhancedFileParser.parse SampleLibraries.documents SampleLibraries.workbook
      SampleLibraries.freshWorld
    = (EnhancedFileParser.Resolved
         {| Parser.success := true; Parser.content := Some c; Parser.error := None |},
       w')
    /\ Types.columnCount (Parser.raw c) = 2
    /\ Types.rowCount (Parser.raw c) = 1
    /\ Types.rows (Parser.raw c) = [[Types.CString (JS.lit "Eiffel Tower")]]
    /\ ~ Vocabulary.rectangular (Parser.raw c).
Proof.
  eexists. eexists. split; [vm_compute; reflexivity|].
  split; [reflexivity|]. split; [reflexivity|]. split; [reflexivity|].
  intros H. inversion H as [|row rest Hrow Hrest]. discriminate Hrow.
Qed.

(** ** The metadata extractor *)

#[global] Existing Instance Samples.silentFuse.

Section HeaderFacts.
Import JS JSArray MetadataExtractor.

Lemma findIndexFrom_none {A} (p : A -> bool) (l : list A) (i : Z) :
  (forall x, In x l -> p x = false) -> findIndexFrom p l i = (-1)%Z.
Proof.
  revert i. induction l as [|x l IH]; intros i H; simpl; [reflexivity|].
  rewrite (H x (or_introl eq_refl)). apply IH. intros y Hy. apply H. now right.
Qed.

Lemma findIndexFrom_found {A} (p : A -> bool) (l : list A) (i : Z) :
  (exists x, In x l /\ p x = true) -> (i <= findIndexFrom p l i)%Z.
Proof.
  revert i. induction l as [|x l IH]; intros i [y [Hin Hy]]; [destruct Hin|].
  simpl. destruct (p x) eqn:Hx; [lia|].
  destruct Hin as [->|Hin]; [congruence|].
  specialize (IH (i + 1)%Z (ex_intro _ y (conj Hin Hy))). lia.
Qed.

(** What [findIndex] returns is the first index whose element passes. *)
Lemma findIndexFrom_first {A} (p : A -> bool) (l : list A) (i : Z) :
  (exists x, In x l /\ p x = true) ->
  exists n x,
    findIndexFrom p l i = (i + Z.of_nat n)%Z
    /\ nth_error l n = Some x /\ p x = true
    /\ forall m y, m < n -> nth_error l m = Some y -> p y = false.
Proof.
  revert i. induction l as [|a l IH]; intros i [y [Hin Hy]]; [destruct Hin|].
  simpl. destruct (p a) eqn:Ha.
  - exists 0, a. repeat split; [lia|exact Ha|]. intros m z Hm. lia.
  - destruct Hin as [->|Hin]; [congruence|].
    destruct (IH (i + 1)%Z (ex_intro _ y (conj Hin Hy))) as [n [x [E [Hn [Hx Hfirst]]]]].
    exists (S n), x. repeat split; [lia|exact Hn|exact Hx|].
    intros [|m] z Hm Hz; simpl in Hz.
    + congruence.
    + apply (Hfirst m z); [lia|exact Hz].
Qed.

Lemma findPriorityMatchFrom_spec (headers : list jsstring) :
  forall (priorities : list jsstring) (k : nat),
    ((forall p, In p priorities ->
        forall h, In h headers -> includes p h = false) ->
     findPriorityMatchFrom headers priorities k
     = {| index := -1; confidence := 0 |})
    /\ (forall i p,
          nth_error priorities i = Some p ->
          (forall j q, j < i -> nth_error priorities j = Some q ->
             forall h, In h headers -> includes q h = false) ->
          (exists h, In h headers /\ includes p h = true) ->
          ((exists h, In h headers /\ h = p) ->
           findPriorityMatchFrom headers priorities k
           = {| index := findIndex (fun h => eqb h p) headers;
                confidence := (0.96 - mathMin (ofNat (k + i) * 0.01) 0.1)%float |})
          /\ ((forall h, In h headers -> h <> p) ->
              findPriorityMatchFrom headers priorities k
              = {| index := findIndex (includes p) headers;
                   confidence :=
                     (0.88 - mathMin (ofNat (k + i) * 0.01) 0.1)%float |})).
Proof.
  induction priorities as [|q priorities IH]; intros k.
  - split; [reflexivity|]. intros [|i] p Hp; discriminate.
  - assert (Hskip :
      (forall h, In h headers -> includes q h = false) ->
      findPriorityMatchFrom headers (q :: priorities) k
      = findPriorityMatchFrom headers priorities (S k)).
    { intros Hno. simpl. unfold findIndex.
      rewrite findIndexFrom_none.
      - simpl. rewrite findIndexFrom_none by exact Hno. reflexivity.
      - intros h Hh. destruct (eqb h q) eqn:E; [|reflexivity].
        apply eqb_eq in E. subst h. rewrite <- (Hno q Hh). symmetry. apply includes_refl. }
    split.
    + intros Hno. rewrite Hskip by (intros h Hh; apply Hno; [now left|exact Hh]).
      apply IH. intros p Hp. apply Hno. now right.
    + intros [|i] p Hp Hearlier Hsome.
      * injection Hp as ->. rewrite Nat.add_0_r. split.
        -- intros Hexact. simpl.
           assert (Hfound : (0 <= findIndex (fun h => eqb h p) headers)%Z).
           { apply findIndexFrom_found. destruct Hexact as [h [Hh ->]].
             exists p. split; [exact Hh|apply eqb_refl]. }
           destruct (findIndex (fun h => eqb h p) headers =? -1)%Z eqn:E;
             [apply Z.eqb_eq in E; lia|reflexivity].
        -- intros Hnone. simpl. unfold findIndex at 1.
           rewrite findIndexFrom_none
             by (intros h Hh; apply eqb_neq; now apply Hnone).
           simpl.
           assert (Hfound : (0 <= findIndex (includes p) headers)%Z)
             by (apply findIndexFrom_found; exact Hsome).
           destruct (findIndex (includes p) headers =? -1)%Z eqn:E;
             [apply Z.eqb_eq in E; lia|reflexivity].
      * simpl in Hp.
        rewrite Hskip by (apply (Hearlier 0 q); [lia|reflexivity]).
        replace (k + S i) with (S k + i) by lia.
        apply (proj2 (IH (S k)) i p Hp); [|exact Hsome].
        intros j r Hj Hr. apply (Hearlier (S j) r); [lia|exact Hr].
Qed.

(** C5, amended. [findPriorityMatch] walks the priority list once.  A
    token that no header contains is passed over.  At the first token [p]
    (index [i]) that some header contains, the walk stops: if some header
    equals [p], the first such header is reported with score
    0.96 - min(i * 0.01, 0.1); if none does, the first header that
    contains [p] is reported with score 0.88 - min(i * 0.01, 0.1).  When
    no header contains any token, index -1 and score 0 are reported. *)
Theorem findPriorityMatch_first_token_wins :
  forall (headers priorities : list jsstring),
    ((forall p, In p priorities ->
        forall h, In h headers -> includes p h = false) ->
     findPriorityMatch headers priorities = {| index := -1; confidence := 0 |})
    /\ (forall i p,
          nth_error priorities i = Some p ->
          (forall j q, j < i -> nth_error priorities j = Some q ->
             forall h, In h headers -> includes q h = false) ->
          (exists h, In h headers /\ includes p h = true) ->
          ((exists h, In h headers /\ h = p) ->
           findPriorityMatch headers priorities
           = {| index := findIndex (fun h => eqb h p) headers;
                confidence := (0.96 - mathMin (ofNat i * 0.01) 0.1)%float |})
          /\ ((forall h, In h headers -> h <> p) ->
              findPriorityMatch headers priorities
              = {| index := findIndex (includes p) headers;
                   confidence := (0.88 - mathMin (ofNat i * 0.01) 0.1)%float |})).
Proof.
  intros headers priorities. unfold findPriorityMatch.
  exact (findPriorityMatchFrom_spec headers priorities 0).
Qed.

End HeaderFacts.

Lemma findPriorityMatch_first_token_wins_witness :
  MetadataExtractor.findPriorityMatch Samples.codeThenPlace
    MetadataExtractor.PLACE_PRIORITY
  = {| MetadataExtractor.index := 1;
       MetadataExtractor.confidence :=
         (0.96 - JSArray.mathMin (JS.ofNat 1 * 0.01) 0.1)%float |}.
Proof.
  apply (proj1 (proj2 (findPriorityMatch_first_token_wins Samples.codeThenPlace
                         MetadataExtractor.PLACE_PRIORITY)
                  1 (JS.lit "place") eq_refl
                  ltac:(intros [|j] q Hj Hq; [|lia]; injection Hq as <-;
                        intros h [<-|[<-|[]]]; vm_compute; reflexivity)
                  ltac:(exists (JS.lit "place"); split;
                        [right; left; reflexivity|vm_compute; reflexivity]))).
  exists (JS.lit "place"). split; [right; left; reflexivity|reflexivity].
Defined.

(** C5, as stated, fails: of the normalized headers place_name_id and
    place, the second equals the priority token place, yet the reported
    match is the first header, which equals no priority token, with the
    substring score of priority index 0. *)
Lemma findPriorityMatch_substring_beats_later_exact :
  (exists h p, In h Samples.idThenPlace
               /\ In p MetadataExtractor.PLACE_PRIORITY /\ h = p)
  /\ MetadataExtractor.findPriorityMatch Samples.idThenPlace
       MetadataExtractor.PLACE_PRIORITY
     = {| MetadataExtractor.index := 0;
          MetadataExtractor.confidence :=
            (0.88 - JSArray.mathMin (JS.ofNat 0 * 0.01) 0.1)%float |}
  /\ nth_error Samples.idThenPlace 0 = Some (JS.lit "place_name_id")
  /\ existsb (JS.eqb (JS.lit "place_name_id")) MetadataExtractor.PLACE_PRIORITY
     = false.
Proof.
  split.
  - exists (JS.lit "place"), (JS.lit "place"). split; [right; left; reflexivity|].
    split; [right; left; reflexivity|reflexivity].
  - repeat split; vm_compute; reflexivity.
Qed.

Section RowFacts.
Import JS JSArray Types MetadataExtractor Vocabulary.
Context {host : Host}.

Lemma fewerFirst_lt (left right : list cell) :
  fewerFirst left right = true
  <-> nonEmptyValueCount right < nonEmptyValueCount left.
Proof. unfold fewerFirst. rewrite Z.ltb_lt. lia. Qed.

(** The head of the stably sorted rows is the first of the fullest. *)
Lemma sorted_head_first_fullest (rows : list (list cell)) :
  rows <> [] ->
  exists i row,
    hd_error (sort fewerFirst rows) = Some row
    /\ nth_error rows i = Some row
    /\ (forall r, In r rows -> nonEmptyValueCount r <= nonEmptyValueCount row)
    /\ (forall j r, j < i -> nth_error rows j = Some r ->
          nonEmptyValueCount r < nonEmptyValueCount row).
Proof.
  induction rows as [|x rest IH]; intros Hne; [contradiction|].
  destruct rest as [|y rest'].
  - exists 0, x. simpl. repeat split.
    + intros r [<-|[]]. lia.
    + intros j r Hj. lia.
  - destruct (IH ltac:(discriminate)) as [i [best [Hhd [Hnth [Hmax Hfirst]]]]].
    change (sort fewerFirst (x :: y :: rest'))
      with (insertSorted fewerFirst x (sort fewerFirst (y :: rest'))).
    destruct (sort fewerFirst (y :: rest')) as [|top sorted] eqn:Hsorted;
      [discriminate|].
    simpl in Hhd. injection Hhd as ->.
    simpl insertSorted. destruct (fewerFirst best x) eqn:Hcmp.
    + apply fewerFirst_lt in Hcmp.
      exists (S i), best. repeat split.
      * exact Hnth.
      * intros r [<-|Hr]; [lia|now apply Hmax].
      * intros [|j] r Hj Hr; simpl in Hr.
        -- injection Hr as <-. exact Hcmp.
        -- apply (Hfirst j r); [lia|exact Hr].
    + assert (Hge : nonEmptyValueCount best <= nonEmptyValueCount x).
      { destruct (Nat.lt_ge_cases (nonEmptyValueCount x) (nonEmptyValueCount best))
          as [Hlt|Hge]; [|exact Hge].
        apply fewerFirst_lt in Hlt. congruence. }
      exists 0, x. repeat split.
      * intros r [<-|Hr]; [lia|]. specialize (Hmax r Hr). lia.
      * intros j r Hj. lia.
Qed.

End RowFacts.

(** C2, at the failing input: for the text of one line of three dashes
    the extractor reports no place name, yet a place confidence of 0.55,
    which is not 0. *)
Theorem extractMetadata_dash_line :
  MetadataExtractor.placeName
    (MetadataExtractor.extractMetadataFromContent
       (MetadataExtractor.Text (JS.lit "---"))) = []
  /\ MetadataExtractor.placeConfidence
       (MetadataExtractor.extractMetadataFromContent
          (MetadataExtractor.Text (JS.lit "---"))) = 0.55%float
  /\ PrimFloat.eqb 0.55 0 = false.
Proof. repeat split; vm_compute; reflexivity. Qed.

(** ** Cleaning a value *)

Lemma singleSpaced_tail (c : JS.codeunit) (t : JS.jsstring) :
  Vocabulary.singleSpaced (c :: t) = true -> Vocabulary.singleSpaced t = true.
Proof.
  simpl. destruct (JS.isWhiteSpace c); [|tauto].
  intros H. now apply andb_true_iff in H as [_ H].
Qed.

Section ListFacts.
Import JS Vocabulary.
Variable p : codeunit -> bool.

Lemma length_dropWhile (s : jsstring) : length (dropWhile p s) <= length s.
Proof.
  induction s as [|c t IH]; simpl; [lia|]. destruct (p c); simpl; lia.
Qed.

Lemma headIs_dropWhile (s : jsstring) : headIs p (dropWhile p s) = false.
Proof.
  induction s as [|c t IH]; simpl; [reflexivity|].
  destruct (p c) eqn:E; [exact IH|]. simpl. exact E.
Qed.

Lemma dropWhile_id (s : jsstring) : headIs p s = false -> dropWhile p s = s.
Proof. destruct s as [|c t]; simpl; [reflexivity|]. now intros ->. Qed.

Lemma dropWhileEnd_nil_iff (s : jsstring) :
  dropWhileEnd p s = [] <-> forallb p s = true.
Proof.
  induction s as [|c t IH]; simpl; [tauto|].
  destruct (dropWhileEnd p t) as [|x d] eqn:E.
  - destruct (p c); simpl.
    + rewrite <- IH. tauto.
    + split; discriminate.
  - split; [discriminate|]. intros H. apply andb_true_iff in H as [_ H].
    apply IH in H. discriminate.
Qed.

Lemma dropWhileEnd_cons (c : codeunit) (t : jsstring) :
  (p c && forallb p t)%bool = false ->
  dropWhileEnd p (c :: t) = c :: dropWhileEnd p t.
Proof.
  intros H. simpl. destruct (dropWhileEnd p t) as [|x d] eqn:E; [|reflexivity].
  apply dropWhileEnd_nil_iff in E. rewrite E, andb_true_r in H. now rewrite H.
Qed.

(** What is left keeps the first code unit. *)
Lemma dropWhileEnd_head (s : jsstring) (x : codeunit) (d : jsstring) :
  dropWhileEnd p s = x :: d -> exists t, s = x :: t.
Proof.
  destruct s as [|c t]; simpl; [discriminate|].
  destruct (dropWhileEnd p t) as [|y d'].
  - destruct (p c); [discriminate|]. intros H. injection H as <- _. eauto.
  - intros H. injection H as <- _. eauto.
Qed.

Lemma headIs_dropWhileEnd (q : codeunit -> bool) (s : jsstring) :
  headIs q s = false -> headIs q (dropWhileEnd p s) = false.
Proof.
  intros H. destruct (dropWhileEnd p s) as [|x d] eqn:E; [reflexivity|].
  apply dropWhileEnd_head in E as [t ->]. exact H.
Qed.

Lemma headIs_app (q : codeunit -> bool) (l m : jsstring) :
  l <> [] -> headIs q (l ++ m) = headIs q l.
Proof. destruct l; [contradiction|reflexivity]. Qed.

Lemma last_dropWhileEnd (s : jsstring) : headIs p (rev (dropWhileEnd p s)) = false.
Proof.
  induction s as [|c t IH]; simpl; [reflexivity|].
  destruct (dropWhileEnd p t) as [|x d] eqn:E.
  - destruct (p c) eqn:Hc; simpl; [reflexivity|exact Hc].
  - change (rev (c :: x :: d)) with (rev (x :: d) ++ [c]).
    rewrite headIs_app; [exact IH|].
    intros H. apply (f_equal (@length _)) in H.
    rewrite length_rev in H. discriminate.
Qed.

Lemma dropWhileEnd_id (s : jsstring) :
  headIs p (rev s) = false -> dropWhileEnd p s = s.
Proof.
  induction s as [|c t IH]; intros H; [reflexivity|].
  destruct t as [|x t'].
  - simpl in *. now rewrite H.
  - change (rev (c :: x :: t')) with (rev (x :: t') ++ [c]) in H.
    rewrite headIs_app in H.
    + change (dropWhileEnd p (c :: x :: t'))
        with (match dropWhileEnd p (x :: t') with
              | [] => if p c then [] else [c]
              | t0 => c :: t0
              end).
      now rewrite IH.
    + intros E. apply (f_equal (@length _)) in E.
      rewrite length_rev in E. discriminate.
Qed.

(** Stripping again, by a class that is no larger, changes nothing. *)
Lemma dropWhileEnd_again (q : codeunit -> bool) (s : jsstring) :
  (forall c, q c = true -> p c = true) ->
  dropWhileEnd q (dropWhileEnd p s) = dropWhileEnd p s.
Proof.
  intros Hsub. induction s as [|c t IH]; simpl; [reflexivity|].
  destruct (dropWhileEnd p t) as [|x d] eqn:E.
  - destruct (p c) eqn:Hc; simpl; [reflexivity|].
    destruct (q c) eqn:Hq; [|reflexivity]. apply Hsub in Hq. congruence.
  - simpl in *. rewrite IH. reflexivity.
Qed.

Lemma singleSpaced_dropWhile (s : jsstring) :
  singleSpaced s = true -> singleSpaced (dropWhile p s) = true.
Proof.
  induction s as [|c t IH]; intros H; simpl; [reflexivity|].
  destruct (p c); [|exact H]. apply IH. now apply singleSpaced_tail in H.
Qed.

Lemma singleSpaced_dropWhileEnd (s : jsstring) :
  singleSpaced s = true -> singleSpaced (dropWhileEnd p s) = true.
Proof.
  induction s as [|c t IH]; intros H; [reflexivity|].
  pose proof (singleSpaced_tail c t H) as Ht. specialize (IH Ht).
  simpl in H |- *.
  destruct (dropWhileEnd p t) as [|x d] eqn:E.
  - destruct (p c); [reflexivity|]. simpl.
    destruct (isWhiteSpace c); [|reflexivity].
    apply andb_true_iff in H as [H _]. apply andb_true_iff in H as [H _].
    now rewrite H.
  - apply dropWhileEnd_head in E as [t' ->].
    remember (x :: d) as xd. simpl.
    destruct (isWhiteSpace c); [|exact IH].
    apply andb_true_iff in H as [H _]. apply andb_true_iff in H as [H1 H2].
    subst xd. rewrite H1, IH. simpl headIs in *. now rewrite H2.
Qed.

End ListFacts.

Section EngineFacts.
Import JS Vocabulary.
Variable p : codeunit -> bool.

(** A greedy run of one class, followed by nothing, takes the longest
    run there is. *)
Lemma starLoop_class_accept (fuel : nat) :
  forall s, length (after s) <= fuel ->
    starLoop true (matcher (Char p)) Some fuel s
    = Some (MState (rev (takeWhile p (after s)) ++ before s)
                   (dropWhile p (after s)) (captures s)).
Proof.
  induction fuel as [|fuel IH]; intros [pre suf caps] H; simpl in H.
  - destruct suf; [reflexivity|simpl in H; lia].
  - destruct suf as [|c t]; [reflexivity|].
    simpl. destruct (p c) eqn:Hc; [|reflexivity].
    simpl. rewrite (proj2 (Nat.ltb_lt _ _) (Nat.lt_succ_diag_r _)).
    rewrite IH by (simpl in *; lia). simpl.
    now rewrite <- app_assoc.
Qed.

(** A greedy run of one class, followed by the end of the subject,
    matches when nothing but the class is left. *)
Lemma starLoop_class_end (fuel : nat) :
  forall s, length (after s) <= fuel ->
    starLoop true (matcher (Char p)) (matcher AssertEnd Some) fuel s
    = if forallb p (after s)
      then Some (MState (rev (after s) ++ before s) [] (captures s))
      else None.
Proof.
  induction fuel as [|fuel IH]; intros [pre suf caps] H; simpl in H.
  - destruct suf; [reflexivity|simpl in H; lia].
  - destruct suf as [|c t]; [reflexivity|].
    simpl. destruct (p c) eqn:Hc; [|reflexivity].
    simpl. rewrite (proj2 (Nat.ltb_lt _ _) (Nat.lt_succ_diag_r _)).
    rewrite IH by (simpl in *; lia). simpl.
    destruct (forallb p t); [|reflexivity]. simpl.
    now rewrite <- app_assoc.
Qed.

Lemma matchAt_run (pre suf : jsstring) :
  matchAt (Plus true (Char p)) pre suf
  = match suf with
    | c :: t =>
        if p c
        then Some (MState (rev (takeWhile p t) ++ c :: pre) (dropWhile p t) [])
        else None
    | [] => None
    end.
Proof.
  unfold matchAt, Plus. simpl. destruct suf as [|c t]; [reflexivity|].
  destruct (p c); [|reflexivity].
  now rewrite starLoop_class_accept by (simpl; lia).
Qed.

Lemma matchAt_run_end (pre suf : jsstring) :
  matchAt (Seq (Plus true (Char p)) AssertEnd) pre suf
  = match suf with
    | c :: t =>
        if (p c && forallb p t)%bool
        then Some (MState (rev t ++ c :: pre) [] [])
        else None
    | [] => None
    end.
Proof.
  unfold matchAt, Plus. simpl. destruct suf as [|c t]; [reflexivity|].
  destruct (p c); [|reflexivity].
  now rewrite starLoop_class_end by (simpl; lia).
Qed.

Lemma matchAt_start_run (pre suf : jsstring) :
  matchAt (Seq AssertStart (Plus true (Char p))) pre suf
  = match pre with
    | [] => matchAt (Plus true (Char p)) [] suf
    | _ => None
    end.
Proof. unfold matchAt. simpl. destruct pre; reflexivity. Qed.

End EngineFacts.

Section CleanFacts.
Import JS MetadataExtractor Vocabulary.

Lemma replaceLoop_step (r : regex) (rep : jsstring) (fuel : nat)
  (pre suf : jsstring) :
  replaceLoop r rep (S fuel) pre suf
  = match matchAt r pre suf with
    | Some m =>
        if Nat.ltb (length (after m)) (length suf)
        then rep ++ replaceLoop r rep fuel (before m) (after m)
        else rep ++ match suf with
                    | [] => []
                    | c :: t => c :: replaceLoop r rep fuel (c :: pre) t
                    end
    | None =>
        match suf with
        | [] => []
        | c :: t => c :: replaceLoop r rep fuel (c :: pre) t
        end
    end.
Proof. reflexivity. Qed.

Lemma collapse_in_run (t : jsstring) :
  collapseFrom true t = collapseFrom false (dropWhile isWhiteSpace t).
Proof.
  induction t as [|c t IH]; simpl; [reflexivity|].
  destruct (isWhiteSpace c) eqn:E; [exact IH|]. simpl. now rewrite E.
Qed.

(** Replacing every run of whitespace by one space. *)
Lemma replaceLoop_whitespaceRun (fuel : nat) :
  forall pre suf, length suf < fuel ->
    replaceLoop whitespaceRun (lit " ") fuel pre suf = collapseFrom false suf.
Proof.
  induction fuel as [|fuel IH]; intros pre suf H; [lia|].
  rewrite replaceLoop_step. unfold whitespaceRun, ws at 1. rewrite matchAt_run.
  destruct suf as [|c t]; [reflexivity|].
  simpl in H. simpl collapseFrom. destruct (isWhiteSpace c) eqn:E.
  - simpl after. simpl before.
    pose proof (length_dropWhile isWhiteSpace t) as Hlen.
    rewrite (proj2 (Nat.ltb_lt _ _)) by (simpl; lia).
    fold ws. fold whitespaceRun. rewrite IH by lia.
    simpl. now rewrite collapse_in_run.
  - fold ws. fold whitespaceRun. rewrite IH by lia. reflexivity.
Qed.

Lemma replaceAll_whitespaceRun (s : jsstring) :
  replaceAll whitespaceRun (lit " ") s = collapseFrom false s.
Proof. unfold replaceAll. apply replaceLoop_whitespaceRun. lia. Qed.

Lemma matchAt_edgeRuns_start (suf : jsstring) :
  matchAt edgeRuns [] suf
  = match suf with
    | c :: t =>
        if isEdgeChar c
        then Some (MState (rev (Vocabulary.takeWhile isEdgeChar t) ++ [c])
                          (dropWhile isEdgeChar t) [])
        else None
    | [] => None
    end.
Proof.
  unfold edgeRuns.
  change (matchAt (Alt ?a ?b) ?pre ?s) with (orElse (matchAt a pre s) (matchAt b pre s)).
  rewrite matchAt_start_run, matchAt_run, matchAt_run_end.
  destruct suf as [|c t]; [reflexivity|].
  destruct (isEdgeChar c); reflexivity.
Qed.

Lemma matchAt_edgeRuns_inner (a : codeunit) (pre suf : jsstring) :
  matchAt edgeRuns (a :: pre) suf
  = match suf with
    | c :: t =>
        if (isEdgeChar c && forallb isEdgeChar t)%bool
        then Some (MState (rev t ++ c :: a :: pre) [] [])
        else None
    | [] => None
    end.
Proof.
  unfold edgeRuns.
  change (matchAt (Alt ?x ?y) ?q ?s) with (orElse (matchAt x q s) (matchAt y q s)).
  rewrite matchAt_start_run, matchAt_run_end. reflexivity.
Qed.

Lemma replaceLoop_edgeRuns_end (fuel : nat) (a : codeunit) (pre : jsstring) :
  replaceLoop edgeRuns [] fuel (a :: pre) [] = [].
Proof.
  destruct fuel; [reflexivity|]. rewrite replaceLoop_step.
  now rewrite matchAt_edgeRuns_inner.
Qed.

(** Past the start of the subject only the trailing run is removed. *)
Lemma replaceLoop_edgeRuns_inner (fuel : nat) :
  forall a pre suf, length suf < fuel ->
    replaceLoop edgeRuns [] fuel (a :: pre) suf = dropWhileEnd isEdgeChar suf.
Proof.
  induction fuel as [|fuel IH]; intros a pre suf H; [lia|].
  rewrite replaceLoop_step, matchAt_edgeRuns_inner.
  destruct suf as [|c t]; [reflexivity|]. simpl in H.
  destruct (isEdgeChar c && forallb isEdgeChar t)%bool eqn:E.
  - simpl after. simpl before. simpl length.
    change (Nat.ltb 0 (S (length t))) with true. cbv iota.
    assert (Hrev : exists b q, rev t ++ c :: a :: pre = b :: q).
    { destruct (rev t ++ c :: a :: pre) as [|b q] eqn:Hq; [|eauto].
      apply (f_equal (@length _)) in Hq. rewrite length_app in Hq.
      simpl in Hq. lia. }
    destruct Hrev as [b [q ->]]. rewrite replaceLoop_edgeRuns_end.
    symmetry. apply dropWhileEnd_nil_iff. exact E.
  - rewrite IH by lia. symmetry. now apply dropWhileEnd_cons.
Qed.

(** Removing the leading and the trailing run of colons, dashes and
    whitespace. *)
Lemma replaceAll_edgeRuns (s : jsstring) :
  replaceAll edgeRuns [] s = dropWhileEnd isEdgeChar (dropWhile isEdgeChar s).
Proof.
  unfold replaceAll. rewrite replaceLoop_step, matchAt_edgeRuns_start.
  destruct s as [|c t]; [reflexivity|].
  simpl dropWhile. destruct (isEdgeChar c) eqn:E.
  - simpl after. simpl before.
    pose proof (length_dropWhile isEdgeChar t) as Hlen.
    rewrite (proj2 (Nat.ltb_lt _ _)) by (simpl; lia).
    assert (Hrev : exists b q,
               rev (Vocabulary.takeWhile isEdgeChar t) ++ [c] = b :: q).
    { destruct (rev (Vocabulary.takeWhile isEdgeChar t) ++ [c]) as [|b q] eqn:Hq;
        [|eauto].
      apply (f_equal (@length _)) in Hq. rewrite length_app in Hq.
      simpl in Hq. lia. }
    destruct Hrev as [b [q ->]].
    now rewrite replaceLoop_edgeRuns_inner by (simpl; lia).
  - rewrite replaceLoop_edgeRuns_inner by (simpl; lia).
    symmetry. apply dropWhileEnd_cons. now rewrite E.
Qed.

Lemma whitespace_is_edge (c : codeunit) :
  isWhiteSpace c = true -> isEdgeChar c = true.
Proof. intros H. unfold isEdgeChar. rewrite H. apply orb_true_r. Qed.

Lemma headIs_weaken (s : jsstring) :
  headIs isEdgeChar s = false -> headIs isWhiteSpace s = false.
Proof.
  destruct s as [|c t]; simpl; [reflexivity|].
  intros H. destruct (isWhiteSpace c) eqn:E; [|reflexivity].
  apply whitespace_is_edge in E. congruence.
Qed.

(** What [cleanValue] computes, without the patterns. *)
Lemma cleanValue_eq (value : jsstring) :
  cleanValue value
  = dropWhileEnd isEdgeChar (dropWhile isEdgeChar (collapseFrom false value)).
Proof.
  unfold cleanValue. rewrite replaceAll_whitespaceRun, replaceAll_edgeRuns.
  unfold trim.
  rewrite dropWhile_id.
  - apply dropWhileEnd_again. exact whitespace_is_edge.
  - apply headIs_weaken, headIs_dropWhileEnd, headIs_dropWhile.
Qed.

Lemma singleSpaced_collapse (inRun : bool) (s : jsstring) :
  singleSpaced (collapseFrom inRun s) = true
  /\ (inRun = true -> headIs isWhiteSpace (collapseFrom inRun s) = false).
Proof.
  revert inRun. induction s as [|c t IH]; intros inRun; simpl; [tauto|].
  destruct (isWhiteSpace c) eqn:E.
  - destruct inRun.
    + apply IH.
    + split; [|discriminate]. destruct (IH true) as [H1 H2].
      simpl. now rewrite H1, H2.
  - split.
    + simpl. rewrite E. apply IH.
    + intros _. simpl. exact E.
Qed.

Lemma collapse_singleSpaced (s : jsstring) :
  singleSpaced s = true -> collapseFrom false s = s.
Proof.
  induction s as [|c t IH]; intros H; simpl; [reflexivity|].
  pose proof (singleSpaced_tail c t H) as Ht.
  simpl in H. destruct (isWhiteSpace c).
  - apply andb_true_iff in H as [H _]. apply andb_true_iff in H as [H1 H2].
    apply N.eqb_eq in H1. apply negb_true_iff in H2.
    rewrite collapse_in_run, dropWhile_id by exact H2.
    rewrite IH by exact Ht. now rewrite H1.
  - now rewrite IH.
Qed.

Lemma clean_nil : clean [].
Proof. repeat split. Qed.

Lemma clean_cleanValue (value : jsstring) : clean (cleanValue value).
Proof.
  rewrite cleanValue_eq. repeat split.
  - apply headIs_dropWhileEnd, headIs_dropWhile.
  - apply last_dropWhileEnd.
  - apply singleSpaced_dropWhileEnd, singleSpaced_dropWhile, singleSpaced_collapse.
Qed.

Lemma cleanValue_of_clean (s : jsstring) : clean s -> cleanValue s = s.
Proof.
  intros [Hhead [Hlast Hspaced]]. rewrite cleanValue_eq.
  rewrite collapse_singleSpaced by exact Hspaced.
  rewrite dropWhile_id by exact Hhead.
  now apply dropWhileEnd_id.
Qed.

End CleanFacts.

Section FieldFacts.
Import JS Types MetadataExtractor Vocabulary.
Context {host : Host} {fuse : FieldMatcher.Fuse}.

Lemma clean_readValueFromRow (row : list cell) (i : Z) :
  clean (readValueFromRow row i).
Proof.
  unfold readValueFromRow.
  destruct ((i <? 0)%Z || (i >=? Z.of_nat (length row))%Z)%bool;
    [apply clean_nil|apply clean_cleanValue].
Qed.

Lemma clean_extractFromTableData (data : ParsedTableData) :
  clean (placeName (extractFromTableData data))
  /\ clean (location (extractFromTableData data)).
Proof.
  unfold extractFromTableData.
  destruct ((length (headers data) =? 0)%nat || (length (rows data) =? 0)%nat)%bool;
    [split; apply clean_nil|].
  destruct (getBestDataRow (rows data)); [|split; apply clean_nil].
  split; apply clean_readValueFromRow.
Qed.

Lemma clean_labelled (pattern : regex) (line current : jsstring) (c : float) :
  clean current -> clean (fst (labelled pattern line current c)).
Proof.
  intros H. unfold labelled.
  destruct (negb (truthy current)); [|exact H].
  destruct (groupTruthy 1 (exec pattern line)); [|exact H].
  apply clean_cleanValue.
Qed.

Lemma clean_scanLines (lines : list jsstring) :
  forall acc,
    clean (placeName acc) -> clean (location acc) ->
    match scanLines lines acc with
    | Returned r => clean (placeName r) /\ strippedClean (location r)
    | Fell r => clean (placeName r) /\ clean (location r)
    end.
Proof.
  induction lines as [|line later IH]; intros acc Hp Hl; simpl; [tauto|].
  destruct (groupTruthy 1 (exec PLACE_LOCATION_INLINE_PATTERN line)
            && groupTruthy 2 (exec PLACE_LOCATION_INLINE_PATTERN line)
            && truthy (cleanValue (groupOr 1 (exec PLACE_LOCATION_INLINE_PATTERN line)))
            && truthy
                 (trim
                    (replaceAll trailingSymbols []
                       (cleanValue
                          (groupOr 2 (exec PLACE_LOCATION_INLINE_PATTERN line))))))%bool.
  - simpl. split; [apply clean_cleanValue|]. eexists. reflexivity.
  - pose proof (clean_labelled LINE_PREFIX_place line (placeName acc)
                  (placeConfidence acc) Hp) as Hp'.
    pose proof (clean_labelled LINE_PREFIX_location line (location acc)
                  (locationConfidence acc) Hl) as Hl'.
    destruct (labelled LINE_PREFIX_place line (placeName acc) (placeConfidence acc))
      as [place placeC].
    destruct (labelled LINE_PREFIX_location line (location acc)
                (locationConfidence acc)) as [loc locC].
    simpl in Hp', Hl'.
    destruct (truthy place && truthy loc)%bool.
    + simpl. tauto.
    + apply IH; assumption.
Qed.

Lemma clean_extractFromText (text : jsstring) :
  clean (placeName (extractFromText text))
  /\ (clean (location (extractFromText text))
      \/ strippedClean (location (extractFromText text))).
Proof.
  unfold extractFromText.
  pose proof (clean_scanLines (linesOf text) emptyResult clean_nil clean_nil) as H.
  destruct (scanLines (linesOf text) emptyResult) as [r|acc].
  - tauto.
  - destruct H as [Hp Hl].
    assert (Hplace : clean
              (fst (if negb (truthy (placeName acc))
                    then match find isLikelyPlaceName (linesOf text) with
                         | Some likelyPlace =>
                             if truthy likelyPlace
                             then (cleanValue likelyPlace, 0.55%float)
                             else (placeName acc, placeConfidence acc)
                         | None => (placeName acc, placeConfidence acc)
                         end
                    else (placeName acc, placeConfidence acc)))).
    { destruct (negb (truthy (placeName acc))); [|exact Hp].
      destruct (find isLikelyPlaceName (linesOf text)) as [l|]; [|exact Hp].
      destruct (truthy l); [apply clean_cleanValue|exact Hp]. }
    assert (Hloc : clean
              (fst (if negb (truthy (location acc))
                    then match find isLikelyLocation (linesOf text) with
                         | Some likelyLocation =>
                             if truthy likelyLocation
                             then (cleanValue likelyLocation, 0.55%float)
                             else (location acc, locationConfidence acc)
                         | None => (location acc, locationConfidence acc)
                         end
                    else (location acc, locationConfidence acc)))).
    { destruct (negb (truthy (location acc))); [|exact Hl].
      destruct (find isLikelyLocation (linesOf text)) as [l|]; [|exact Hl].
      destruct (truthy l); [apply clean_cleanValue|exact Hl]. }
    destruct (if negb (truthy (placeName acc)) then _ else _) as [place placeC].
    destruct (if negb (truthy (location acc)) then _ else _) as [loc locC].
    simpl in *. tauto.
Qed.

(** What the scan returns at once is the result of an arrow line. *)
Lemma scanLines_returned (lines : list jsstring) :
  forall acc r,
    scanLines lines acc = Returned r ->
    exists line, In line lines /\ arrowResult line r.
Proof.
  induction lines as [|line later IH]; intros acc r; cbn [scanLines];
    [discriminate|].
  destruct (groupTruthy 1 (exec PLACE_LOCATION_INLINE_PATTERN line)) eqn:G1;
    cbn [andb].
  - destruct (groupTruthy 2 (exec PLACE_LOCATION_INLINE_PATTERN line)) eqn:G2;
      cbn [andb].
    + destruct (truthy (cleanValue _) && truthy (trim _))%bool.
      * intros [= <-]. exists line. split; [now left|].
        unfold arrowResult. cbv zeta. rewrite G1, G2. repeat split.
      * destruct (labelled LINE_PREFIX_place line _ _) as [place placeC].
        destruct (labelled LINE_PREFIX_location line _ _) as [loc locC].
        destruct (truthy place && truthy loc)%bool; [discriminate|].
        intros H. destruct (IH _ _ H) as [l [Hl Ha]]. exists l. split; [now right|exact Ha].
    + destruct (labelled LINE_PREFIX_place line _ _) as [place placeC].
      destruct (labelled LINE_PREFIX_location line _ _) as [loc locC].
      destruct (truthy place && truthy loc)%bool; [discriminate|].
      intros H. destruct (IH _ _ H) as [l [Hl Ha]]. exists l. split; [now right|exact Ha].
  - destruct (labelled LINE_PREFIX_place line _ _) as [place placeC].
    destruct (labelled LINE_PREFIX_location line _ _) as [loc locC].
    destruct (truthy place && truthy loc)%bool; [discriminate|].
    intros H. destruct (IH _ _ H) as [l [Hl Ha]]. exists l. split; [now right|exact Ha].
Qed.

Lemma clean_or_arrow_extractFromText (text : jsstring) :
  clean (placeName (extractFromText text))
  /\ (clean (location (extractFromText text))
      \/ exists line,
           In line (linesOf text) /\ arrowResult line (extractFromText text)).
Proof.
  destruct (clean_extractFromText text) as [Hp Hl]. split; [exact Hp|].
  unfold extractFromText in *.
  pose proof (clean_scanLines (linesOf text) emptyResult clean_nil clean_nil) as H.
  destruct (scanLines (linesOf text) emptyResult) as [r|acc] eqn:E.
  - right. now apply (scanLines_returned (linesOf text) emptyResult r).
  - left. destruct H as [_ Hacc].
    destruct (if negb (truthy (placeName acc)) then _ else _) as [place placeC].
    destruct (negb (truthy (location acc))).
    + destruct (find isLikelyLocation (linesOf text)) as [l|]; [|exact Hacc].
      destruct (truthy l); [apply clean_cleanValue|exact Hacc].
    + exact Hacc.
Qed.

(** C10, amended. [cleanValue] is idempotent, and every value it returns
    has single spaces inside and neither starts nor ends with a colon, a
    dash or whitespace.  Consequently every extracted place name is of
    that form, and so is every extracted location, except the one taken
    from an arrow line: a location that is not of that form belongs to a
    result that the scan of a text returned for a line matching the arrow
    pattern, and is the cleaned right side of that line with its trailing
    symbols stripped afterwards. *)
Theorem cleanValue_idempotent :
  (forall s, cleanValue (cleanValue s) = cleanValue s)
  /\ (forall s, clean (cleanValue s))
  /\ (forall c : content, clean (placeName (extractMetadataFromContent c)))
  /\ (forall data : ParsedTableData,
        clean (location (extractFromTableData data)))
  /\ (forall text : jsstring,
        clean (location (extractFromText text))
        \/ exists line,
             In line (linesOf text) /\ arrowResult line (extractFromText text))
  /\ (forall c : content,
        clean (location (extractMetadataFromContent c))
        \/ exists text line,
             extractMetadataFromContent c = extractFromText text
             /\ In line (linesOf text)
             /\ arrowResult line (extractMetadataFromContent c)).
Proof.
  split; [|split; [|split; [|split; [|split]]]].
  - intros s. apply cleanValue_of_clean, clean_cleanValue.
  - apply clean_cleanValue.
  - intros [data|s|first|r|]; cbn [extractMetadataFromContent].
    + destruct (_ || _)%bool; [apply clean_extractFromTableData|].
      destruct (ocrText data) as [[|t ts]|]; apply clean_extractFromText.
    + apply clean_extractFromText.
    + apply clean_extractFromTableData.
    + apply clean_extractFromTableData.
    + apply clean_nil.
  - intros data. apply clean_extractFromTableData.
  - intros text. apply clean_or_arrow_extractFromText.
  - assert (Ht : forall text,
        clean (location (extractFromText text))
        \/ exists text' line,
             extractFromText text = extractFromText text'
             /\ In line (linesOf text')
             /\ arrowResult line (extractFromText text)).
    { intros text.
      destruct (clean_or_arrow_extractFromText text) as [_ [H|[l [Hl Ha]]]];
        [now left|right]. exists text, l. now split. }
    intros [data|s|first|r|]; cbn [extractMetadataFromContent].
    + destruct (_ || _)%bool; [left; apply clean_extractFromTableData|].
      destruct (ocrText data) as [[|t ts]|]; apply Ht.
    + apply Ht.
    + left. apply clean_extractFromTableData.
    + left. apply clean_extractFromTableData.
    + left. apply clean_nil.
Qed.

End FieldFacts.

(** C10, as stated, fails in its consequence: from the line
    "Eiffel -> Paris -!" the extracted location is "Paris -", which is not
    empty and ends with a dash. *)
Lemma inline_location_keeps_trailing_dash :
  MetadataExtractor.location
    (MetadataExtractor.extractMetadataFromContent
       (MetadataExtractor.Text (JS.lit "Eiffel -> Paris -!")))
  = JS.lit "Paris -"
  /\ JS.headIs MetadataExtractor.isEdgeChar (rev (JS.lit "Paris -")) = true
  /\ JS.headIs (JS.only 45) (rev (JS.lit "Paris -")) = true.
Proof. repeat split; vm_compute; reflexivity. Qed.

(** ** The shape of the tables *)

Section ShapeFacts.
Import JS Types Parser EnhancedFileParser Vocabulary.
Context {host : Host} {libs : Libraries}.

Lemma produces_ret {A} (a : A) (P : A -> Prop) : P a -> produces (ret a) P.
Proof. intros H w b w' E. injection E as <- _. exact H. Qed.

Lemma produces_throw {A} (e : thrown) (P : A -> Prop) : produces (throw e) P.
Proof. intros w b w' E. discriminate. Qed.

Lemma produces_await {A} (o : outcome A) (P : A -> Prop) :
  (forall a, o = Resolved a -> P a) -> produces (await o) P.
Proof. intros H w b w' E. injection E as E _. now apply H. Qed.

Lemma produces_bind {A B} (m : M A) (k : A -> M B) (P : B -> Prop) :
  (forall a, produces (k a) P) -> produces (bind m k) P.
Proof.
  intros H w b w' E. unfold bind in E.
  destruct (m w) as [[a|e] w1]; [|discriminate]. exact (H a w1 b w' E).
Qed.

Lemma produces_tryFinally {A} (body : M A) (fin : M unit) (P : A -> Prop) :
  produces body P -> produces (tryFinally body fin) P.
Proof.
  intros H w b w' E. unfold tryFinally in E.
  destruct (body w) as [r w1] eqn:Eb.
  destruct (fin w1) as [[u|e] w2]; [|discriminate].
  injection E as -> _. exact (H w b w1 Eb).
Qed.

Lemma mapM_Forall {A B} (f : A -> outcome B) (P : B -> Prop) (xs : list A) :
  (forall x y, f x = Resolved y -> P y) ->
  forall ys, mapM f xs = Resolved ys -> Forall P ys.
Proof.
  intros Hf. induction xs as [|x xs IH]; intros ys E; simpl in E.
  - injection E as <-. constructor.
  - destruct (f x) as [y|e] eqn:Ex; [|discriminate].
    destruct (mapM f xs) as [ys'|e]; [|discriminate].
    injection E as <-. constructor; [exact (Hf x y Ex)|now apply IH].
Qed.

Lemma mapM_length {A B} (f : A -> outcome B) (xs : list A) :
  forall ys, mapM f xs = Resolved ys -> length ys = length xs.
Proof.
  induction xs as [|x xs IH]; intros ys E; simpl in E.
  - now injection E as <-.
  - destruct (f x) as [y|e]; [|discriminate].
    destruct (mapM f xs) as [ys'|e]; [|discriminate].
    injection E as <-. simpl. now rewrite (IH ys').
Qed.

Lemma shape_createTextData (text : jsstring) (source : SourceType) :
  counted (createTextData text source) /\ rectangular (createTextData text source).
Proof.
  unfold counted, rectangular, createTextData. simpl. split.
  - now rewrite length_map.
  - apply Forall_forall. intros row Hrow.
    apply in_map_iff in Hrow as [line [<- _]]. reflexivity.
Qed.

Lemma shape_tableOf (first : value) (items : list value) :
  forall t, tableOf first items = Resolved t -> counted t /\ rectangular t.
Proof.
  intros t E. unfold tableOf in E.
  destruct (keys first) as [hs|e]; [|discriminate].
  destruct (mapM _ items) as [rs|e] eqn:Erows; [|discriminate].
  injection E as <-. unfold counted, rectangular. simpl. split; [reflexivity|].
  refine (mapM_Forall _ _ items _ rs Erows).
  intros obj row Hrow. exact (mapM_length _ hs row Hrow).
Qed.

Lemma shape_parseCSV (file : File) : produces (parseCSV file) shaped.
Proof.
  unfold parseCSV. apply produces_bind. intros [results|message];
    [|apply produces_throw].
  apply produces_ret. unfold shaped, counted, rectangular. simpl.
  split; [reflexivity|].
  apply Forall_forall. intros row Hrow.
  apply in_map_iff in Hrow as [r [<- _]]. apply length_map.
Qed.

Lemma shape_parseText (file : File) : produces (parseText file) shaped.
Proof.
  unfold parseText. apply produces_bind. intros text.
  apply produces_ret, shape_createTextData.
Qed.

Lemma shape_parsePDF (file : File) : produces (parsePDF file) shaped.
Proof.
  unfold parsePDF. destruct (negb hasDocument); [apply produces_throw|].
  apply produces_bind. intros buffer. apply produces_bind. intros doc.
  apply produces_bind. intros texts.
  destruct (negb (truthy (trim (join newline texts))));
    [apply produces_throw|apply produces_ret, shape_createTextData].
Qed.

Lemma shape_parseImage (file : File) : produces (parseImage file) shaped.
Proof.
  unfold parseImage. apply produces_bind. intros worker.
  apply produces_tryFinally. apply produces_bind. intros _.
  apply produces_bind. intros recognized.
  destruct (negb (truthy match recognized with Some t => trim t | None => [] end));
    [apply produces_throw|apply produces_ret, shape_createTextData].
Qed.

Lemma shape_parseJSON (file : File) : produces (parseJSON file) shaped.
Proof.
  unfold parseJSON. apply produces_bind. intros text.
  apply produces_bind. intros data.
  destruct (arrayOfObjects data) as [[first items]|].
  - apply produces_await. apply shape_tableOf.
  - apply produces_bind. intros ks. apply produces_bind.
    intros [[[|k key] [first nested]]|].
    + destruct data; try apply produces_throw.
      apply produces_ret. unfold shaped, counted, rectangular. simpl.
      split; [reflexivity|]. constructor; [|constructor].
      now rewrite !length_map.
    + apply produces_await. apply shape_tableOf.
    + destruct data; try apply produces_throw.
      apply produces_ret. unfold shaped, counted, rectangular. simpl.
      split; [reflexivity|]. constructor; [|constructor].
      now rewrite !length_map.
Qed.

Lemma shape_parseExcel (file : File) : produces (parseExcel file) counted.
Proof.
  unfold parseExcel. apply produces_bind. intros buffer.
  apply produces_bind. intros [|first others]; [apply produces_throw|].
  apply produces_ret. reflexivity.
Qed.

(** Whatever [parse] hands over with success has a row count equal to the
    number of its rows; and unless the extension routed the file to the
    spreadsheet extractor, every row has as many cells as there are
    columns. *)
Lemma parse_success_shape (config : EnhancedFileParserConfig) (file : File)
  (w w' : World) (r : ParseResult) :
  parse config file w = (Resolved r, w') ->
  success r = true ->
  exists c,
    content r = Some c
    /\ counted (raw c)
    /\ (isOneOf (toLowerCase (getFileExtension (name file))) ["xlsx"; "xls"]%string
        = false ->
        rectangular (raw c)).
Proof.
  unfold parse, tryCatch. intros E Hs.
  destruct (negb (isValid (validate config file))).
  - injection E as <- _. discriminate.
  - unfold bind in E.
    destruct (route file (getFileExtension (name file)) w) as [[t|e] w1] eqn:Er.
    + injection E as <- _. exists {| raw := t; metadata := extractMetadata file |}.
      split; [reflexivity|]. cbn [raw]. unfold route in Er.
      destruct (isOneOf _ ["csv"%string]).
      { destruct (shape_parseCSV file w t w1 Er). tauto. }
      destruct (isOneOf _ ["xlsx"; "xls"]%string).
      { split; [exact (shape_parseExcel file w t w1 Er)|intros H; discriminate H]. }
      destruct (isOneOf _ ["pdf"%string]).
      { destruct (shape_parsePDF file w t w1 Er). tauto. }
      destruct (isOneOf _ ["json"%string]).
      { destruct (shape_parseJSON file w t w1 Er). tauto. }
      destruct (isOneOf _ ["txt"%string]).
      { destruct (shape_parseText file w t w1 Er). tauto. }
      destruct (isOneOf _ ["png"; "jpg"; "jpeg"; "webp"; "gif"]%string).
      { destruct (shape_parseImage file w t w1 Er). tauto. }
      discriminate.
    + injection E as <- _. discriminate.
Qed.

End ShapeFacts.

(** ** Workers, documents and the script of the OCR engine *)

Section ResourceFacts.
Import JS Types Parser EnhancedFileParser Vocabulary.
Context {host : Host} {libs : Libraries}.

Lemma quiet_parseCSV (file : File) : quiet (parseCSV file).
Proof.
  unfold parseCSV. apply quiet_bind; [apply quiet_await|].
  intros [results|message]; [apply quiet_ret|apply quiet_throw].
Qed.

Lemma quiet_parseExcel (file : File) : quiet (parseExcel file).
Proof.
  unfold parseExcel. apply quiet_bind; [apply quiet_await|]. intros buffer.
  apply quiet_bind; [apply quiet_await|].
  intros [|first others]; [apply quiet_throw|apply quiet_ret].
Qed.

Lemma quiet_parseText (file : File) : quiet (parseText file).
Proof.
  unfold parseText. apply quiet_bind; [apply quiet_await|]. intros text.
  apply quiet_ret.
Qed.

Lemma quiet_parseJSON (file : File) : quiet (parseJSON file).
Proof.
  unfold parseJSON. apply quiet_bind; [apply quiet_await|]. intros text.
  apply quiet_bind; [apply quiet_await|]. intros data.
  destruct (arrayOfObjects data) as [[first items]|]; [apply quiet_await|].
  apply quiet_bind; [apply quiet_await|]. intros ks.
  apply quiet_bind; [apply quiet_await|].
  intros [[[|k key] [first nested]]|];
    try apply quiet_await;
    destruct data; try apply quiet_throw; apply quiet_ret.
Qed.

Lemma loadTesseract_calls (w : World) :
  ocrWorkerCalls (snd (loadTesseract w)) = ocrWorkerCalls w.
Proof.
  unfold loadTesseract. destruct (windowTesseract w); [reflexivity|].
  destruct (tesseractLoaderPromise w); [reflexivity|].
  destruct (negb hasDocument); reflexivity.
Qed.

Lemma createOcrWorker_calls (w : World) :
  ocrWorkerCalls (snd (createOcrWorker w)) = S (ocrWorkerCalls w).
Proof.
  unfold createOcrWorker, bind, emit. cbn beta iota.
  destruct (negb hasWindow); [reflexivity|].
  match goal with
  | |- context [loadTesseract ?w0] =>
      pose proof (loadTesseract_calls w0) as H;
      destruct (loadTesseract w0) as [[u|e] w1]
  end; simpl in H |- *; rewrite H; reflexivity.
Qed.

Lemma parseImage_calls (file : File) (w : World) :
  ocrWorkerCalls (snd (parseImage file w)) = S (ocrWorkerCalls w).
Proof.
  unfold parseImage, bind at 1.
  pose proof (createOcrWorker_calls w) as H.
  destruct (createOcrWorker w) as [[worker|e] w1]; simpl in H; [|exact H].
  rewrite <- H.
  apply (quiet_tryFinally _ _).
  - apply quiet_bind; [now apply quiet_emit|]. intros _.
    apply quiet_bind; [apply quiet_await|]. intros recognized.
    destruct (negb (truthy match recognized with Some t => trim t | None => [] end));
      [apply quiet_throw|apply quiet_ret].
  - apply quiet_bind; [now apply quiet_emit|]. intros _. apply quiet_await.
Qed.

Lemma isOneOf_sound (s : jsstring) (options : list string) :
  isOneOf s options = true -> exists o, In o options /\ s = lit o.
Proof.
  unfold isOneOf. intros H. apply existsb_exists in H as [o [Hin Ho]].
  exists o. split; [exact Hin|now apply eqb_eq].
Qed.

Lemma route_image (file : File) (ext : jsstring) :
  isOneOf (toLowerCase ext) imageExtensions = true ->
  route file ext = parseImage file.
Proof.
  intros H. unfold route. apply isOneOf_sound in H as [o [Hin Ho]].
  rewrite Ho.
  destruct Hin as [<-|[<-|[<-|[<-|[<-|[]]]]]]; reflexivity.
Qed.

Lemma quiet_route_other (file : File) (ext : jsstring) :
  isOneOf (toLowerCase ext) imageExtensions = false ->
  quiet (route file ext).
Proof.
  intros H. unfold route.
  destruct (isOneOf _ ["csv"%string]); [apply quiet_parseCSV|].
  destruct (isOneOf _ ["xlsx"; "xls"]%string); [apply quiet_parseExcel|].
  destruct (isOneOf _ ["pdf"%string]); [apply quiet_parsePDF|].
  destruct (isOneOf _ ["json"%string]); [apply quiet_parseJSON|].
  destruct (isOneOf _ ["txt"%string]); [apply quiet_parseText|].
  unfold imageExtensions in H. rewrite H. apply quiet_throw.
Qed.

(** A computation wrapped in handlers that only return adds as many
    calls as the computation itself. *)
Lemma calls_wrapped {A B} (m : M A) (k : A -> B) (h : thrown -> B) (n : nat) :
  (forall w, ocrWorkerCalls (snd (m w)) = ocrWorkerCalls w + n) ->
  forall w,
    ocrWorkerCalls
      (snd (tryCatch (bind m (fun a => ret (k a))) (fun e => ret (h e)) w))
    = ocrWorkerCalls w + n.
Proof.
  intros H w. specialize (H w). unfold tryCatch, bind, ret.
  destruct (m w) as [[a|e] w1]; exact H.
Qed.

(** X1. [parse] calls [createOcrWorker] exactly once when the file passes
    validation and its extension, lowercased, is png, jpg, jpeg, webp or
    gif, whatever the OCR engine then does; in every other case it does
    not call it at all. *)
Theorem ocr_worker_created_exactly_for_images :
  forall (config : EnhancedFileParserConfig) (file : File) (w : World),
    ocrWorkerCalls (snd (parse config file w))
    = ocrWorkerCalls w
      + (if (isValid (validate config file)
             && isOneOf (toLowerCase (getFileExtension (name file)))
                        imageExtensions)%bool
         then 1 else 0).
Proof.
  intros config file w. unfold parse.
  destruct (isValid (validate config file)); simpl negb; cbv iota.
  - destruct (isOneOf (toLowerCase (getFileExtension (name file))) imageExtensions)
      eqn:Himage; simpl andb; cbv iota.
    + rewrite (route_image _ _ Himage). apply calls_wrapped.
      intros w0. rewrite parseImage_calls. lia.
    + apply calls_wrapped. intros w0.
      rewrite (quiet_route_other file _ Himage w0). lia.
  - simpl. lia.
Qed.

(** X2. Once [createOcrWorker] has handed over a worker, [parseImage]
    calls [recognize] once and then [terminate] once, and nothing else:
    the worker is released whether recognition resolves, rejects or
    yields no text.  When no worker is handed over, neither is called. *)
Theorem ocr_worker_released_after_use :
  forall (file : File) (w : World),
    events (snd (parseImage file w))
    = match createOcrWorker w with
      | (Resolved _, w1) => WorkerTerminate :: WorkerRecognize :: events w1
      | (Rejected _, w1) => events w1
      end.
Proof.
  intros file w. unfold parseImage, bind at 1.
  destruct (createOcrWorker w) as [[worker|e] w1]; [|reflexivity].
  unfold tryFinally, bind, emit, await. cbn beta iota.
  destruct (recognize worker file) as [recognized|e]; cbn beta iota.
  - destruct (negb (truthy match recognized with Some t => trim t | None => [] end));
      unfold throw, ret; destruct (terminate worker); reflexivity.
  - destruct (terminate worker); reflexivity.
Qed.

(** X3. Once the PDF document is open, [parsePDF] calls [cleanup] once
    and, unless [cleanup] throws, [destroy] once after it, and nothing
    else: the document is released whether or not its pages load. *)
Theorem pdf_document_released :
  forall (file : File) (w : World) (buffer : list N) (doc : PdfDocument),
    hasDocument = true ->
    fileArrayBuffer file = Resolved buffer ->
    pdfGetDocument buffer = Resolved doc ->
    events (snd (parsePDF file w))
    = match cleanup doc with
      | Resolved _ => PdfDestroy :: PdfCleanup :: events w
      | Rejected _ => PdfCleanup :: events w
      end.
Proof.
  intros file w buffer doc Hdoc Hbuf Hget.
  assert (Hpages : forall n k acc w0,
             snd (readPages doc n k acc w0) = w0).
  { induction n as [|n IH]; intros k acc w0; simpl; [reflexivity|].
    unfold bind at 1. unfold await at 1.
    destruct (getPage doc k) as [page|e]; [|reflexivity].
    unfold bind at 1. unfold extractNativePdfText, bind, await, ret.
    destruct (getTextContent page) as [tc|e]; [|reflexivity].
    apply IH. }
  unfold parsePDF. rewrite Hdoc. cbn beta iota delta [negb].
  unfold bind at 1. unfold await at 1. rewrite Hbuf.
  unfold bind at 1. unfold await at 1. rewrite Hget.
  unfold bind at 1. unfold tryFinally.
  specialize (Hpages (numPages doc) 1 [] w).
  destruct (readPages doc (numPages doc) 1 [] w) as [r w0]. simpl in Hpages.
  subst w0. unfold bind, emit, await. cbn beta iota.
  destruct (cleanup doc) as [u|e]; cbn beta iota.
  - destruct (destroy doc) as [u'|e]; destruct r as [texts|e'];
      try reflexivity.
    destruct (negb (truthy (trim (join newline texts)))); reflexivity.
  - reflexivity.
Qed.

(** X4. Loading the OCR engine is remembered: a second [loadTesseract]
    leaves the world as the first left it and settles the same way, so
    the script element is appended at most once and a failed load is not
    tried again. *)
Theorem loadTesseract_is_remembered :
  forall (w : World),
    loadTesseract (snd (loadTesseract w))
    = (fst (loadTesseract w), snd (loadTesseract w))
    /\ occurrences ScriptAppended (snd (loadTesseract w))
       <= S (occurrences ScriptAppended w).
Proof.
  intros w. destruct (loadTesseract w) as [r w1] eqn:E.
  cbn [fst snd]. unfold loadTesseract in E.
  destruct (windowTesseract w) eqn:Hw.
  - injection E as <- <-. unfold loadTesseract. rewrite Hw.
    split; [reflexivity|lia].
  - destruct (tesseractLoaderPromise w) as [promise|] eqn:Hp.
    + injection E as <- <-. unfold loadTesseract. rewrite Hw, Hp.
      split; [reflexivity|lia].
    + destruct (negb hasDocument) eqn:Hd.
      * injection E as <- <-. unfold loadTesseract. simpl.
        split; [reflexivity|]. unfold occurrences. simpl. lia.
      * injection E as <- <-. unfold loadTesseract, occurrences.
        destruct tesseractScript as [[|]|]; simpl; (split; [reflexivity|lia]).
Qed.

End ResourceFacts.

Lemma pdf_document_released_witness :
  EnhancedFileParser.events
    (snd (EnhancedFileParser.parsePDF SampleLibraries.scan SampleLibraries.freshWorld))
  = [EnhancedFileParser.PdfDestroy; EnhancedFileParser.PdfCleanup].
Proof.
  apply (pdf_document_released SampleLibraries.scan SampleLibraries.freshWorld
           [] SampleLibraries.blankPdf); reflexivity.
Defined.

(** ** What [parse] hands back *)

Section OutcomeFacts.
Import JS Types Parser EnhancedFileParser Vocabulary.
Context {host : Host} {libs : Libraries}.

Lemma includes_join (sep e : jsstring) (es : list jsstring) :
  In e es -> includes e (join sep es) = true.
Proof.
  induction es as [|p rest IH]; intros Hin; [destruct Hin|].
  destruct rest as [|q rest'].
  - destruct Hin as [->|[]]. apply includes_refl.
  - change (join sep (p :: q :: rest')) with (p ++ sep ++ join sep (q :: rest')).
    destruct Hin as [->|Hin].
    + apply (includes_middle e []).
    + rewrite app_assoc. apply includes_skip. now apply IH.
Qed.

Lemma parse_invalid (config : EnhancedFileParserConfig) (file : File) (w : World) :
  isValid (validate config file) = false ->
  parse config file w
  = (Resolved
       {| success := false; content := None;
          error :=
            Some {| code := lit "VALIDATION_ERROR";
                    message := join (lit "; ") (errors (validate config file));
                    details := ValidationErrors (errors (validate config file)) |} |},
     w).
Proof. intros H. unfold parse, tryCatch. rewrite H. reflexivity. Qed.

Lemma parse_valid (config : EnhancedFileParserConfig) (file : File) (w : World) :
  isValid (validate config file) = true ->
  parse config file w
  = match route file (getFileExtension (name file)) w with
    | (Resolved parsedData, w1) =>
        (Resolved
           {| success := true;
              content := Some {| raw := parsedData; metadata := extractMetadata file |};
              error := None |}, w1)
    | (Rejected e, w1) =>
        (Resolved
           {| success := false; content := None;
              error :=
                Some {| code := lit "PARSE_ERROR";
                        message := match e with
                                   | JsError message => message
                                   | NonError => lit "Unknown parsing error"
                                   end;
                        details := Caught e |} |}, w1)
    end.
Proof.
  intros H. unfold parse, tryCatch, bind. rewrite H. cbn beta iota delta [negb].
  destruct (route file (getFileExtension (name file)) w) as [[t|e] w1]; reflexivity.
Qed.

(** What passing validation takes. *)
Lemma validate_passed (config : EnhancedFileParserConfig) (file : File) :
  isValid (validate config file) = true ->
  (0 < size file)%N
  /\ (Z.of_N (size file) <= maxFileSizeOr (maxFileSize config))%Z
  /\ exists format,
       In format (supportedFormats config)
       /\ formatMatches file (getFileExtension (name file)) format = true.
Proof.
  unfold validate. cbv zeta. cbn [isValid]. intros H.
  apply length_zero_iff_nil in H.
  destruct (Z.of_N (size file) >? maxFileSizeOr (maxFileSize config))%Z eqn:Hgt.
  { destruct (size file =? 0)%N;
      destruct (find _ (supportedFormats config)); discriminate H. }
  destruct (size file =? 0)%N eqn:Hz.
  { destruct (find _ (supportedFormats config)); discriminate H. }
  destruct (find _ (supportedFormats config)) as [format|] eqn:Hf;
    [|discriminate H].
  apply N.eqb_neq in Hz. rewrite Z.gtb_ltb in Hgt. apply Z.ltb_ge in Hgt.
  split; [lia|]. split; [exact Hgt|].
  exists format. now apply find_some in Hf.
Qed.

(** X6. A success of [parse] means the file passed every check: it is
    not empty, not larger than the maximum, and matches a configured
    format; and the content it carries has the name, size, type and
    modification time of the file itself. *)
Theorem success_means_valid_file :
  forall (config : EnhancedFileParserConfig) (file : File) (w w' : World)
         (r : ParseResult),
    parse config file w = (Resolved r, w') ->
    success r = true ->
    (0 < size file)%N
    /\ (Z.of_N (size file) <= maxFileSizeOr (maxFileSize config))%Z
    /\ (exists format,
          In format (supportedFormats config)
          /\ formatMatches file (getFileExtension (name file)) format = true)
    /\ exists c,
         content r = Some c
         /\ metadata c
            = {| metaName := name file; metaSize := size file;
                 metaType := type file; metaLastModified := lastModified file |}.
Proof.
  intros config file w w' r E Hs.
  destruct (isValid (validate config file)) eqn:Hv.
  - destruct (validate_passed config file Hv) as [H1 [H2 H3]].
    repeat (split; [assumption|]).
    rewrite (parse_valid config file w Hv) in E.
    destruct (route file (getFileExtension (name file)) w) as [[t|e] w1];
      injection E as <- _; [|discriminate Hs].
    eexists. split; reflexivity.
  - rewrite (parse_invalid config file w Hv) in E. injection E as <- _.
    discriminate Hs.
Qed.

Lemma trim_trimmed (s : jsstring) : trim (trim s) = trim s.
Proof.
  unfold trim at 1. rewrite dropWhile_id.
  - apply dropWhileEnd_id. apply last_dropWhileEnd.
  - apply headIs_dropWhileEnd, headIs_dropWhile.
Qed.

(** X7. The table made from a text has the one header Content and one
    column; each of its rows is one cell holding a line of the text that
    is not empty and has no whitespace at either end; the text itself is
    kept beside the table for OCR output only. *)
Theorem text_table_rows_are_trimmed_lines :
  forall (text : jsstring) (source : SourceType),
    headers (createTextData text source) = [lit "Content"]
    /\ columnCount (createTextData text source) = 1
    /\ (forall row, In row (rows (createTextData text source)) ->
          exists line, row = [CString line] /\ line <> [] /\ trim line = line)
    /\ ocrText (createTextData text source)
       = match source with image_ocr => Some text | _ => None end.
Proof.
  intros text source. unfold createTextData. cbn [headers columnCount rows ocrText].
  repeat split.
  intros row Hrow. apply in_map_iff in Hrow as [line [<- Hline]].
  apply filter_In in Hline as [Hin Htruthy].
  apply in_map_iff in Hin as [raw [<- _]].
  exists (trim raw). repeat split.
  - intros E. rewrite E in Htruthy. discriminate Htruthy.
  - apply trim_trimmed.
Qed.

Lemma lookupIndex_in (key : jsstring) (elements : list value) :
  forall i,
    lookupIndex key i elements = VUndefined
    \/ In (lookupIndex key i elements) elements.
Proof.
  induction elements as [|v later IH]; intros i; simpl; [now left|].
  destruct (eqb (decimal (N.of_nat i)) key); [right; now left|].
  destruct (IH (S i)) as [H|H]; [now left|right; now right].
Qed.

Lemma arrayOfObjects_scalar (v : value) :
  isScalar v = true -> arrayOfObjects v = None.
Proof. destruct v; simpl; congruence. Qed.

Lemma findArrayKey_none (data : value) (ks : list jsstring) :
  (forall key, exists v,
      getProperty data key = Resolved v /\ arrayOfObjects v = None) ->
  findArrayKey data ks = Resolved None.
Proof.
  intros H. induction ks as [|key later IH]; simpl; [reflexivity|].
  destruct (H key) as [v [-> ->]]. exact IH.
Qed.

Lemma getProperty_of_scalars (items : list value) (key : jsstring) :
  forallb isScalar items = true ->
  exists v, getProperty (VArray items) key = Resolved v /\ arrayOfObjects v = None.
Proof.
  intros H. simpl. destruct (eqb key (lit "length")); [eauto|].
  eexists. split; [reflexivity|].
  destruct (lookupIndex_in key items 0) as [->|Hin]; [reflexivity|].
  apply arrayOfObjects_scalar. rewrite forallb_forall in H. now apply H.
Qed.

(** X8. A JSON text that parses to an array of booleans, numbers and
    strings (the empty array among them) makes [parseJSON] reject with
    "JSON format not supported. Expected array of objects or single
    object." *)
Theorem json_array_of_scalars_rejected :
  forall (file : File) (w : World) (text : jsstring) (items : list value),
    readerReadAsText file = Resolved text ->
    JSON_parse text = Resolved (VArray items) ->
    forallb isScalar items = true ->
    parseJSON file w = (Rejected (JsError jsonNotSupported), w).
Proof.
  intros file w text items Hread Hparse Hscalar.
  unfold parseJSON, bind, await. rewrite Hread, Hparse.
  assert (Hnone : arrayOfObjects (VArray items) = None).
  { destruct items as [|first later]; [reflexivity|]. simpl in Hscalar |- *.
    apply andb_true_iff in Hscalar as [Hfirst _].
    destruct first; simpl in *; congruence. }
  rewrite Hnone. cbn [keys].
  rewrite (findArrayKey_none (VArray items))
    by (intros key; now apply getProperty_of_scalars).
  reflexivity.
Qed.

Lemma lookup_in (key : jsstring) (properties : list (jsstring * value)) :
  lookup key properties = VUndefined
  \/ exists k, In (k, lookup key properties) properties.
Proof.
  induction properties as [|[k v] later IH]; simpl; [now left|].
  destruct (eqb k key); [right; exists k; now left|].
  destruct IH as [H|[k' H]]; [now left|right; exists k'; now right].
Qed.

(** X9. A JSON text that parses to an object none of whose properties
    holds a non-empty array with an object in front becomes a table of
    one row: the headers are the keys of the object in order, the cells
    its values in the same order. *)
Theorem json_flat_object_is_one_row :
  forall (file : File) (w : World) (text : jsstring)
         (properties : list (jsstring * value)),
    readerReadAsText file = Resolved text ->
    JSON_parse text = Resolved (VObject properties) ->
    (forall k v, In (k, v) properties -> arrayOfObjects v = None) ->
    parseJSON file w
    = (Resolved
         {| headers := map fst properties;
            rows := [map (fun p => toCellValue (snd p)) properties];
            rowCount := 1;
            columnCount := length (map fst properties);
            sourceType := Some json;
            ocrText := None |},
       w).
Proof.
  intros file w text properties Hread Hparse Hflat.
  unfold parseJSON, bind, await. rewrite Hread, Hparse.
  cbn [arrayOfObjects keys].
  rewrite (findArrayKey_none (VObject properties)); [reflexivity|].
  intros key. eexists. split; [reflexivity|].
  destruct (lookup_in key properties) as [->|[k Hin]]; [reflexivity|].
  exact (Hflat k _ Hin).
Qed.

End OutcomeFacts.

Section EmptyFileFacts.
Import JS Types Parser EnhancedFileParser Vocabulary.
Context {host : Host}.

(** X5. A file of zero bytes, whatever its name and type, is answered
    with the failure VALIDATION_ERROR whose message contains "File is
    empty" and whose details are the validation errors; the answer is the
    same whatever the libraries would return, and the state is left as it
    was: no OCR worker is created, no script appended, no recognition or
    release recorded. *)
Theorem empty_file_rejected_whatever_libraries :
  forall (config : EnhancedFileParserConfig) (file : File) (w : World),
    size file = 0%N ->
    exists message,
      includes (lit "File is empty") message = true
      /\ forall libs : Libraries,
           @parse host libs config file w
           = (Resolved
                {| success := false; content := None;
                   error :=
                     Some {| code := lit "VALIDATION_ERROR";
                             message := message;
                             details :=
                               ValidationErrors (errors (validate config file)) |} |},
              w).
Proof.
  intros config file w Hsize.
  assert (Hin : In (lit "File is empty") (errors (validate config file))).
  { unfold validate. cbv zeta. cbn [errors]. rewrite Hsize.
    change (0 =? 0)%N with true. cbv iota.
    destruct (find _ (supportedFormats config));
      repeat (apply in_or_app; (now right; left) || left);
      apply in_or_app; right; now left. }
  assert (Hinvalid : isValid (validate config file) = false).
  { destruct (isValid (validate config file)) eqn:E; [|reflexivity].
    apply validate_passed in E as [Hpos _]. rewrite Hsize in Hpos.
    discriminate Hpos. }
  exists (join (lit "; ") (errors (validate config file))). split.
  - now apply includes_join.
  - intros libs. now apply parse_invalid.
Qed.

End EmptyFileFacts.

Lemma empty_file_rejected_whatever_libraries_witness :
  exists message,
    JS.includes (JS.lit "File is empty") message = true
    /\ forall libs : EnhancedFileParser.Libraries,
         @EnhancedFileParser.parse JS.latinHost libs SampleLibraries.documents
           SampleLibraries.emptyFile SampleLibraries.freshWorld
         = (EnhancedFileParser.Resolved
              {| Parser.success := false; Parser.content := None;
                 Parser.error :=
                   Some {| Parser.code := JS.lit "VALIDATION_ERROR";
                           Parser.message := message;
                           Parser.details :=
                             Parser.ValidationErrors
                               (Parser.errors
                                  (EnhancedFileParser.validate
                                     SampleLibraries.documents
                                     SampleLibraries.emptyFile)) |} |},
            SampleLibraries.freshWorld).
Proof.
  apply (@empty_file_rejected_whatever_libraries JS.latinHost
           SampleLibraries.documents SampleLibraries.emptyFile
           SampleLibraries.freshWorld).
  reflexivity.
Defined.


Lemma success_means_valid_file_witness :
  (0 < Parser.size SampleLibraries.workbook)%N
  /\ (Z.of_N (Parser.size SampleLibraries.workbook)
      <= Parser.maxFileSizeOr
           (EnhancedFileParser.maxFileSize SampleLibraries.documents))%Z.
Proof.
  pose (r := {| Parser.success := true;
                Parser.content :=
                  Some {| Parser.raw :=
                            {| Types.headers := [JS.lit "Place"; JS.lit "City"];
                               Types.rows := [[Types.CString (JS.lit "Eiffel Tower")]];
                               Types.rowCount := 1;
                               Types.columnCount := 2;
                               Types.sourceType := Some Types.excel;
                               Types.ocrText := None |};
                          Parser.metadata :=
                            EnhancedFileParser.extractMetadata
                              SampleLibraries.workbook |};
                Parser.error := None |}).
  assert (E : EnhancedFileParser.parse SampleLibraries.documents
                SampleLibraries.workbook SampleLibraries.freshWorld
              = (EnhancedFileParser.Resolved r, SampleLibraries.freshWorld))
    by (vm_compute; reflexivity).
  destruct (success_means_valid_file SampleLibraries.documents
              SampleLibraries.workbook SampleLibraries.freshWorld
              SampleLibraries.freshWorld r E eq_refl) as [H1 [H2 _]].
  split; assumption.
Defined.

Lemma json_array_of_scalars_rejected_witness :
  @EnhancedFileParser.parseJSON JS.latinHost SampleLibraries.jsonLibraries
    SampleLibraries.flagsFile SampleLibraries.freshWorld
  = (EnhancedFileParser.Rejected (Parser.JsError Vocabulary.jsonNotSupported),
     SampleLibraries.freshWorld).
Proof.
  apply (@json_array_of_scalars_rejected JS.latinHost SampleLibraries.jsonLibraries
           SampleLibraries.flagsFile SampleLibraries.freshWorld
           SampleLibraries.flagsText
           [JS.VBoolean true; JS.VBoolean false]); reflexivity.
Defined.

Lemma json_flat_object_is_one_row_witness :
  @EnhancedFileParser.parseJSON JS.latinHost SampleLibraries.jsonLibraries
    SampleLibraries.louvreFile SampleLibraries.freshWorld
  = (EnhancedFileParser.Resolved
       {| Types.headers := [JS.lit "name"; JS.lit "city"];
          Types.rows := [[Types.CString (JS.lit "Louvre");
                          Types.CString (JS.lit "Paris")]];
          Types.rowCount := 1;
          Types.columnCount := 2;
          Types.sourceType := Some Types.json;
          Types.ocrText := None |},
     SampleLibraries.freshWorld).
Proof.
  apply (@json_flat_object_is_one_row JS.latinHost SampleLibraries.jsonLibraries
           SampleLibraries.louvreFile SampleLibraries.freshWorld
           SampleLibraries.louvreText SampleLibraries.louvre);
    try reflexivity.
  intros k v [E|[E|[]]]; injection E as <- <-; reflexivity.
Defined.

(** ** The extension of a file name *)

Section ExtensionFacts.
Import JS Parser EnhancedFileParser Vocabulary.

Lemma starLoop_class_at_end (p : codeunit -> bool) (k : cont) :
  (forall s, after s <> [] -> k s = None) ->
  forall fuel s, length (after s) <= fuel ->
    starLoop true (matcher (Char p)) k fuel s
    = if forallb p (after s)
      then k (MState (rev (after s) ++ before s) [] (captures s))
      else None.
Proof.
  intros Hk. induction fuel as [|fuel IH]; intros [pre suf caps] H; simpl in H.
  - destruct suf; [reflexivity|simpl in H; lia].
  - destruct suf as [|c t]; [reflexivity|].
    cbn [starLoop matcher after before captures forallb]. destruct (p c) eqn:Hc.
    + cbn [after length]. rewrite (proj2 (Nat.ltb_lt _ _) (Nat.lt_succ_diag_r _)).
      rewrite IH by (simpl in *; lia). cbn [after before captures andb].
      destruct (forallb p t).
      * cbn [rev]. rewrite <- app_assoc. cbn [app].
        rewrite (Hk (MState pre (c :: t) caps)) by discriminate.
        destruct (k (MState (rev t ++ c :: pre) [] caps)); reflexivity.
      * cbn [orElse]. apply Hk. discriminate.
    + cbn [orElse andb]. apply Hk. discriminate.
Qed.

Lemma matcher_seq (a b : regex) (k : cont) (s : mstate) :
  matcher (Seq a b) k s = matcher a (matcher b k) s.
Proof. reflexivity. Qed.

Lemma matcher_char (p : codeunit -> bool) (k : cont) (pre suf : jsstring)
  (caps : list (nat * jsstring)) :
  matcher (Char p) k (MState pre suf caps)
  = match suf with
    | c :: t => if p c then k (MState (c :: pre) t caps) else None
    | [] => None
    end.
Proof. reflexivity. Qed.

Lemma matcher_star (a : regex) (k : cont) (s : mstate) :
  matcher (Star true a) k s = starLoop true (matcher a) k (length (after s)) s.
Proof. reflexivity. Qed.

Lemma matcher_group (n : nat) (a : regex) (k : cont) (s : mstate) :
  matcher (Group n a) k s
  = matcher a
      (fun s' =>
         k (MState (before s') (after s')
              ((n, rev (firstn (length (before s') - length (before s)) (before s')))
               :: captures s')))
      s.
Proof. reflexivity. Qed.

Lemma matchAt_extensionPattern (pre suf : jsstring) :
  matchAt extensionPattern pre suf
  = match suf with
    | d :: c :: t =>
        if (N.eqb 46 d && (otherThan 46 c && forallb (otherThan 46) t))%bool
        then Some (MState (rev (c :: t) ++ d :: pre) [] [(1, c :: t)])
        else None
    | _ => None
    end.
Proof.
  unfold matchAt, extensionPattern, Plus.
  rewrite matcher_seq, matcher_char.
  destruct suf as [|d rest]; [reflexivity|].
  unfold only at 1. destruct (46 =? d)%N; [|destruct rest; reflexivity].
  rewrite matcher_seq, matcher_group, matcher_seq, matcher_char.
  destruct rest as [|c t]; [reflexivity|].
  destruct (otherThan 46 c); [|reflexivity].
  rewrite matcher_star, starLoop_class_at_end.
  - cbn [after before captures andb]. destruct (forallb (otherThan 46) t); [|reflexivity].
    cbn [matcher after before captures length].
    assert (Hb : rev t ++ c :: d :: pre = rev (c :: t) ++ d :: pre)
      by (cbn [rev]; now rewrite <- app_assoc).
    rewrite Hb.
    replace (length (rev (c :: t) ++ d :: pre) - S (length pre))
      with (length (rev (c :: t)))
      by (rewrite length_app; cbn [length]; lia).
    rewrite firstn_app, firstn_all, Nat.sub_diag. cbn [firstn].
    now rewrite app_nil_r, rev_involutive.
  - intros s Hs. cbn [matcher]. destruct (after s); [contradiction|reflexivity].
  - cbn [after length]. lia.
Qed.

(** Scanning for the extension: what [exec] finds from a position on. *)
Lemma execFrom_no_dot (pre suf : jsstring) :
  forallb (otherThan 46) suf = true ->
  execFrom extensionPattern pre suf = None.
Proof.
  revert pre. induction suf as [|c t IH]; intros pre H.
  - reflexivity.
  - cbn [execFrom]. rewrite matchAt_extensionPattern.
    cbn [forallb] in H. apply andb_true_iff in H as [Hc Ht].
    unfold otherThan in Hc. apply negb_true_iff in Hc.
    destruct t as [|c' t']; rewrite ?Hc; cbn [andb]; now apply IH.
Qed.

Lemma execFrom_last_dot (base ext : jsstring) :
  ext <> [] -> forallb (otherThan 46) ext = true ->
  forall pre,
    execFrom extensionPattern pre (base ++ 46%N :: ext)
    = Some (MState (rev ext ++ 46%N :: rev base ++ pre) [] [(1, ext)]).
Proof.
  intros Hne Hext. induction base as [|b base IH]; intros pre.
  - cbn [app execFrom]. rewrite matchAt_extensionPattern.
    destruct ext as [|c t]; [contradiction|].
    cbn [forallb] in Hext. rewrite Hext. reflexivity.
  - cbn [app execFrom]. rewrite matchAt_extensionPattern.
    assert (Hnone :
      match base ++ 46%N :: ext with
      | [] => None
      | c :: t =>
          if ((46 =? b)%N && (otherThan 46 c && forallb (otherThan 46) t))%bool
          then Some (MState (rev (c :: t) ++ b :: pre) [] [(1, c :: t)])
          else None
      end = None).
    { destruct (base ++ 46%N :: ext) as [|c t] eqn:E; [reflexivity|].
      assert (Hdot : forallb (otherThan 46) (c :: t) = false).
      { rewrite <- E. destruct (forallb (otherThan 46) (base ++ 46%N :: ext)) eqn:F;
          [|reflexivity].
        rewrite forallb_app in F. apply andb_true_iff in F as [_ F].
        cbn in F. discriminate F. }
      cbn [forallb] in Hdot. rewrite Hdot. now rewrite andb_false_r. }
    destruct (base ++ 46%N :: ext) as [|c t] eqn:E.
    + destruct base; discriminate E.
    + rewrite Hnone, IH. cbn [rev]. now rewrite <- !app_assoc.
Qed.

Lemma execFrom_trailing_dot (base : jsstring) :
  forall pre, execFrom extensionPattern pre (base ++ [46%N]) = None.
Proof.
  induction base as [|b base IH]; intros pre.
  - reflexivity.
  - cbn [app execFrom]. rewrite matchAt_extensionPattern, IH.
    destruct (base ++ [46%N]) as [|c t] eqn:E; [reflexivity|].
    assert (Hdot : forallb (otherThan 46) (c :: t) = false).
    { rewrite <- E. destruct (forallb (otherThan 46) (base ++ [46%N])) eqn:F;
        [|reflexivity].
      rewrite forallb_app in F. apply andb_true_iff in F as [_ F].
      cbn in F. discriminate F. }
    cbn [forallb] in Hdot. rewrite Hdot. now rewrite andb_false_r.
Qed.

(** X10. [getFileExtension] returns what follows the last dot of the
    file name when that is not empty; it returns the empty string for a
    name without a dot and for a name that ends with a dot. *)
Theorem getFileExtension_round_trip :
  (forall base ext : jsstring,
      ext <> [] -> forallb (otherThan 46) ext = true ->
      getFileExtension (base ++ 46%N :: ext) = ext)
  /\ (forall fileName : jsstring,
        forallb (otherThan 46) fileName = true -> getFileExtension fileName = [])
  /\ (forall base : jsstring, getFileExtension (base ++ [46%N]) = []).
Proof.
  unfold getFileExtension, exec. split; [|split].
  - intros base ext Hne Hext. now rewrite (execFrom_last_dot base ext Hne Hext []).
  - intros fileName H. now rewrite execFrom_no_dot.
  - intros base. now rewrite execFrom_trailing_dot.
Qed.

End ExtensionFacts.

Lemma getFileExtension_round_trip_witness :
  EnhancedFileParser.getFileExtension
    (JS.lit "test.backup" ++ 46%N :: JS.lit "txt") = JS.lit "txt".
Proof.
  apply (proj1 getFileExtension_round_trip (JS.lit "test.backup") (JS.lit "txt")).
  - discriminate.
  - reflexivity.
Defined.

(* ------------------------------------------------------------------ *)
(** ** Values and their confidence *)
(* ------------------------------------------------------------------ *)

Section EdgeFacts.
Import JS JSArray Types MetadataExtractor Vocabulary.

Lemma not_below_threshold_nonzero (c : float) :
  PrimFloat.ltb c 0.55 = false -> PrimFloat.eqb c 0 = false.
Proof.
  rewrite ltb_spec, eqb_spec.
  replace (Prim2SF 0.55) with (SpecFloat.S754_finite false 4953959590107546 (-53))
    by (vm_compute; reflexivity).
  replace (Prim2SF 0) with (SpecFloat.S754_zero false) by (vm_compute; reflexivity).
  intros H. destruct (Prim2SF c) as [s|s| |s m e].
  - destruct s; discriminate H.
  - destruct s; reflexivity.
  - reflexivity.
  - destruct s; reflexivity.
Qed.

Lemma forallb_edge_collapse (inRun : bool) (s : jsstring) :
  forallb isEdgeChar (collapseFrom inRun s) = forallb isEdgeChar s.
Proof.
  revert inRun. induction s as [|c t IH]; intros inRun; [reflexivity|].
  cbn [collapseFrom forallb]. destruct (isWhiteSpace c) eqn:E.
  - rewrite (whitespace_is_edge c E). destruct inRun; cbn [forallb andb];
      now rewrite IH.
  - cbn [forallb]. now rewrite IH.
Qed.

Lemma dropWhile_nil_iff (p : codeunit -> bool) (s : jsstring) :
  dropWhile p s = [] <-> forallb p s = true.
Proof.
  induction s as [|c t IH]; cbn [dropWhile forallb]; [tauto|].
  destruct (p c); cbn [andb]; [exact IH|]. split; discriminate.
Qed.

Lemma length_dropWhileEnd (p : codeunit -> bool) (s : jsstring) :
  length (dropWhileEnd p s) <= length s.
Proof.
  induction s as [|c t IH]; [reflexivity|]. cbn [dropWhileEnd].
  destruct (dropWhileEnd p t); [destruct (p c)|]; cbn [length] in *; lia.
Qed.

Lemma length_collapse (inRun : bool) (s : jsstring) :
  length (collapseFrom inRun s) <= length s.
Proof.
  revert inRun. induction s as [|c t IH]; intros inRun; [reflexivity|].
  cbn [collapseFrom]. destruct (isWhiteSpace c); [destruct inRun|];
    cbn [length]; pose proof (IH true); pose proof (IH false); lia.
Qed.

Lemma cleanValue_nil_iff (s : jsstring) :
  cleanValue s = [] <-> forallb isEdgeChar s = true.
Proof.
  rewrite cleanValue_eq.
  rewrite dropWhileEnd_nil_iff, <- (forallb_edge_collapse false s).
  rewrite <- (dropWhile_nil_iff isEdgeChar (collapseFrom false s)).
  pose proof (headIs_dropWhile isEdgeChar (collapseFrom false s)) as H.
  destruct (dropWhile isEdgeChar (collapseFrom false s)) as [|c t].
  - split; reflexivity.
  - cbn [headIs] in H. cbn [forallb]. rewrite H. split; discriminate.
Qed.

(** X11. [cleanValue] returns the empty string exactly for the strings
    made of colons, dashes and whitespace only (the empty string among
    them), and it never returns a string longer than the one it was
    given. *)
Theorem cleanValue_empty_iff_only_edges :
  (forall s, cleanValue s = [] <-> forallb isEdgeChar s = true)
  /\ (forall s, length (cleanValue s) <= length s).
Proof.
  split; intros s; [apply cleanValue_nil_iff|]. rewrite cleanValue_eq.
  pose proof (length_dropWhileEnd isEdgeChar
                (dropWhile isEdgeChar (collapseFrom false s))).
  pose proof (length_dropWhile isEdgeChar (collapseFrom false s)).
  pose proof (length_collapse false s). lia.
Qed.


Lemma findIndexFrom_range {A} (p : A -> bool) (l : list A) (i : Z) :
  findIndexFrom p l i = (-1)%Z
  \/ (i <= findIndexFrom p l i < i + Z.of_nat (length l))%Z.
Proof.
  revert i. induction l as [|x l IH]; intros i; [now left|].
  cbn [findIndexFrom length]. destruct (p x).
  - right. lia.
  - destruct (IH (i + 1)%Z) as [E|E]; [now left|right; lia].
Qed.

Lemma findIndex_range {A} (p : A -> bool) (l : list A) :
  findIndex p l = (-1)%Z \/ (0 <= findIndex p l < Z.of_nat (length l))%Z.
Proof. apply (findIndexFrom_range p l 0). Qed.

(** The scores of the two priority tiers. *)
Lemma findPriorityMatchFrom_cases (headers : list jsstring) :
  forall priorities k,
    findPriorityMatchFrom headers priorities k = {| index := -1; confidence := 0 |}
    \/ exists i,
         i < length priorities
         /\ (0 <= index (findPriorityMatchFrom headers priorities k)
             < Z.of_nat (length headers))%Z
         /\ (confidence (findPriorityMatchFrom headers priorities k)
             = (0.96 - mathMin (ofNat (k + i) * 0.01) 0.1)%float
             \/ confidence (findPriorityMatchFrom headers priorities k)
                = (0.88 - mathMin (ofNat (k + i) * 0.01) 0.1)%float).
Proof.
  induction priorities as [|p later IH]; intros k; [now left|].
  cbn [findPriorityMatchFrom length].
  destruct (findIndex_range (fun h => eqb h p) headers) as [E|E].
  - rewrite E. cbn [Z.eqb Pos.eqb].
    destruct (findIndex_range (includes p) headers) as [E'|E'].
    + rewrite E'. cbn [Z.eqb Pos.eqb].
      destruct (IH (S k)) as [H|[i [Hi [Hr Hc]]]]; [now left|right].
      exists (S i). split; [lia|]. split; [exact Hr|].
      now replace (k + S i) with (S k + i) by lia.
    + right. exists 0. replace (k + 0) with k by lia.
      destruct (findIndex (includes p) headers =? -1)%Z eqn:F;
        [apply Z.eqb_eq in F; lia|].
      cbn [index confidence]. split; [lia|]. split; [exact E'|now right].
  - right. exists 0. replace (k + 0) with k by lia.
    destruct (findIndex (fun h => eqb h p) headers =? -1)%Z eqn:F;
      [apply Z.eqb_eq in F; lia|].
    cbn [index confidence]. split; [lia|]. split; [exact E|now left].
Qed.

Lemma tier_scores_nonzero (i : nat) :
  i < 8 ->
  isZero (0.96 - mathMin (ofNat i * 0.01) 0.1) = false
  /\ isZero (0.88 - mathMin (ofNat i * 0.01) 0.1) = false.
Proof.
  intros H.
  do 8 (destruct i as [|i]; [split; vm_compute; reflexivity|]). lia.
Qed.

End EdgeFacts.

Section ConfidenceFacts.
Import JS JSArray Types MetadataExtractor Vocabulary.
Context {host : Host} {fuse : FieldMatcher.Fuse}.

(** What every tier of [findHeaderMatch] reports. *)
Lemma findHeaderMatch_cases :
  forall (headers aliases : list jsstring) (t : Target),
    let m := findHeaderMatch headers aliases t in
    (index m = (-1)%Z \/ (0 <= index m < Z.of_nat (length headers))%Z)
    /\ (index m = (-1)%Z \/ isZero (confidence m) = false).
Proof.
  intros headers aliases t m. subst m. unfold findHeaderMatch.
  set (normalized := map FieldMatcher.normalizeFieldName headers).
  assert (L : length normalized = length headers) by apply length_map.
  set (priorities := match t with
                     | locationField => LOCATION_PRIORITY
                     | placeNameField => PLACE_PRIORITY
                     end).
  assert (Lp : length priorities = 8) by (destruct t; reflexivity).
  unfold findPriorityMatch.
  destruct (findPriorityMatchFrom_cases normalized priorities 0)
    as [E|[i [Hi [Hr Hc]]]].
  - rewrite E. cbn [index negb Z.eqb Pos.eqb].
    match goal with |- context [findIndex ?p normalized] =>
      destruct (findIndex_range p normalized) as [E1|E1] end.
    + rewrite E1. cbn [negb Z.eqb Pos.eqb].
      match goal with |- context [findIndex ?p normalized] =>
        destruct (findIndex_range p normalized) as [E2|E2] end.
      * rewrite E2. cbn [negb Z.eqb Pos.eqb].
        destruct (find _ _) as [best|]; [|split; now left].
        destruct (PrimFloat.ltb (FieldMatcher.confidence best) 0.55) eqn:B;
          [split; now left|].
        cbn [index confidence]. split.
        -- apply findIndex_range.
        -- right. now apply not_below_threshold_nonzero.
      * match goal with |- context [(?x =? -1)%Z] =>
          destruct (x =? -1)%Z eqn:F end; [apply Z.eqb_eq in F; lia|].
        cbn [negb index confidence]. split; right; [lia|reflexivity].
    + match goal with |- context [(?x =? -1)%Z] =>
        destruct (x =? -1)%Z eqn:F end; [apply Z.eqb_eq in F; lia|].
      cbn [negb index confidence]. split; right; [lia|reflexivity].
  - match goal with |- context [(?x =? -1)%Z] =>
      destruct (x =? -1)%Z eqn:F end; [apply Z.eqb_eq in F; lia|].
    cbn [negb]. split; right; [lia|].
    rewrite Lp in Hi. replace (0 + i) with i in Hc by lia.
    destruct (tier_scores_nonzero i Hi) as [H1 H2].
    destruct Hc as [-> | ->]; assumption.
Qed.

(** X12. The column that [findHeaderMatch] reports is -1 or the index of
    one of the headers it was given, and whenever it reports a column its
    confidence is not zero; this holds for each of its five tiers,
    whatever the fuzzy matcher returns. *)
Theorem findHeaderMatch_index_in_range :
  forall (headers aliases : list jsstring) (t : Target),
    let m := findHeaderMatch headers aliases t in
    (index m = (-1)%Z \/ (0 <= index m < Z.of_nat (length headers))%Z)
    /\ (index m = (-1)%Z \/ isZero (confidence m) = false).
Proof. exact findHeaderMatch_cases. Qed.


Lemma together_weaken (r : MetadataExtractionResult) :
  together true r -> together false r.
Proof.
  intros H t. destruct (H t) as [[E [C|[C _]]]|T]; [left|discriminate C|now right].
  split; [exact E|now left].
Qed.

Lemma together_empty : together true emptyResult.
Proof. intros [|]; left; split; auto. Qed.

Lemma truthy_cases (s : jsstring) : s = [] \/ truthy s = true.
Proof. destruct s; [now left|now right]. Qed.

Lemma readValueFromRow_unmatched (row : list cell) :
  readValueFromRow row (-1) = [].
Proof. reflexivity. Qed.

Lemma together_table (data : ParsedTableData) :
  together true (extractFromTableData data).
Proof.
  unfold extractFromTableData.
  destruct (_ || _)%bool; [apply together_empty|].
  destruct (getBestDataRow (rows data)) as [row|]; [|apply together_empty].
  intros t.
  assert (H : forall aliases,
    let m := findHeaderMatch (headers data) aliases t in
    let v := readValueFromRow row (index m) in
    (v = [] /\ (if truthy v then confidence m else 0%float) = 0%float)
    \/ (truthy v = true
        /\ isZero (if truthy v then confidence m else 0%float) = false)).
  { intros aliases m v.
    destruct (truthy_cases v) as [E|E].
    - left. rewrite E. split; reflexivity.
    - right. rewrite E. split; [reflexivity|].
      destruct (findHeaderMatch_cases (headers data) aliases t)
        as [_ [F|F]]; [|exact F].
      fold m in F. subst v. rewrite F, readValueFromRow_unmatched in E.
      discriminate E. }
  destruct t; cbn [fieldValue fieldConfidence placeName location
                     placeConfidence locationConfidence].
  - destruct (H PLACE_ALIASES) as [[E C]|T]; [left|right; exact T].
    split; [exact E|left; exact C].
  - destruct (H LOCATION_ALIASES) as [[E C]|T]; [left|right; exact T].
    split; [exact E|left; exact C].
Qed.

Lemma labelled_together (pattern : regex) (line current : jsstring) (c : float) :
  (current = [] /\ c = 0%float) \/ (truthy current = true /\ isZero c = false) ->
  let r := labelled pattern line current c in
  (fst r = [] /\ snd r = 0%float) \/ (truthy (fst r) = true /\ isZero (snd r) = false).
Proof.
  intros H. unfold labelled.
  destruct (negb (truthy current)); [|exact H].
  destruct (groupTruthy 1 (exec pattern line)); [|exact H].
  cbn [fst snd].
  destruct (truthy_cases (cleanValue (groupOr 1 (exec pattern line)))) as [E|E];
    rewrite E; [left|right]; split; reflexivity.
Qed.

Lemma scanLines_together (lines : list jsstring) :
  forall acc, together true acc ->
    match scanLines lines acc with
    | Returned r => together true r
    | Fell r => together true r
    end.
Proof.
  induction lines as [|line later IH]; intros acc H; [exact H|].
  cbn [scanLines].
  destruct (_ && _ && _ && _)%bool eqn:B.
  - apply andb_true_iff in B as [B B4]. apply andb_true_iff in B as [B B3].
    intros [|]; right; cbn [fieldValue fieldConfidence placeName location
                              placeConfidence locationConfidence];
      (split; [assumption|reflexivity]).
  - assert (Hp : (placeName acc = [] /\ placeConfidence acc = 0%float)
                 \/ (truthy (placeName acc) = true
                     /\ isZero (placeConfidence acc) = false)).
    { destruct (H placeNameField) as [[E [C|[C _]]]|T];
        [now left|discriminate C|now right]. }
    assert (Hl : (location acc = [] /\ locationConfidence acc = 0%float)
                 \/ (truthy (location acc) = true
                     /\ isZero (locationConfidence acc) = false)).
    { destruct (H locationField) as [[E [C|[C _]]]|T];
        [now left|discriminate C|now right]. }
    apply (labelled_together LINE_PREFIX_place line) in Hp.
    apply (labelled_together LINE_PREFIX_location line) in Hl.
    destruct (labelled LINE_PREFIX_place line _ _) as [place placeC].
    destruct (labelled LINE_PREFIX_location line _ _) as [loc locC].
    cbn [fst snd] in Hp, Hl.
    assert (T : together true {| placeName := place; location := loc;
                                 placeConfidence := placeC;
                                 locationConfidence := locC |}).
    { intros [|]; cbn [fieldValue fieldConfidence placeName location
                         placeConfidence locationConfidence];
        [destruct Hp as [[E C]|T]|destruct Hl as [[E C]|T]];
        try (now right); left; split; auto. }
    destruct (truthy place && truthy loc)%bool; [exact T|]. apply IH, T.
Qed.

Lemma fallback_together (likely : jsstring -> bool) (lines : list jsstring)
  (v : jsstring) (c : float) :
  (v = [] /\ c = 0%float) \/ (truthy v = true /\ isZero c = false) ->
  let r := if negb (truthy v) then
             match find likely lines with
             | Some line =>
                 if truthy line then (cleanValue line, 0.55%float) else (v, c)
             | None => (v, c)
             end
           else (v, c) in
  (fst r = [] /\ (snd r = 0%float \/ snd r = 0.55%float))
  \/ (truthy (fst r) = true /\ isZero (snd r) = false).
Proof.
  intros H.
  assert (H' : (v = [] /\ (c = 0%float \/ c = 0.55%float))
               \/ (truthy v = true /\ isZero c = false))
    by (destruct H as [[E C]|T]; [left; auto|now right]).
  destruct (negb (truthy v)); [|exact H'].
  destruct (find likely lines) as [line|]; [|exact H'].
  destruct (truthy line); [|exact H']. cbn [fst snd].
  destruct (truthy_cases (cleanValue line)) as [E|E];
    [left; auto|right; split; [exact E|reflexivity]].
Qed.

Lemma together_text (text : jsstring) : together false (extractFromText text).
Proof.
  unfold extractFromText.
  pose proof (scanLines_together (linesOf text) emptyResult together_empty) as H.
  destruct (scanLines (linesOf text) emptyResult) as [r|acc];
    [apply together_weaken, H|].
  assert (Hp : (placeName acc = [] /\ placeConfidence acc = 0%float)
               \/ (truthy (placeName acc) = true
                   /\ isZero (placeConfidence acc) = false)).
  { destruct (H placeNameField) as [[E [C|[C _]]]|T];
      [now left|discriminate C|now right]. }
  assert (Hl : (location acc = [] /\ locationConfidence acc = 0%float)
               \/ (truthy (location acc) = true
                   /\ isZero (locationConfidence acc) = false)).
  { destruct (H locationField) as [[E [C|[C _]]]|T];
      [now left|discriminate C|now right]. }
  apply (fallback_together isLikelyPlaceName (linesOf text)) in Hp.
  apply (fallback_together isLikelyLocation (linesOf text)) in Hl.
  cbv zeta in Hp, Hl.
  destruct (if negb (truthy (placeName acc)) then _ else _) as [place placeC].
  destruct (if negb (truthy (location acc)) then _ else _) as [loc locC].
  cbn [fst snd] in Hp, Hl.
  intros [|]; cbn [fieldValue fieldConfidence placeName location
                     placeConfidence locationConfidence];
    [destruct Hp as [[E [C|C]]|T]|destruct Hl as [[E [C|C]]|T]];
    try (now right); left; split; auto.
Qed.

Lemma together_content (c : content) :
  together false (extractMetadataFromContent c).
Proof.
  destruct c as [data|s|first|r|]; cbn [extractMetadataFromContent].
  - destruct (_ || _)%bool; [apply together_weaken, together_table|].
    destruct (ocrText data) as [[|t ts]|]; apply together_text.
  - apply together_text.
  - apply together_weaken, together_table.
  - apply together_weaken, together_table.
  - apply together_weaken, together_empty.
Qed.

(** X13. In every result of [extractMetadataFromContent], a field whose
    value is not empty has a confidence that is not zero; a field whose
    value is empty has the confidence 0, or the 0.55 of the fallback to a
    likely line. *)
Theorem value_carries_confidence :
  forall (c : content) (t : Target),
    let r := extractMetadataFromContent c in
    (fieldValue t r <> [] -> isZero (fieldConfidence t r) = false)
    /\ (fieldValue t r = [] ->
        fieldConfidence t r = 0%float \/ fieldConfidence t r = 0.55%float).
Proof.
  intros c t r. subst r. destruct (together_content c t) as [[E C]|[T Z]].
  - split; [congruence|]. intros _. destruct C as [C|[_ C]]; auto.
  - split; [intros _; exact Z|]. intros E. rewrite E in T. discriminate T.
Qed.

(** X14. In every result of [extractFromTableData] the value and the
    confidence of a field go together exactly: either the value is empty
    and the confidence is 0, or the value is not empty and the confidence
    is not zero. *)
Theorem table_value_iff_confidence :
  forall (data : ParsedTableData) (t : Target),
    let r := extractFromTableData data in
    (fieldValue t r = [] /\ fieldConfidence t r = 0%float)
    \/ (fieldValue t r <> [] /\ isZero (fieldConfidence t r) = false).
Proof.
  intros data t r. subst r.
  destruct (together_table data t) as [[E [C|[C _]]]|[T Z]];
    [now left|discriminate C|right].
  split; [|exact Z]. intros E. rewrite E in T. discriminate T.
Qed.
End ConfidenceFacts.

(* ------------------------------------------------------------------ *)
(** ** Lines of a text, and names of fields *)
(* ------------------------------------------------------------------ *)

Section SuffixFacts.
Import JS Vocabulary.
Variable Q : jsstring -> Prop.
Hypothesis Q_tail : forall c t, Q (c :: t) -> Q t.

Lemma keeps_starLoop (greedy : bool) (ma : cont -> cont) :
  (forall k, keeps Q k -> keeps Q (ma k)) ->
  forall fuel k, keeps Q k -> keeps Q (starLoop greedy ma k fuel).
Proof.
  intros Hma. induction fuel as [|fuel IH]; intros k Hk; [exact Hk|].
  intros s m Hs. cbn [starLoop].
  assert (Hagain : keeps Q (ma (fun s' =>
            if Nat.ltb (length (after s')) (length (after s))
            then starLoop greedy ma k fuel s' else None))).
  { apply Hma. intros s' m' Hs'. destruct (Nat.ltb _ _); [|discriminate].
    now apply IH. }
  specialize (Hagain s m Hs). specialize (Hk s m Hs).
  destruct greedy; unfold orElse.
  - destruct (ma _ s) as [x|]; [exact Hagain|exact Hk].
  - destruct (k s) as [x|]; [exact Hk|exact Hagain].
Qed.

Lemma keeps_matcher (r : regex) : forall k, keeps Q k -> keeps Q (matcher r k).
Proof.
  induction r as [|p|a IHa b IHb|a IHa b IHb|greedy a IHa|n a IHa| | |];
    intros k Hk s m Hs; cbn [matcher].
  - now apply Hk.
  - destruct s as [pre [|c t] caps]; cbn [after]; [discriminate|].
    destruct (p c); [|discriminate]. apply Hk. cbn [after] in *.
    exact (Q_tail c t Hs).
  - apply IHa; [now apply IHb|exact Hs].
  - unfold orElse. pose proof (IHa k Hk s m Hs). pose proof (IHb k Hk s m Hs).
    destruct (matcher a k s); assumption.
  - now apply keeps_starLoop.
  - apply IHa; [|exact Hs]. intros s' m' Hs'. apply Hk. exact Hs'.
  - destruct (before s); [now apply Hk|discriminate].
  - destruct (after s) eqn:E; [|discriminate]. apply Hk. now rewrite E.
  - destruct (xorb _ _); [now apply Hk|discriminate].
Qed.

Lemma keeps_matchAt (r : regex) (pre suf : jsstring) (m : mstate) :
  Q suf -> matchAt r pre suf = Some m -> Q (after m).
Proof.
  intros Hs E. refine (keeps_matcher r Some _ (MState pre suf []) m Hs E).
  intros s m' Hs' [= <-]. exact Hs'.
Qed.

End SuffixFacts.

Section AlphabetFacts.
Import JS Vocabulary.
Variable P : codeunit -> bool.

Lemma forallb_tail (c : codeunit) (t : jsstring) :
  forallb P (c :: t) = true -> forallb P t = true.
Proof. cbn [forallb]. intros H. now apply andb_true_iff in H. Qed.

Lemma forallb_rev (s : jsstring) : forallb P (rev s) = forallb P s.
Proof.
  induction s as [|c t IH]; [reflexivity|]. cbn [rev forallb].
  rewrite forallb_app, IH. cbn [forallb]. rewrite andb_true_r. apply andb_comm.
Qed.

Lemma splitLoop_alphabet (r : regex) (fuel : nat) :
  forall pre piece suf,
    forallb P piece = true -> forallb P suf = true ->
    Forall (fun x => forallb P x = true) (splitLoop r fuel pre piece suf).
Proof.
  induction fuel as [|fuel IH]; intros pre piece suf Hp Hs; cbn [splitLoop].
  - constructor; [|constructor]. now rewrite forallb_app, forallb_rev, Hp, Hs.
  - destruct suf as [|c t]; [constructor; [now rewrite forallb_rev|constructor]|].
    assert (Hc : P c = true /\ forallb P t = true)
      by (cbn [forallb] in Hs; now apply andb_true_iff in Hs).
    destruct Hc as [Hc Ht].
    assert (Hskip : Forall (fun x => forallb P x = true)
                      (splitLoop r fuel (c :: pre) (c :: piece) t)).
    { apply IH; [|exact Ht]. cbn [forallb]. now rewrite Hc, Hp. }
    destruct (matchAt r pre (c :: t)) as [m|] eqn:E; [|exact Hskip].
    pose proof (keeps_matchAt (fun x => forallb P x = true) forallb_tail
                  r pre (c :: t) m Hs E) as Hm.
    destruct (Nat.ltb _ _).
    + constructor; [now rewrite forallb_rev|]. now apply IH.
    + destruct piece as [|a q]; [exact Hskip|].
      constructor; [now rewrite forallb_rev|].
      apply IH; [|exact Ht]. cbn [forallb]. now rewrite Hc.
Qed.

Lemma split_alphabet (r : regex) (s : jsstring) :
  forallb P s = true -> Forall (fun x => forallb P x = true) (split r s).
Proof.
  intros H. unfold split. destruct s as [|c t].
  - destruct (matchAt r [] []); constructor; [reflexivity|constructor].
  - now apply splitLoop_alphabet.
Qed.

End AlphabetFacts.

Section TextFacts.
Import JS MetadataExtractor Vocabulary.

Lemma trim_blank (s : jsstring) : forallb isWhiteSpace s = true -> trim s = [].
Proof.
  intros H. unfold trim.
  replace (dropWhile isWhiteSpace s) with (@nil codeunit); [reflexivity|].
  symmetry. induction s as [|c t IH]; [reflexivity|].
  cbn [forallb] in H. apply andb_true_iff in H as [Hc Ht].
  cbn [dropWhile]. rewrite Hc. now apply IH.
Qed.

Lemma linesOf_blank (text : jsstring) :
  forallb isWhiteSpace text = true -> linesOf text = [].
Proof.
  intros H. unfold linesOf.
  pose proof (split_alphabet isWhiteSpace lineBreak text H) as Hall.
  induction Hall as [|x l Hx Hl IH]; [reflexivity|].
  cbn [map filter]. rewrite (trim_blank x Hx). exact IH.
Qed.

End TextFacts.

Section BlankFacts.
Import JS Types MetadataExtractor Vocabulary.
Context {host : Host} {fuse : FieldMatcher.Fuse}.

(** X15. A text made of whitespace only (spaces, tabs, line breaks; the
    empty text among them) has no lines: the metadata extractor returns
    the empty result for it, and the table made from it has no rows. *)
Theorem blank_text_yields_nothing :
  forall (text : jsstring) (source : SourceType),
    forallb isWhiteSpace text = true ->
    extractMetadataFromContent (Text text) = emptyResult
    /\ rows (EnhancedFileParser.createTextData text source) = []
    /\ rowCount (EnhancedFileParser.createTextData text source) = 0.
Proof.
  intros text source H. pose proof (linesOf_blank text H) as E.
  split; [|split].
  - cbn [extractMetadataFromContent]. unfold extractFromText. rewrite E.
    reflexivity.
  - unfold EnhancedFileParser.createTextData. cbn [rows].
    unfold linesOf in E. now rewrite E.
  - unfold EnhancedFileParser.createTextData. cbn [rowCount].
    unfold linesOf in E. now rewrite E.
Qed.

End BlankFacts.

Lemma blank_text_yields_nothing_witness :
  MetadataExtractor.extractMetadataFromContent
    (MetadataExtractor.Text (JS.lit "  " ++ [10%N; 9%N] ++ JS.lit " "))
  = MetadataExtractor.emptyResult
  /\ Types.rows (EnhancedFileParser.createTextData
                   (JS.lit "  " ++ [10%N; 9%N] ++ JS.lit " ") Types.txt) = []
  /\ Types.rowCount (EnhancedFileParser.createTextData
                       (JS.lit "  " ++ [10%N; 9%N] ++ JS.lit " ") Types.txt) = 0.
Proof.
  apply (blank_text_yields_nothing
           (JS.lit "  " ++ [10%N; 9%N] ++ JS.lit " ") Types.txt).
  reflexivity.
Defined.


Section RunFacts.
Import JS Vocabulary.
Variable p : codeunit -> bool.
Variable rep : jsstring.

Lemma squeeze_in_run (t : jsstring) :
  squeeze p rep true t = squeeze p rep false (dropWhile p t).
Proof.
  induction t as [|c t IH]; cbn [squeeze dropWhile]; [reflexivity|].
  destruct (p c) eqn:E; [exact IH|]. cbn [squeeze]. now rewrite E.
Qed.

Lemma replaceLoop_runs (fuel : nat) :
  forall pre suf, length suf < fuel ->
    replaceLoop (Plus true (Char p)) rep fuel pre suf = squeeze p rep false suf.
Proof.
  induction fuel as [|fuel IH]; intros pre suf H; [lia|].
  rewrite replaceLoop_step, matchAt_run.
  destruct suf as [|c t]; [reflexivity|].
  cbn [length] in H. cbn [squeeze]. destruct (p c) eqn:E.
  - cbn [after before].
    pose proof (length_dropWhile p t) as Hlen.
    rewrite (proj2 (Nat.ltb_lt _ _)) by (cbn [length]; lia).
    rewrite IH by lia. now rewrite squeeze_in_run.
  - rewrite IH by lia. reflexivity.
Qed.

Lemma replaceAll_runs (s : jsstring) :
  replaceAll (Plus true (Char p)) rep s = squeeze p rep false s.
Proof. unfold replaceAll. apply replaceLoop_runs. lia. Qed.

Lemma replaceLoop_class (fuel : nat) :
  forall pre suf, length suf <= fuel ->
    replaceLoop (Char p) [] fuel pre suf = filter (fun c => negb (p c)) suf.
Proof.
  induction fuel as [|fuel IH]; intros pre suf H.
  - destruct suf; [reflexivity|cbn [length] in H; lia].
  - rewrite replaceLoop_step. unfold matchAt. cbn [matcher after before captures].
    destruct suf as [|c t]; [reflexivity|]. cbn [length] in H.
    cbn [filter]. destruct (p c) eqn:E; cbn [negb].
    + cbn [after before length].
      rewrite (proj2 (Nat.ltb_lt _ _)) by lia.
      rewrite IH by lia. reflexivity.
    + now rewrite IH by lia.
Qed.

Lemma replaceAll_class (s : jsstring) :
  replaceAll (Char p) [] s = filter (fun c => negb (p c)) s.
Proof. unfold replaceAll. apply replaceLoop_class. lia. Qed.

End RunFacts.

Section FieldCharFacts.
Import JS Vocabulary.

Lemma fieldChar_not_space (c : codeunit) :
  isFieldChar c = true -> isWhiteSpace c = false.
Proof.
  unfold isFieldChar, isLower, isDigit, isWhiteSpace, inRange. intros H.
  repeat rewrite orb_true_iff in H. repeat rewrite andb_true_iff in H.
  repeat rewrite N.leb_le in H. rewrite N.eqb_eq in H.
  repeat rewrite orb_false_iff. repeat rewrite andb_false_iff.
  repeat rewrite N.leb_gt. repeat rewrite N.eqb_neq. lia.
Qed.

Lemma trim_fieldChars (s : jsstring) :
  forallb isFieldChar s = true -> trim s = s.
Proof.
  intros H. unfold trim.
  assert (E : forall x, forallb isFieldChar x = true ->
                        dropWhileEnd isWhiteSpace x = x).
  { induction x as [|c t IH]; [reflexivity|]. cbn [forallb dropWhileEnd].
    intros Hx. apply andb_true_iff in Hx as [Hc Ht]. rewrite (IH Ht).
    destruct t; [|reflexivity]. now rewrite (fieldChar_not_space c Hc). }
  destruct s as [|c t]; [reflexivity|].
  cbn [dropWhile]. cbn [forallb] in H.
  pose proof H as H'. apply andb_true_iff in H' as [Hc Ht].
  rewrite (fieldChar_not_space c Hc). apply E. exact H.
Qed.

Lemma forallb_filter_self (q : codeunit -> bool) (s : jsstring) :
  forallb q (filter q s) = true.
Proof.
  induction s as [|c t IH]; [reflexivity|]. cbn [filter].
  destruct (q c) eqn:E; [|exact IH]. cbn [forallb]. now rewrite E.
Qed.

End FieldCharFacts.

Section NormalizeFacts.
Import JS Vocabulary.
Context {host : Host}.

(** X16. [normalizeFieldName] lowercases the name, replaces every
    maximal run of underscores, whitespace and dashes by one underscore
    and then drops every code unit other than a to z, 0 to 9 and
    underscore; the final [trim] finds nothing to remove, and the result
    consists of those code units only. *)
Theorem normalizeFieldName_shape :
  forall (fieldName : jsstring),
    FieldMatcher.normalizeFieldName fieldName
    = filter isFieldChar
        (squeeze isSeparator (lit "_") false (toLowerCase fieldName))
    /\ forallb isFieldChar (FieldMatcher.normalizeFieldName fieldName) = true.
Proof.
  intros fieldName.
  assert (E : FieldMatcher.normalizeFieldName fieldName
              = filter isFieldChar
                  (squeeze isSeparator (lit "_") false (toLowerCase fieldName))).
  { unfold FieldMatcher.normalizeFieldName, FieldMatcher.separators,
      FieldMatcher.specialChar.
    rewrite replaceAll_runs, replaceAll_class.
    fold isSeparator.
    rewrite (filter_ext _ isFieldChar)
      by (intros c; unfold isFieldChar; apply negb_involutive).
    apply trim_fieldChars, forallb_filter_self. }
  split; [exact E|]. rewrite E. apply forallb_filter_self.
Qed.

End NormalizeFacts.

(* ------------------------------------------------------------------ *)
(** ** The field matcher *)
(* ------------------------------------------------------------------ *)

Section SortFacts.
Import JSArray.
Context {A : Type}.
Variable neg : A -> A -> bool.

Lemma insertSorted_perm (x : A) (l : list A) :
  Permutation (insertSorted neg x l) (x :: l).
Proof.
  induction l as [|y ys IH]; cbn [insertSorted]; [reflexivity|].
  destruct (neg y x); [|reflexivity].
  rewrite IH. apply perm_swap.
Qed.

Lemma sort_perm (l : list A) : Permutation (sort neg l) l.
Proof.
  induction l as [|x l IH]; [reflexivity|].
  unfold sort. cbn [fold_right]. fold (sort neg l).
  rewrite insertSorted_perm. now constructor.
Qed.

End SortFacts.

Section MatcherFacts.
Import JS JSArray FieldMatcher Vocabulary.
Context {fuse : Fuse}.
Variable targetFields : list TargetField.

Lemma collectMatches_choose (sourceFields : list jsstring) :
  collectMatches targetFields sourceFields
  = choose (findBestMatch targetFields) sourceFields.
Proof.
  induction sourceFields as [|s rest IH]; [reflexivity|].
  cbn [collectMatches choose flat_map]. unfold findBestMatch at 1.
  destruct (search targetFields s) as [|best others]; [exact IH|].
  cbn [app]. now rewrite IH.
Qed.

Lemma findBestMatch_source (s : jsstring) (m : FieldMatch) :
  findBestMatch targetFields s = Some m -> sourceField m = s.
Proof.
  unfold findBestMatch. destruct (search targetFields s); [discriminate|].
  now intros [= <-].
Qed.

Lemma matchFields_perm (sourceFields : list jsstring) :
  Permutation (matchFields targetFields sourceFields)
              (choose (findBestMatch targetFields) sourceFields).
Proof. unfold matchFields. rewrite sort_perm. now rewrite collectMatches_choose. Qed.

Lemma matchFields_in (sourceFields : list jsstring) (m : FieldMatch) :
  In m (matchFields targetFields sourceFields) <->
  In (sourceField m) sourceFields
  /\ findBestMatch targetFields (sourceField m) = Some m.
Proof.
  pose proof (matchFields_perm sourceFields) as P. split.
  - intros H. apply (Permutation_in _ P) in H.
    unfold choose in H. apply in_flat_map in H as [s [Hs Hm]].
    destruct (findBestMatch targetFields s) as [b|] eqn:E; [|destruct Hm].
    destruct Hm as [<-|[]]. rewrite (findBestMatch_source s b E). now split.
  - intros [Hs E]. apply (Permutation_in _ (Permutation_sym P)).
    unfold choose. apply in_flat_map. exists (sourceField m). split; [exact Hs|].
    rewrite E. now left.
Qed.

(** X17. [matchFields] returns, in some order, the best match of every
    source field that has one, once for each time the field is listed:
    a match is returned exactly when its source field is listed and it
    is what [findBestMatch] returns for that field. *)
Theorem matchFields_are_best_matches :
  forall (sourceFields : list jsstring),
    Permutation (matchFields targetFields sourceFields)
                (choose (findBestMatch targetFields) sourceFields)
    /\ (forall m, In m (matchFields targetFields sourceFields) <->
                  In (sourceField m) sourceFields
                  /\ findBestMatch targetFields (sourceField m) = Some m).
Proof.
  intros sourceFields. split; [apply matchFields_perm|].
  intros m. apply matchFields_in.
Qed.

Lemma mapGet_set_same (key value : jsstring) (mapping : StringMap) :
  mapGet key (mapSet key value mapping) = Some value.
Proof.
  unfold mapGet. induction mapping as [|[k v] later IH]; cbn [mapSet find fst snd].
  - now rewrite eqb_refl.
  - destruct (eqb k key) eqn:E; cbn [find fst snd]; rewrite E; [reflexivity|exact IH].
Qed.

Lemma mapGet_set_other (key other value : jsstring) (mapping : StringMap) :
  key <> other ->
  mapGet other (mapSet key value mapping) = mapGet other mapping.
Proof.
  intros H. apply eqb_neq in H. unfold mapGet.
  induction mapping as [|[k v] later IH]; cbn [mapSet find fst snd].
  - now rewrite H.
  - destruct (eqb k key) eqn:E; cbn [find fst snd].
    + apply eqb_eq in E. subst k. now rewrite H.
    + destruct (eqb k other); [reflexivity|exact IH].
Qed.

Lemma mapHas_get (key : jsstring) (mapping : StringMap) :
  mapHas key mapping = match mapGet key mapping with Some _ => true | None => false end.
Proof.
  unfold mapHas, mapGet. induction mapping as [|[k v] later IH]; [reflexivity|].
  cbn [existsb find fst]. destruct (eqb k key); [reflexivity|exact IH].
Qed.

Lemma autoMap_fold (minimum : float) (matches : list FieldMatch) :
  (forall m, In m matches ->
     findBestMatch targetFields (sourceField m) = Some m) ->
  forall (mapping : StringMap) (s : jsstring),
    mapGet s
      (fold_left
         (fun mapping m =>
            if PrimFloat.leb minimum (confidence m)
            then mapSet (sourceField m) (targetField m) mapping
            else mapping)
         matches mapping)
    = if existsb (fun m => eqb (sourceField m) s
                           && PrimFloat.leb minimum (confidence m))%bool matches
      then match findBestMatch targetFields s with
           | Some m => Some (targetField m)
           | None => None
           end
      else mapGet s mapping.
Proof.
  induction matches as [|m later IH]; intros H mapping s; [reflexivity|].
  cbn [fold_left existsb].
  rewrite IH by (intros x Hx; apply H; now right).
  destruct (existsb _ later); [now rewrite orb_true_r|]. rewrite orb_false_r.
  destruct (PrimFloat.leb minimum (confidence m)); [|now rewrite andb_false_r].
  rewrite andb_true_r. destruct (eqb (sourceField m) s) eqn:E.
  - apply eqb_eq in E. subst s. rewrite mapGet_set_same.
    now rewrite (H m (or_introl eq_refl)).
  - apply eqb_neq in E. now apply mapGet_set_other.
Qed.

Lemma existsb_eqb_in (s : jsstring) (l : list jsstring) :
  existsb (eqb s) l = true <-> In s l.
Proof.
  rewrite existsb_exists. split.
  - intros [x [Hx E]]. apply eqb_eq in E. now subst x.
  - intros H. exists s. split; [exact H|apply eqb_refl].
Qed.

Lemma autoMap_get (sourceFields : list jsstring) (minConfidence : option float)
  (s : jsstring) :
  mapGet s (autoMap targetFields sourceFields minConfidence)
  = match findBestMatch targetFields s with
    | Some m =>
        if (existsb (eqb s) sourceFields
            && PrimFloat.leb
                 (match minConfidence with Some x => x | None => 0.6%float end)
                 (confidence m))%bool
        then Some (targetField m) else None
    | None => None
    end.
Proof.
  unfold autoMap.
  rewrite autoMap_fold by (intros m Hm; now apply matchFields_in in Hm).
  set (minimum := match minConfidence with Some x => x | None => 0.6%float end).
  cbn [mapGet find].
  destruct (existsb _ (matchFields targetFields sourceFields)) eqn:X.
  - apply existsb_exists in X as [m [Hm Q]].
    apply andb_true_iff in Q as [E Q]. apply eqb_eq in E. subst s.
    apply matchFields_in in Hm as [Hs Hb]. rewrite Hb.
    rewrite (proj2 (existsb_eqb_in _ _) Hs), Q. reflexivity.
  - destruct (findBestMatch targetFields s) as [m|] eqn:B; [|reflexivity].
    destruct (existsb (eqb s) sourceFields && _)%bool eqn:Y; [|reflexivity].
    apply andb_true_iff in Y as [Hs Q]. apply existsb_eqb_in in Hs.
    assert (F : existsb (fun m => eqb (sourceField m) s
                           && PrimFloat.leb minimum (confidence m))%bool
                  (matchFields targetFields sourceFields) = true).
    { apply existsb_exists. exists m.
      pose proof (findBestMatch_source s m B) as Es.
      split; [apply matchFields_in; rewrite Es; now split|].
      rewrite Es, eqb_refl. exact Q. }
    congruence.
Qed.

(** X18. After [autoMap], a source field is mapped exactly when it is
    listed, has a best match, and the confidence of that match is at
    least the minimum (0.6 unless given); it is then mapped to the target
    of its best match. *)
Theorem autoMap_maps_confident_best_matches :
  forall (sourceFields : list jsstring) (minConfidence : option float)
         (s : jsstring),
    mapGet s (autoMap targetFields sourceFields minConfidence)
    = match findBestMatch targetFields s with
      | Some m =>
          if (existsb (eqb s) sourceFields
              && PrimFloat.leb
                   (match minConfidence with Some x => x | None => 0.6%float end)
                   (confidence m))%bool
          then Some (targetField m) else None
      | None => None
      end.
Proof. exact autoMap_get. Qed.

(** X19. The fields that [getUnmappedFields] reports after [autoMap]
    over the same source fields are, in order, those without a best
    match and those whose best match falls below the minimum. *)
Theorem unmapped_fields_after_autoMap :
  forall (sourceFields : list jsstring) (minConfidence : option float),
    getUnmappedFields sourceFields
      (autoMap targetFields sourceFields minConfidence)
    = filter (fun s =>
                match findBestMatch targetFields s with
                | Some m =>
                    negb (PrimFloat.leb
                            (match minConfidence with
                             | Some x => x | None => 0.6%float end)
                            (confidence m))
                | None => true
                end) sourceFields.
Proof.
  intros sourceFields minConfidence. unfold getUnmappedFields.
  apply filter_ext_in. intros s Hs.
  rewrite mapHas_get, autoMap_get.
  rewrite (proj2 (existsb_eqb_in _ _) Hs). cbn [andb].
  destruct (findBestMatch targetFields s) as [m|]; [|reflexivity].
  destruct (PrimFloat.leb _ _); reflexivity.
Qed.

(** X20. What [autoMap] maps, [validateMapping] confirms: for a pair of
    the mapping it returns a confidence of at least the minimum, and the
    source field of the pair is one of those given. *)
Theorem validateMapping_confirms_autoMap :
  forall (sourceFields : list jsstring) (minConfidence : option float)
         (s t : jsstring),
    mapGet s (autoMap targetFields sourceFields minConfidence) = Some t ->
    PrimFloat.leb (match minConfidence with Some x => x | None => 0.6%float end)
                  (validateMapping targetFields s t) = true
    /\ In s sourceFields.
Proof.
  intros sourceFields minConfidence s t H. rewrite autoMap_get in H.
  unfold validateMapping.
  destruct (findBestMatch targetFields s) as [m|]; [|discriminate].
  destruct (existsb (eqb s) sourceFields) eqn:Hs; [|discriminate].
  cbn [andb] in H. destruct (PrimFloat.leb _ (confidence m)) eqn:Q; [|discriminate].
  injection H as <-. rewrite eqb_refl. split; [exact Q|].
  now apply existsb_eqb_in.
Qed.

(** X21. With a positive limit (the default 5 among them),
    [findAllMatches] starts with what [findBestMatch] returns, has at
    most limit entries, and every entry is a match of the field asked
    for. *)
Theorem findAllMatches_starts_with_best :
  forall (s : jsstring) (limit : option Z),
    (0 < match limit with Some n => n | None => 5 end)%Z ->
    hd_error (findAllMatches targetFields s limit) = findBestMatch targetFields s
    /\ (Z.of_nat (length (findAllMatches targetFields s limit))
        <= match limit with Some n => n | None => 5 end)%Z
    /\ Forall (fun m => sourceField m = s) (findAllMatches targetFields s limit).
Proof.
  intros s limit H. unfold findAllMatches, findBestMatch, sliceTo.
  set (n := match limit with Some n => n | None => 5%Z end) in *.
  destruct (n <? 0)%Z eqn:N; [apply Z.ltb_lt in N; lia|].
  split; [|split].
  - destruct (search targetFields s) as [|best others]; [now rewrite firstn_nil|].
    destruct (Z.to_nat n) eqn:K; [lia|]. reflexivity.
  - rewrite length_map, length_firstn. lia.
  - apply Forall_forall. intros m Hm. apply in_map_iff in Hm as [r [<- _]].
    reflexivity.
Qed.

End MatcherFacts.

Lemma validateMapping_confirms_autoMap_witness :
  PrimFloat.leb 0.6
    (@FieldMatcher.validateMapping Samples.nameFuse Samples.placeTargets
       (JS.lit "location") (JS.lit "location")) = true
  /\ In (JS.lit "location") [JS.lit "location"; JS.lit "notes"].
Proof.
  apply (@validateMapping_confirms_autoMap Samples.nameFuse Samples.placeTargets
           [JS.lit "location"; JS.lit "notes"] None
           (JS.lit "location") (JS.lit "location")).
  vm_compute. reflexivity.
Defined.

Lemma findAllMatches_starts_with_best_witness :
  hd_error (@FieldMatcher.findAllMatches Samples.nameFuse Samples.placeTargets
              (JS.lit "location") None)
  = @FieldMatcher.findBestMatch Samples.nameFuse Samples.placeTargets
      (JS.lit "location")
  /\ (Z.of_nat (length (@FieldMatcher.findAllMatches Samples.nameFuse
                          Samples.placeTargets (JS.lit "location") None))
      <= 5)%Z
  /\ Forall (fun m => FieldMatcher.sourceField m = JS.lit "location")
            (@FieldMatcher.findAllMatches Samples.nameFuse Samples.placeTargets
               (JS.lit "location") None).
Proof.
  apply (@findAllMatches_starts_with_best Samples.nameFuse Samples.placeTargets
           (JS.lit "location") None).
  reflexivity.
Defined.

(* ------------------------------------------------------------------ *)
(** ** Source tags, the two validations, and the plain parser *)
(* ------------------------------------------------------------------ *)

Section TagFacts.
Import JS Types Parser EnhancedFileParser Vocabulary.
Context {host : Host} {libs : Libraries}.

Lemma tagged_createTextData (text : jsstring) (source : SourceType) :
  tagged source (createTextData text source).
Proof. split; [reflexivity|]. destruct source; cbn; congruence. Qed.

Lemma tagged_tableOf (first : value) (items : list value) :
  forall t, tableOf first items = Resolved t -> tagged json t.
Proof.
  intros t E. unfold tableOf in E.
  destruct (keys first) as [hs|e]; [|discriminate].
  destruct (mapM _ items) as [rs|e]; [|discriminate].
  injection E as <-. split; reflexivity.
Qed.

Lemma tagged_parseCSV (file : File) : produces (parseCSV file) (tagged csv).
Proof.
  unfold parseCSV. apply produces_bind. intros [results|message];
    [|apply produces_throw].
  apply produces_ret. split; reflexivity.
Qed.

Lemma tagged_parseExcel (file : File) : produces (parseExcel file) (tagged excel).
Proof.
  unfold parseExcel. apply produces_bind. intros buffer.
  apply produces_bind. intros [|first others]; [apply produces_throw|].
  apply produces_ret. split; reflexivity.
Qed.

Lemma tagged_parseText (file : File) : produces (parseText file) (tagged txt).
Proof.
  unfold parseText. apply produces_bind. intros text.
  apply produces_ret, tagged_createTextData.
Qed.

Lemma tagged_parsePDF (file : File) : produces (parsePDF file) (tagged pdf).
Proof.
  unfold parsePDF. destruct (negb hasDocument); [apply produces_throw|].
  apply produces_bind. intros buffer. apply produces_bind. intros doc.
  apply produces_bind. intros texts.
  destruct (negb (truthy (trim (join newline texts))));
    [apply produces_throw|apply produces_ret, tagged_createTextData].
Qed.

Lemma tagged_parseImage (file : File) : produces (parseImage file) (tagged image_ocr).
Proof.
  unfold parseImage. apply produces_bind. intros worker.
  apply produces_tryFinally. apply produces_bind. intros _.
  apply produces_bind. intros recognized.
  destruct (negb (truthy match recognized with Some t => trim t | None => [] end));
    [apply produces_throw|apply produces_ret, tagged_createTextData].
Qed.

Lemma tagged_parseJSON (file : File) : produces (parseJSON file) (tagged json).
Proof.
  unfold parseJSON. apply produces_bind. intros text.
  apply produces_bind. intros data.
  destruct (arrayOfObjects data) as [[first items]|].
  - apply produces_await. apply tagged_tableOf.
  - apply produces_bind. intros ks. apply produces_bind.
    intros [[[|k key] [first nested]]|].
    + destruct data; try apply produces_throw.
      apply produces_ret. split; reflexivity.
    + apply produces_await. apply tagged_tableOf.
    + destruct data; try apply produces_throw.
      apply produces_ret. split; reflexivity.
Qed.

(** X22. The table of a success carries the tag of the extractor that
    the extension of the file, lowercased, is routed to (csv; excel for
    xlsx and xls; pdf; json; txt; image_ocr for png, jpg, jpeg, webp and
    gif), and the recognized text is kept beside the table exactly for
    image_ocr. *)
Theorem success_tag_follows_extension :
  forall (config : EnhancedFileParserConfig) (file : File) (w w' : World)
         (r : ParseResult),
    parse config file w = (Resolved r, w') ->
    success r = true ->
    exists c k,
      content r = Some c
      /\ tagged k (raw c)
      /\ routedTo (toLowerCase (getFileExtension (name file))) k = true.
Proof.
  unfold parse, tryCatch. intros config file w w' r E Hs.
  destruct (negb (isValid (validate config file))).
  - injection E as <- _. discriminate.
  - unfold bind in E.
    destruct (route file (getFileExtension (name file)) w) as [[t|e] w1] eqn:Er.
    + injection E as <- _. exists {| raw := t; metadata := extractMetadata file |}.
      cbn [content raw]. unfold route in Er.
      destruct (isOneOf _ ["csv"%string]) eqn:R1.
      { exists csv. split; [reflexivity|]. split; [|exact R1].
        exact (tagged_parseCSV file w t w1 Er). }
      destruct (isOneOf _ ["xlsx"; "xls"]%string) eqn:R2.
      { exists excel. split; [reflexivity|]. split; [|exact R2].
        exact (tagged_parseExcel file w t w1 Er). }
      destruct (isOneOf _ ["pdf"%string]) eqn:R3.
      { exists pdf. split; [reflexivity|]. split; [|exact R3].
        exact (tagged_parsePDF file w t w1 Er). }
      destruct (isOneOf _ ["json"%string]) eqn:R4.
      { exists json. split; [reflexivity|]. split; [|exact R4].
        exact (tagged_parseJSON file w t w1 Er). }
      destruct (isOneOf _ ["txt"%string]) eqn:R5.
      { exists txt. split; [reflexivity|]. split; [|exact R5].
        exact (tagged_parseText file w t w1 Er). }
      destruct (isOneOf _ ["png"; "jpg"; "jpeg"; "webp"; "gif"]%string) eqn:R6.
      { exists image_ocr. split; [reflexivity|]. split; [|exact R6].
        exact (tagged_parseImage file w t w1 Er). }
      discriminate.
    + injection E as <- _. discriminate.
Qed.

End TagFacts.

Lemma success_tag_follows_extension_witness :
  exists k,
    Vocabulary.routedTo
      (JS.toLowerCase
         (EnhancedFileParser.getFileExtension
            (Parser.name SampleLibraries.workbook))) k = true.
Proof.
  pose (r := {| Parser.success := true;
                Parser.content :=
                  Some {| Parser.raw :=
                            {| Types.headers := [JS.lit "Place"; JS.lit "City"];
                               Types.rows := [[Types.CString (JS.lit "Eiffel Tower")]];
                               Types.rowCount := 1;
                               Types.columnCount := 2;
                               Types.sourceType := Some Types.excel;
                               Types.ocrText := None |};
                          Parser.metadata :=
                            EnhancedFileParser.extractMetadata
                              SampleLibraries.workbook |};
                Parser.error := None |}).
  assert (E : EnhancedFileParser.parse SampleLibraries.documents
                SampleLibraries.workbook SampleLibraries.freshWorld
              = (EnhancedFileParser.Resolved r, SampleLibraries.freshWorld))
    by (vm_compute; reflexivity).
  destruct (success_tag_follows_extension SampleLibraries.documents
              SampleLibraries.workbook SampleLibraries.freshWorld
              SampleLibraries.freshWorld r E eq_refl) as [c [k [_ [_ H]]]].
  exists k. exact H.
Defined.

Section ValidateFacts.
Import JS Types Parser Vocabulary.
Context {host : Host}.

Lemma extension_agrees (fileName : jsstring) :
  toLowerCase [] = [] ->
  toLowerCase (EnhancedFileParser.getFileExtension fileName)
  = FileParser.fileExtensionOf fileName.
Proof.
  intros H. unfold EnhancedFileParser.getFileExtension, FileParser.fileExtensionOf,
    groupOr.
  destruct (group 1 (exec extensionPattern fileName)); [reflexivity|exact H].
Qed.

Lemma formatMatches_weaker (file : File) (format : FileFormat) :
  toLowerCase [] = [] ->
  EnhancedFileParser.formatMatches file
    (EnhancedFileParser.getFileExtension (name file)) format = true ->
  FileParser.formatMatches file (FileParser.fileExtensionOf (name file)) format
  = true.
Proof.
  intros H. unfold EnhancedFileParser.formatMatches, FileParser.formatMatches.
  rewrite (extension_agrees _ H).
  destruct (eqb _ (FileParser.fileExtensionOf (name file)));
    destruct (eqb (mimeType format) (type file));
    destruct (validator format) as [accepts|]; try destruct (accepts file);
    cbn; congruence.
Qed.

(** X23. With the same formats and the same size limit,
    [EnhancedFileParser.validate] is at least as strict as
    [FileParser.validate]: whatever it accepts the other accepts, and its
    errors are those of the other, with at most the message about the
    format added at the end.  (The lowercase of the empty string is taken
    to be the empty string.) *)
Theorem enhanced_validate_is_stricter :
  forall (enhanced : EnhancedFileParser.EnhancedFileParserConfig)
         (basic : FileParser.FileParserConfig) (file : File),
    toLowerCase [] = [] ->
    EnhancedFileParser.supportedFormats enhanced = FileParser.supportedFormats basic ->
    EnhancedFileParser.maxFileSize enhanced = FileParser.maxFileSize basic ->
    (isValid (EnhancedFileParser.validate enhanced file) = true ->
     isValid (FileParser.validate basic file) = true)
    /\ (errors (EnhancedFileParser.validate enhanced file)
        = errors (FileParser.validate basic file)
        \/ errors (EnhancedFileParser.validate enhanced file)
           = errors (FileParser.validate basic file)
             ++ [formatError (FileParser.supportedFormats basic)]).
Proof.
  intros enhanced basic file H Ef Em.
  assert (Hfind :
    forall f, find (EnhancedFileParser.formatMatches file
                      (EnhancedFileParser.getFileExtension (name file)))
                   (FileParser.supportedFormats basic) = Some f ->
      exists g, find (FileParser.formatMatches file
                        (FileParser.fileExtensionOf (name file)))
                     (FileParser.supportedFormats basic) = Some g).
  { intros f Hf. apply find_some_iff. apply find_some in Hf as [Hin Hm].
    exists f. split; [exact Hin|]. now apply formatMatches_weaker. }
  unfold EnhancedFileParser.validate, FileParser.validate. cbv zeta.
  rewrite Ef, Em. cbn [isValid errors].
  set (errors2 := if (size file =? 0)%N then _ else _).
  destruct (find (EnhancedFileParser.formatMatches _ _) _) as [f|] eqn:Fe.
  - destruct (Hfind f eq_refl) as [g ->]. split; [tauto|now left].
  - destruct (find (FileParser.formatMatches _ _) _) as [g|].
    + split; [|now right]. rewrite length_app. cbn [length].
      intros V. apply Nat.eqb_eq in V. lia.
    + split; [tauto|now left].
Qed.

End ValidateFacts.

Lemma enhanced_validate_is_stricter_witness :
  (Parser.isValid (EnhancedFileParser.validate Samples.csvOnly Samples.smallCsv)
   = true ->
   Parser.isValid (FileParser.validate Samples.csvOnlyPlain Samples.smallCsv)
   = true)
  /\ (Parser.errors (EnhancedFileParser.validate Samples.csvOnly Samples.smallCsv)
      = Parser.errors (FileParser.validate Samples.csvOnlyPlain Samples.smallCsv)
      \/ Parser.errors (EnhancedFileParser.validate Samples.csvOnly Samples.smallCsv)
         = Parser.errors (FileParser.validate Samples.csvOnlyPlain Samples.smallCsv)
           ++ [Parser.formatError
                 (FileParser.supportedFormats Samples.csvOnlyPlain)]).
Proof.
  apply (enhanced_validate_is_stricter Samples.csvOnly Samples.csvOnlyPlain
           Samples.smallCsv); reflexivity.
Defined.

Section ReadingFacts.
Import JS Types Parser FileParser Vocabulary.
Context {host : Host} {reader : FileReader}.
Variable config : FileParserConfig.

(** X24. [FileParser.parse] always fulfils.  Its result is a success
    exactly when the file passes [validate] and the read (as text for a
    text type, as an array buffer otherwise) loads a result that is not
    null; the content is then that result with the name, size, type and
    modification time of the file.  Every other result has no content
    and an error: VALIDATION_ERROR with the validation errors as details
    for a file that fails [validate], PARSE_ERROR for one that passes. *)
Theorem basic_parse_success_iff_loaded :
  forall (file : File),
    exists r,
      parse config file = Fulfilled r
      /\ (success r = true <->
          Parser.isValid (validate config file) = true
          /\ exists result,
               (if isTextFormat file then readAsText file
                else readAsArrayBuffer file) = OnLoad (Some result))
      /\ match content r with
         | Some c =>
             success r = true
             /\ error r = None
             /\ (if isTextFormat file then readAsText file
                 else readAsArrayBuffer file) = OnLoad (Some (raw c))
             /\ metadata c
                = {| metaName := name file; metaSize := size file;
                     metaType := type file; metaLastModified := lastModified file |}
         | None =>
             success r = false
             /\ exists e,
                  error r = Some e
                  /\ (code e = lit "VALIDATION_ERROR"
                      /\ Parser.isValid (validate config file) = false
                      /\ details e = ValidationErrors (Parser.errors (validate config file))
                      \/ code e = lit "PARSE_ERROR"
                         /\ Parser.isValid (validate config file) = true)
         end.
Proof.
  intros file. unfold parse, extractContent, readFileContent.
  destruct (Parser.isValid (validate config file)) eqn:V; cbn [negb].
  - destruct (if isTextFormat file then readAsText file else readAsArrayBuffer file)
      as [[result|]|message|]; eexists; (split; [reflexivity|]);
      cbn [success content error raw metadata code details].
    + split; [split; [intros _; split; [reflexivity|now exists result]|reflexivity]|].
      repeat split.
    + split; [split; [discriminate|intros [_ [x Hx]]; discriminate]|].
      split; [reflexivity|]. eexists. split; [reflexivity|]. right. now split.
    + split; [split; [discriminate|intros [_ [x Hx]]; discriminate]|].
      split; [reflexivity|]. eexists. split; [reflexivity|]. right. now split.
    + split; [split; [discriminate|intros [_ [x Hx]]; discriminate]|].
      split; [reflexivity|]. eexists. split; [reflexivity|]. right. now split.
  - eexists. split; [reflexivity|]. cbn [success content error code details].
    split; [split; [discriminate|intros [F _]; discriminate]|].
    split; [reflexivity|]. eexists. split; [reflexivity|]. left. repeat split.
Qed.

End ReadingFacts.

(* ------------------------------------------------------------------ *)
(** ** Line breaks, and the pages of a PDF *)
(* ------------------------------------------------------------------ *)

Section BreakFacts.
Import JS MetadataExtractor Vocabulary.

Lemma matchAt_lineBreak (pre suf : jsstring) :
  matchAt lineBreak pre suf
  = match suf with
    | c :: t =>
        if N.eqb c 10 then Some (MState (c :: pre) t [])
        else match t with
             | d :: t' =>
                 if (N.eqb c 13 && N.eqb d 10)%bool
                 then Some (MState (d :: c :: pre) t' [])
                 else None
             | [] => None
             end
    | [] => None
    end.
Proof.
  unfold matchAt, lineBreak, Opt, only. cbn [matcher after before captures].
  destruct suf as [|c t]; [reflexivity|].
  rewrite (N.eqb_sym 13 c), (N.eqb_sym 10 c).
  destruct (N.eqb c 13) eqn:E13.
  - apply N.eqb_eq in E13. subst c. cbn [N.eqb Pos.eqb andb].
    destruct t as [|d t']; [reflexivity|].
    change (match d with 0%N => false | N.pos q => (10 =? q)%positive end)
      with (N.eqb 10 d).
    rewrite (N.eqb_sym 10 d). destruct (N.eqb d 10); reflexivity.
  - destruct (N.eqb c 10) eqn:E10; cbn [orElse andb]; [reflexivity|].
    destruct t; reflexivity.
Qed.

Lemma splitLoop_lineBreak (fuel : nat) :
  forall pre piece suf, length suf <= fuel ->
    splitLoop lineBreak fuel pre piece suf = breakLines piece suf.
Proof.
  induction fuel as [|fuel IH]; intros pre piece suf H.
  - destruct suf; [|cbn [length] in H; lia].
    cbn [splitLoop breakLines]. now rewrite app_nil_r.
  - cbn [splitLoop]. destruct suf as [|c t]; [reflexivity|].
    cbn [length] in H. rewrite matchAt_lineBreak. cbn [breakLines].
    destruct (N.eqb c 10).
    + cbn [after before length].
      rewrite (proj2 (Nat.ltb_lt _ _)) by lia. now rewrite IH by lia.
    + destruct t as [|d t']; [now rewrite IH by (cbn [length]; lia)|].
      destruct (N.eqb c 13 && N.eqb d 10)%bool.
      * cbn [after before length] in *.
        rewrite (proj2 (Nat.ltb_lt _ _)) by lia. now rewrite IH by lia.
      * now rewrite IH by (cbn [length] in *; lia).
Qed.

Lemma split_lineBreak (s : jsstring) : split lineBreak s = breakLines [] s.
Proof.
  unfold split. destruct s as [|c t]; [reflexivity|].
  now apply splitLoop_lineBreak.
Qed.

Lemma breakLines_flat (t : jsstring) :
  forallb noBreak t = true ->
  forall piece,
    breakLines piece t = [rev piece ++ t]
    /\ forall rest, breakLines piece (t ++ 10%N :: rest)
                    = (rev piece ++ t) :: breakLines [] rest.
Proof.
  induction t as [|c t IH]; intros H piece.
  - cbn [breakLines app]. rewrite app_nil_r. split; reflexivity.
  - cbn [forallb] in H. apply andb_true_iff in H as [Hc Ht].
    unfold noBreak in Hc. apply negb_true_iff, orb_false_iff in Hc as [H10 H13].
    destruct (IH Ht (c :: piece)) as [IH1 IH2]. cbn [rev] in IH1, IH2.
    rewrite <- app_assoc in IH1, IH2. cbn [app] in IH1, IH2.
    split.
    + cbn [breakLines]. rewrite H10, H13. cbn [andb].
      destruct t; exact IH1.
    + intros rest. cbn [breakLines app]. rewrite H10, H13. cbn [andb].
      specialize (IH2 rest).
      destruct (t ++ 10%N :: rest) eqn:E; [destruct t; discriminate E|].
      exact IH2.
Qed.

Lemma breakLines_join (texts : list jsstring) :
  texts <> [] ->
  Forall (fun t => forallb noBreak t = true) texts ->
  breakLines [] (join newline texts) = texts.
Proof.
  intros Hne H. induction H as [|p rest Hp Hrest IH]; [contradiction|].
  destruct rest as [|q r].
  - cbn [join]. now destruct (breakLines_flat p Hp []) as [-> _].
  - change (join newline (p :: q :: r))
      with (p ++ 10%N :: join newline (q :: r)).
    destruct (breakLines_flat p Hp []) as [_ ->]. cbn [rev app].
    now rewrite IH.
Qed.

Lemma join_trimmed (texts : list jsstring) :
  texts <> [] -> Forall trimmed texts -> trimmed (join newline texts).
Proof.
  intros Hne H. induction H as [|p rest Hp Hrest IH]; [contradiction|].
  destruct rest as [|q r]; [exact Hp|].
  change (join newline (p :: q :: r)) with (p ++ 10%N :: join newline (q :: r)).
  destruct Hp as [Pn [Ph Pl]].
  destruct IH as [Jn [Jh Jl]]; [discriminate|].
  set (J := join newline (q :: r)) in *.
  split; [|split].
  - destruct p; [contradiction|discriminate].
  - now rewrite headIs_app.
  - rewrite rev_app_distr. cbn [rev]. rewrite <- app_assoc.
    rewrite headIs_app; [exact Jl|].
    intros E. apply (f_equal (@rev _)) in E. rewrite rev_involutive in E.
    contradiction.
Qed.

Lemma trim_of_trimmed (t : jsstring) : trimmed t -> trim t = t.
Proof.
  intros [_ [Hh Hl]]. unfold trim. rewrite dropWhile_id by exact Hh.
  now apply dropWhileEnd_id.
Qed.

Lemma lines_of_trimmed (texts : list jsstring) :
  Forall trimmed texts -> filter truthy (map trim texts) = texts.
Proof.
  intros H. induction H as [|p rest Hp Hrest IH]; [reflexivity|].
  cbn [map filter]. rewrite (trim_of_trimmed p Hp), IH.
  destruct Hp as [Pn _]. destruct p; [contradiction|reflexivity].
Qed.

Lemma singleSpaced_noBreak (t : jsstring) :
  singleSpaced t = true -> forallb noBreak t = true.
Proof.
  induction t as [|c t IH]; [reflexivity|]. cbn [singleSpaced forallb].
  destruct (isWhiteSpace c) eqn:W.
  - intros H. apply andb_true_iff in H as [H Hs].
    apply andb_true_iff in H as [H32 _]. apply N.eqb_eq in H32. subst c.
    now rewrite (IH Hs).
  - intros H. rewrite (IH H), andb_true_r. unfold noBreak.
    destruct (N.eqb c 10) eqn:E10; [apply N.eqb_eq in E10; subst c; discriminate W|].
    destruct (N.eqb c 13) eqn:E13; [apply N.eqb_eq in E13; subst c; discriminate W|].
    reflexivity.
Qed.

End BreakFacts.

Section PageFacts.
Import JS Types Parser MetadataExtractor EnhancedFileParser Vocabulary.
Context {libs : Libraries}.

Lemma nativeTextOf_line (textItems : list PdfItem) :
  truthy (nativeTextOf textItems) = true ->
  trimmed (nativeTextOf textItems)
  /\ forallb noBreak (nativeTextOf textItems) = true.
Proof.
  intros H. unfold nativeTextOf in *. rewrite replaceAll_whitespaceRun in *.
  set (x := collapseFrom false _) in *. split; [split; [|split]|].
  - intros E. rewrite E in H. discriminate H.
  - unfold trim. apply headIs_dropWhileEnd, headIs_dropWhile.
  - unfold trim. apply last_dropWhileEnd.
  - apply singleSpaced_noBreak. unfold trim.
    apply singleSpaced_dropWhileEnd, singleSpaced_dropWhile, singleSpaced_collapse.
Qed.

Lemma pageTexts_lines (items : nat -> option (list PdfItem)) (pages : nat) :
  Forall trimmed (pageTexts items pages)
  /\ Forall (fun t => forallb noBreak t = true) (pageTexts items pages).
Proof.
  unfold pageTexts. induction (seq 1 pages) as [|n l [IH1 IH2]];
    [split; constructor|].
  cbn [map filter].
  destruct (truthy (nativeTextOf _)) eqn:T; [|now split].
  destruct (nativeTextOf_line _ T). split; now constructor.
Qed.

(** The table made from the joined page texts has them as its rows. *)
Lemma createTextData_pageTexts (items : nat -> option (list PdfItem))
  (pages : nat) (source : SourceType) :
  pageTexts items pages <> [] ->
  trim (join newline (pageTexts items pages)) = join newline (pageTexts items pages)
  /\ rows (createTextData (join newline (pageTexts items pages)) source)
     = map (fun x => [CString x]) (pageTexts items pages)
  /\ rowCount (createTextData (join newline (pageTexts items pages)) source)
     = length (pageTexts items pages).
Proof.
  intros Hne. destruct (pageTexts_lines items pages) as [Ht Hb].
  assert (L : filter truthy
                (map trim (split lineBreak (join newline (pageTexts items pages))))
              = pageTexts items pages).
  { rewrite split_lineBreak, breakLines_join by assumption.
    now apply lines_of_trimmed. }
  split; [|split].
  - apply trim_of_trimmed. now apply join_trimmed.
  - unfold createTextData. cbn [rows]. now rewrite L.
  - unfold createTextData. cbn [rowCount]. now rewrite L.
Qed.

Lemma readPages_texts (doc : PdfDocument) (items : nat -> option (list PdfItem))
  (remaining : nat) :
  forall (pageNumber : nat) (acc : list jsstring) (w : World),
    (forall n, pageNumber <= n < pageNumber + remaining ->
       exists page,
         getPage doc n = Resolved page /\ getTextContent page = Resolved (items n)) ->
    readPages doc remaining pageNumber acc w
    = (Resolved
         (acc ++ filter truthy
                   (map (fun n => nativeTextOf
                                    (match items n with Some l => l | None => [] end))
                        (seq pageNumber remaining))),
       w).
Proof.
  induction remaining as [|k IH]; intros pageNumber acc w H.
  - cbn [readPages seq map filter]. now rewrite app_nil_r.
  - destruct (H pageNumber ltac:(lia)) as [page [Hp Hi]].
    cbn [readPages]. unfold bind at 1. unfold await at 1. rewrite Hp.
    unfold bind at 1. unfold extractNativePdfText, bind, await, ret.
    rewrite Hi. cbv beta iota.
    rewrite IH by (intros n Hn; apply H; lia).
    cbn [seq map filter].
    destruct (truthy (nativeTextOf _)); [|reflexivity].
    now rewrite <- app_assoc.
Qed.

(** X25. When the PDF opens, every page loads and the document is
    released without error, and at least one page has text, [parsePDF]
    returns a table under the header Content with one row for each page
    that has text, in page order, holding the text of that page (its
    items joined, whitespace collapsed and trimmed); pages without text
    leave no row. *)
Theorem pdf_rows_are_page_texts :
  forall (file : File) (w : World) (buffer : list N) (doc : PdfDocument)
         (items : nat -> option (list PdfItem)),
    hasDocument = true ->
    fileArrayBuffer file = Resolved buffer ->
    pdfGetDocument buffer = Resolved doc ->
    (forall n, 1 <= n <= numPages doc ->
       exists page,
         getPage doc n = Resolved page /\ getTextContent page = Resolved (items n)) ->
    cleanup doc = Resolved tt ->
    destroy doc = Resolved tt ->
    pageTexts items (numPages doc) <> [] ->
    exists t w',
      parsePDF file w = (Resolved t, w')
      /\ headers t = [lit "Content"]
      /\ rows t = map (fun x => [CString x]) (pageTexts items (numPages doc))
      /\ rowCount t = length (pageTexts items (numPages doc))
      /\ sourceType t = Some pdf.
Proof.
  intros file w buffer doc items Hd Hb Hg Hp Hc Hy Hne.
  destruct (createTextData_pageTexts items (numPages doc) pdf Hne)
    as [Ht [Hr Hn]].
  unfold parsePDF. rewrite Hd. cbn [negb].
  unfold bind at 1. unfold await at 1. rewrite Hb.
  unfold bind at 1. unfold await at 1. rewrite Hg.
  unfold bind at 1. unfold tryFinally.
  rewrite (readPages_texts doc items) by (intros n Hn'; apply Hp; lia).
  cbn [app]. fold (pageTexts items (numPages doc)).
  unfold bind, emit, await. rewrite Hc, Hy. cbv beta iota.
  rewrite Ht.
  destruct (truthy (join newline (pageTexts items (numPages doc)))) eqn:T.
  - cbn [negb]. unfold ret. eexists. eexists. split; [reflexivity|].
    split; [reflexivity|]. split; [exact Hr|]. split; [exact Hn|reflexivity].
  - exfalso. apply truthy_false in T.
    destruct (pageTexts_lines items (numPages doc)) as [Htr _].
    destruct (join_trimmed _ Hne Htr) as [J _]. contradiction.
Qed.

(** X26. The rows of the table made from a text are the pieces between
    its line breaks (a line feed, together with the carriage return
    before it when there is one; a carriage return alone is no break),
    trimmed, those that are then empty left out; the same pieces are the
    lines that the metadata extractor reads. *)
Theorem text_rows_break_at_line_feeds :
  forall (text : jsstring) (source : SourceType),
    rows (createTextData text source)
    = map (fun line => [CString line])
          (filter truthy (map trim (breakLines [] text)))
    /\ rowCount (createTextData text source)
       = length (filter truthy (map trim (breakLines [] text)))
    /\ linesOf text = filter truthy (map trim (breakLines [] text)).
Proof.
  intros text source. unfold createTextData, linesOf. cbn [rows rowCount].
  rewrite split_lineBreak. repeat split.
Qed.

End PageFacts.

Lemma pdf_rows_are_page_texts_witness :
  exists t w',
    @EnhancedFileParser.parsePDF SampleLibraries.pdfLibraries
      SampleLibraries.scan SampleLibraries.freshWorld = (EnhancedFileParser.Resolved t, w')
    /\ Types.headers t = [JS.lit "Content"]
    /\ Types.rows t = map (fun x => [Types.CString x]) (Vocabulary.pageTexts SampleLibraries.guideItems 2)
    /\ Types.rowCount t = length (Vocabulary.pageTexts SampleLibraries.guideItems 2)
    /\ Types.sourceType t = Some Types.pdf.
Proof.
  apply (@pdf_rows_are_page_texts SampleLibraries.pdfLibraries
           SampleLibraries.scan SampleLibraries.freshWorld [] SampleLibraries.guidePdf
           SampleLibraries.guideItems); try reflexivity.
  - intros n _. eexists. split; reflexivity.
  - vm_compute. discriminate.
Defined.

(* ------------------------------------------------------------------ *)
(** ** Unused targets, and the location of a result *)
(* ------------------------------------------------------------------ *)

Section UnusedFacts.
Import JS JSArray FieldMatcher Vocabulary.
Context {fuse : Fuse}.
Variable targetFields : list TargetField.

Lemma mapSet_keys (key value : jsstring) (mapping : StringMap) :
  map fst (mapSet key value mapping)
  = if mapHas key mapping then map fst mapping else map fst mapping ++ [key].
Proof.
  unfold mapHas. induction mapping as [|[k v] later IH]; [reflexivity|].
  cbn [mapSet existsb fst]. destruct (eqb k key) eqn:E; [reflexivity|].
  cbn [map fst orb]. rewrite IH. now destruct (existsb _ later).
Qed.

Lemma mapHas_in (key : jsstring) (mapping : StringMap) :
  mapHas key mapping = true <-> In key (map fst mapping).
Proof.
  unfold mapHas. rewrite existsb_exists, in_map_iff. split.
  - intros [e [He E]]. apply eqb_eq in E. now exists e.
  - intros [e [E He]]. exists e. split; [exact He|]. rewrite E. apply eqb_refl.
Qed.

Lemma mapSet_nodup (key value : jsstring) (mapping : StringMap) :
  NoDup (map fst mapping) -> NoDup (map fst (mapSet key value mapping)).
Proof.
  intros H. rewrite mapSet_keys. destruct (mapHas key mapping) eqn:E; [exact H|].
  apply NoDup_app; [exact H|repeat constructor; intros []|].
  intros k Hk [<-|[]]. apply mapHas_in in Hk. congruence.
Qed.

Lemma autoMap_nodup (sourceFields : list jsstring) (minConfidence : option float) :
  NoDup (map fst (autoMap targetFields sourceFields minConfidence)).
Proof.
  unfold autoMap.
  set (step := fun mapping m => if PrimFloat.leb _ _ then _ else _).
  assert (H : forall matches mapping,
            NoDup (map fst mapping) ->
            NoDup (map fst (fold_left step matches mapping))).
  { induction matches as [|m later IH]; intros mapping Hm; [exact Hm|].
    cbn [fold_left]. apply IH. unfold step.
    destruct (PrimFloat.leb _ _); [now apply mapSet_nodup|exact Hm]. }
  apply H. constructor.
Qed.

Lemma mapValues_get (value : jsstring) (mapping : StringMap) :
  NoDup (map fst mapping) ->
  In value (mapValues mapping) <-> exists key, mapGet key mapping = Some value.
Proof.
  unfold mapValues, mapGet. intros H. split.
  - induction mapping as [|[k v] later IH]; [intros []|].
    cbn [map fst snd] in *. inversion H as [|? ? Hk Hl]; subst.
    intros [<-|Hin].
    + exists k. cbn [find fst]. now rewrite eqb_refl.
    + destruct (IH Hl Hin) as [key Hkey]. exists key. cbn [find fst].
      destruct (eqb k key) eqn:E; [|exact Hkey].
      apply eqb_eq in E. subst key. exfalso. apply Hk.
      destruct (find _ later) as [e|] eqn:F; [|discriminate].
      apply find_some in F as [Fin Fe]. apply eqb_eq in Fe.
      apply in_map_iff. now exists e.
  - intros [key Hkey]. destruct (find _ mapping) as [e|] eqn:F; [|discriminate].
    injection Hkey as <-. apply find_some in F as [Fin _]. now apply in_map.
Qed.

(** X27. The target fields that [getUnusedTargetFields] reports after
    [autoMap] are, in order, those that are the target of the best match
    of no listed source field whose match reaches the minimum. *)
Theorem unused_targets_after_autoMap :
  forall (sourceFields : list jsstring) (minConfidence : option float),
    getUnusedTargetFields targetFields
      (autoMap targetFields sourceFields minConfidence)
    = filter
        (fun field =>
           negb (existsb
                   (fun s =>
                      match findBestMatch targetFields s with
                      | Some m =>
                          (PrimFloat.leb
                             (match minConfidence with
                              | Some x => x | None => 0.6%float end)
                             (confidence m)
                           && eqb (targetField m) (name field))%bool
                      | None => false
                      end) sourceFields))
        targetFields.
Proof.
  intros sourceFields minConfidence. unfold getUnusedTargetFields.
  apply filter_ext. intros field. f_equal. apply eq_true_iff_eq.
  rewrite !existsb_exists. split.
  - intros [v [Hv E]]. apply eqb_eq in E. subst v.
    apply mapValues_get in Hv; [|apply autoMap_nodup].
    destruct Hv as [s Hs]. rewrite autoMap_get in Hs.
    destruct (findBestMatch targetFields s) as [m|] eqn:B; [|discriminate].
    destruct (existsb (eqb s) sourceFields) eqn:Hin; [|discriminate].
    cbn [andb] in Hs. destruct (PrimFloat.leb _ _) eqn:Q; [|discriminate].
    injection Hs as Hs. exists s. split; [now apply existsb_eqb_in|].
    rewrite B, Q, Hs. apply eqb_refl.
  - intros [s [Hin Hs]].
    destruct (findBestMatch targetFields s) as [m|] eqn:B; [|discriminate].
    apply andb_true_iff in Hs as [Q E]. apply eqb_eq in E.
    exists (name field). split; [|apply eqb_refl].
    apply mapValues_get; [apply autoMap_nodup|]. exists s.
    rewrite autoMap_get, B, Q, (proj2 (existsb_eqb_in _ _) Hin), E. reflexivity.
Qed.

End UnusedFacts.

Section LikelyFacts.
Import JS JSArray Types MetadataExtractor Vocabulary.

Lemma includes_head (c : codeunit) (needle hay : jsstring) :
  includes (c :: needle) hay = true -> In c hay.
Proof.
  induction hay as [|y h IH]; cbn [includes startsWith]; [discriminate|].
  intros H. apply orb_true_iff in H as [H|H].
  - apply andb_true_iff in H as [E _]. apply N.eqb_eq in E. now left.
  - right. now apply IH.
Qed.

Lemma letter_not_edge (c : codeunit) :
  (isLower c || isUpper c)%bool = true -> isEdgeChar c = false.
Proof.
  unfold isLower, isUpper, isEdgeChar, isWhiteSpace, inRange. intros H.
  repeat rewrite orb_true_iff in H. repeat rewrite andb_true_iff in H.
  repeat rewrite N.leb_le in H.
  repeat rewrite orb_false_iff. repeat rewrite andb_false_iff.
  repeat rewrite N.leb_gt. repeat rewrite N.eqb_neq. lia.
Qed.

Lemma matchAt_twoLetterToken (pre suf : jsstring) (m : mstate) :
  matchAt twoLetterToken pre suf = Some m ->
  exists c, In c suf /\ isEdgeChar c = false.
Proof.
  unfold matchAt, twoLetterToken, seqs. cbn [fold_right matcher before after].
  destruct (xorb _ _); [|discriminate].
  destruct suf as [|c t]; [discriminate|].
  destruct (isLower c || isUpper c)%bool eqn:L; [|discriminate].
  intros _. exists c. split; [now left|now apply letter_not_edge].
Qed.

Lemma execFrom_twoLetterToken (suf : jsstring) :
  forall pre m, execFrom twoLetterToken pre suf = Some m ->
    exists c, In c suf /\ isEdgeChar c = false.
Proof.
  induction suf as [|c t IH]; intros pre m; cbn [execFrom].
  - destruct (matchAt twoLetterToken pre []) eqn:E; [|discriminate].
    intros _. now apply matchAt_twoLetterToken in E.
  - destruct (matchAt twoLetterToken pre (c :: t)) eqn:E.
    + intros _. now apply matchAt_twoLetterToken in E.
    + intros H. destruct (IH _ _ H) as [x [Hx Ex]]. exists x. split; [now right|exact Ex].
Qed.

Context {host : Host} {fuse : FieldMatcher.Fuse}.
Hypothesis lowercase_keeps_edges :
  forall s, forallb isEdgeChar s = true ->
            forallb isEdgeChar (toLowerCase s) = true.

Lemma likely_location_has_value (line : jsstring) :
  isLikelyLocation line = true -> truthy (cleanValue line) = true.
Proof.
  intros H.
  destruct (truthy_cases (cleanValue line)) as [E|E]; [|exact E]. exfalso.
  apply cleanValue_nil_iff in E.
  pose proof (lowercase_keeps_edges line E) as El.
  assert (Hin : forall c n, includes (c :: n) (toLowerCase line) = true ->
                            isEdgeChar c = false -> False).
  { intros c n Hc Hn. apply includes_head in Hc.
    rewrite forallb_forall in El. rewrite (El c Hc) in Hn. discriminate. }
  unfold isLikelyLocation in H.
  repeat (apply orb_true_iff in H as [H|H]);
    try (now apply (Hin _ _ H)).
  unfold test, exec in H.
  destruct (execFrom twoLetterToken [] line) as [m|] eqn:X; [|discriminate].
  apply execFrom_twoLetterToken in X as [c [Hc Ec]].
  rewrite forallb_forall in E. rewrite (E c Hc) in Ec. discriminate.
Qed.

Lemma text_location_together (text : jsstring) :
  let r := extractFromText text in
  (location r = [] /\ locationConfidence r = 0%float)
  \/ (truthy (location r) = true /\ isZero (locationConfidence r) = false).
Proof.
  unfold extractFromText.
  pose proof (scanLines_together (linesOf text) emptyResult together_empty) as H.
  destruct (scanLines (linesOf text) emptyResult) as [r|acc].
  - destruct (H locationField) as [[E [C|[C _]]]|T];
      [now left|discriminate C|now right].
  - assert (Hl : (location acc = [] /\ locationConfidence acc = 0%float)
                 \/ (truthy (location acc) = true
                     /\ isZero (locationConfidence acc) = false)).
    { destruct (H locationField) as [[E [C|[C _]]]|T];
        [now left|discriminate C|now right]. }
    destruct (if negb (truthy (placeName acc)) then _ else _) as [place placeC].
    destruct (truthy (location acc)) eqn:T; cbn [negb].
    + cbv zeta. cbn [location locationConfidence]. rewrite T. exact Hl.
    + destruct (find isLikelyLocation (linesOf text)) as [line|] eqn:F.
      * apply find_some in F as [_ L].
        pose proof (likely_location_has_value line L) as V.
        destruct (truthy line) eqn:Tl.
        -- cbv zeta. cbn [location locationConfidence]. right. now split.
        -- destruct line; [discriminate V|discriminate Tl].
      * cbv zeta. cbn [location locationConfidence]. rewrite T. exact Hl.
Qed.

(** X28. For the location the value and the confidence go together in
    every result of [extractMetadataFromContent]: either the location is
    empty and its confidence is 0, or it is not empty and its confidence
    is not zero.  A line that [isLikelyLocation] accepts holds a comma, a
    letter of one of its keywords or a two-letter token, so cleaning it
    leaves something.  (Lowercasing is taken to turn colons, dashes and
    whitespace into nothing else.) *)
Theorem location_iff_confidence :
  forall (c : content),
    let r := extractMetadataFromContent c in
    (location r = [] /\ locationConfidence r = 0%float)
    \/ (location r <> [] /\ isZero (locationConfidence r) = false).
Proof.
  intros c r.
  assert (H : (location r = [] /\ locationConfidence r = 0%float)
              \/ (truthy (location r) = true
                  /\ isZero (locationConfidence r) = false)).
  { assert (Ht : forall data,
        (location (extractFromTableData data) = []
         /\ locationConfidence (extractFromTableData data) = 0%float)
        \/ (truthy (location (extractFromTableData data)) = true
            /\ isZero (locationConfidence (extractFromTableData data)) = false)).
    { intros data.
      destruct (together_table data locationField) as [[E [C|[C _]]]|T];
        [now left|discriminate C|now right]. }
    subst r. destruct c as [data|s|first|rec|]; cbn [extractMetadataFromContent].
    - destruct (_ || _)%bool; [apply Ht|].
      destruct (ocrText data) as [[|t ts]|]; apply text_location_together.
    - apply text_location_together.
    - apply Ht.
    - apply Ht.
    - left. split; reflexivity. }
  destruct H as [H|[T Z]]; [now left|right]. split; [|exact Z].
  intros E. rewrite E in T. discriminate T.
Qed.

End LikelyFacts.

Lemma latin_lowercase_keeps_edges (s : JS.jsstring) :
  forallb MetadataExtractor.isEdgeChar s = true ->
  forallb MetadataExtractor.isEdgeChar (@JS.toLowerCase JS.latinHost s) = true.
Proof.
  cbn [JS.toLowerCase JS.latinHost]. induction s as [|c t IH]; [reflexivity|].
  cbn [forallb map]. intros H. apply andb_true_iff in H as [Hc Ht].
  rewrite (IH Ht), andb_true_r. unfold JS.lowerUnit.
  destruct (JS.isUpper c) eqn:U; [|exact Hc].
  assert (E : MetadataExtractor.isEdgeChar c = false)
    by (apply letter_not_edge; now rewrite U, orb_true_r).
  congruence.
Qed.

Lemma location_iff_confidence_witness :
  (MetadataExtractor.location
     (MetadataExtractor.extractMetadataFromContent
        (MetadataExtractor.Text (JS.lit "City: Paris"))) = []
   /\ MetadataExtractor.locationConfidence
        (MetadataExtractor.extractMetadataFromContent
           (MetadataExtractor.Text (JS.lit "City: Paris"))) = 0%float)
  \/ (MetadataExtractor.location
        (MetadataExtractor.extractMetadataFromContent
           (MetadataExtractor.Text (JS.lit "City: Paris"))) <> []
      /\ Vocabulary.isZero
           (MetadataExtractor.locationConfidence
              (MetadataExtractor.extractMetadataFromContent
                 (MetadataExtractor.Text (JS.lit "City: Paris")))) = false).
Proof.
  apply (@location_iff_confidence JS.latinHost Samples.silentFuse
           latin_lowercase_keeps_edges
           (MetadataExtractor.Text (JS.lit "City: Paris"))).
Defined.

(* ------------------------------------------------------------------ *)
(** ** The row that a table is read from *)
(* ------------------------------------------------------------------ *)

Section RowReading.
Import JS JSArray Types MetadataExtractor Vocabulary.
Context {host : Host} {fuse : FieldMatcher.Fuse}.

Lemma trim_nil_iff (s : jsstring) : trim s = [] <-> forallb isWhiteSpace s = true.
Proof.
  split; [|apply trim_blank]. unfold trim. intros H.
  apply dropWhileEnd_nil_iff in H.
  pose proof (headIs_dropWhile isWhiteSpace s) as Hh.
  apply dropWhile_nil_iff.
  destruct (dropWhile isWhiteSpace s) as [|c t]; [reflexivity|].
  cbn [headIs] in Hh. cbn [forallb] in H. rewrite Hh in H. discriminate H.
Qed.

Lemma nonEmptyValueCount_counts_non_blank (row : list cell) :
  nonEmptyValueCount row = nonBlankCells row.
Proof.
  unfold nonEmptyValueCount, nonBlankCells. f_equal. apply filter_ext.
  intros value. f_equal. unfold isBlank. apply eq_true_iff_eq.
  rewrite eqb_eq. apply trim_nil_iff.
Qed.

Lemma readValueFromRow_cleanedCell (row : list cell) (column : Z) :
  readValueFromRow row column = cleanedCell row column.
Proof.
  unfold readValueFromRow, cleanedCell.
  destruct (column <? 0)%Z eqn:N; [reflexivity|]. cbn [orb].
  apply Z.ltb_ge in N.
  destruct (column >=? Z.of_nat (length row))%Z eqn:G.
  - apply Z.geb_le in G.
    assert (E : nth_error row (Z.to_nat column) = None)
      by (apply nth_error_None; lia).
    now rewrite E.
  - assert (L : Z.to_nat column < length row).
    { destruct (Z.geb_spec column (Z.of_nat (length row))); [discriminate|lia]. }
    destruct (nth_error row (Z.to_nat column)) as [value|] eqn:E.
    + now rewrite (nth_error_nth _ _ CNull E).
    + apply nth_error_None in E. lia.
Qed.

Lemma findHeaderMatch_no_headers (aliases : list jsstring) (t : Target) :
  index (findHeaderMatch [] aliases t) = (-1)%Z.
Proof. destruct t; reflexivity. Qed.

Lemma getBestDataRow_sorted (rows : list (list cell)) :
  rows <> [] -> getBestDataRow rows = hd_error (sort fewerFirst rows).
Proof. destruct rows as [|a [|b rest]]; [contradiction|reflexivity|reflexivity]. Qed.

(** C8. From a table that has rows, [extractFromTableData] reads the
    place name and the location from one row of the table, the one that
    [getBestDataRow] returns: its count of cells that are not blank is
    the greatest among all rows, every row before it in the table has a
    strictly smaller count (among the fullest rows it is the first), and
    each of the two values is the cell of that row in the column that
    [findHeaderMatch] reports, as text and cleaned, or nothing when no
    column is reported or the row is too short. *)
Theorem table_values_from_first_fullest_row :
  forall (data : ParsedTableData),
    rows data <> [] ->
    exists i row,
      nth_error (rows data) i = Some row
      /\ (forall r, In r (rows data) -> nonBlankCells r <= nonBlankCells row)
      /\ (forall j r, j < i -> nth_error (rows data) j = Some r ->
            nonBlankCells r < nonBlankCells row)
      /\ getBestDataRow (rows data) = Some row
      /\ placeName (extractFromTableData data)
         = cleanedCell row
             (index (findHeaderMatch (headers data) PLACE_ALIASES placeNameField))
      /\ location (extractFromTableData data)
         = cleanedCell row
             (index (findHeaderMatch (headers data) LOCATION_ALIASES locationField)).
Proof.
  intros data Hne.
  destruct (sorted_head_first_fullest (rows data) Hne)
    as [i [row [Hhd [Hnth [Hmax Hfirst]]]]].
  rewrite <- (getBestDataRow_sorted _ Hne) in Hhd.
  exists i, row. split; [exact Hnth|]. split; [|split; [|split; [exact Hhd|]]].
  - intros r Hr. rewrite <- !nonEmptyValueCount_counts_non_blank. now apply Hmax.
  - intros j r Hj Hr. rewrite <- !nonEmptyValueCount_counts_non_blank.
    now apply (Hfirst j r).
  - unfold extractFromTableData. rewrite Hhd.
    destruct (length (rows data) =? 0)%nat eqn:Lr.
    { apply length_zero_iff_nil in Lr. contradiction. }
    rewrite orb_false_r.
    destruct (headers data) as [|h hs] eqn:Eh.
    + cbn [length Nat.eqb]. cbn [placeName location emptyResult].
      rewrite !findHeaderMatch_no_headers. split; reflexivity.
    + cbn [length Nat.eqb]. cbn [placeName location].
      rewrite !readValueFromRow_cleanedCell. split; reflexivity.
Qed.

End RowReading.

Lemma table_values_from_first_fullest_row_witness :
  exists i row,
    nth_error (Types.rows Samples.placesTable) i = Some row
    /\ (forall r, In r (Types.rows Samples.placesTable) ->
          Vocabulary.nonBlankCells r <= Vocabulary.nonBlankCells row)
    /\ (forall j r, j < i -> nth_error (Types.rows Samples.placesTable) j = Some r ->
          Vocabulary.nonBlankCells r < Vocabulary.nonBlankCells row)
    /\ MetadataExtractor.getBestDataRow (Types.rows Samples.placesTable) = Some row
    /\ MetadataExtractor.placeName
         (MetadataExtractor.extractFromTableData Samples.placesTable)
       = Vocabulary.cleanedCell row
           (MetadataExtractor.index
              (MetadataExtractor.findHeaderMatch
                 (Types.headers Samples.placesTable)
                 MetadataExtractor.PLACE_ALIASES MetadataExtractor.placeNameField))
    /\ MetadataExtractor.location
         (MetadataExtractor.extractFromTableData Samples.placesTable)
       = Vocabulary.cleanedCell row
           (MetadataExtractor.index
              (MetadataExtractor.findHeaderMatch
                 (Types.headers Samples.placesTable)
                 MetadataExtractor.LOCATION_ALIASES MetadataExtractor.locationField)).
Proof.
  apply (table_values_from_first_fullest_row Samples.placesTable). discriminate.
Defined.
